(** * HTML conversion tool: extraction, classification and templating

    A shallow embedding of [scripts/convert.py] (class [HTMLConverter]) and
    of the parts of [api/convert.py] that work on texts and bytes, with the
    properties the specification states about them and further properties
    read off the code.

    Python strings are modelled by [string]; a character is read as the
    code point 0..255, on which lower-casing, title-casing and white space
    follow Python.  The regular expressions of
    the source are kept as syntax ([regex]) and run by a backtracking
    matcher with the priorities of Python's [re] module (greedy and lazy
    repetition, optional groups, leftmost search, non-overlapping
    iteration).  A call that may raise returns a [Py.result]; the
    configuration and the template files a converter has loaded are fields
    of [HTMLConverter.converter]; a float is a double, given by its
    value. *)

From Stdlib Require Import Bool Arith NArith ZArith QArith Lia List.
From Stdlib Require Import Ascii String DecimalString.
From Stdlib Require Import Sorted Permutation.
Import ListNotations.

Close Scope Q_scope.
Local Open Scope string_scope.
Local Open Scope bool_scope.

(** ** Characters *)

Module Char.

Definition code (c : ascii) : N := N_of_ascii c.

Definition between (lo hi : N) (c : ascii) : bool :=
  (lo <=? code c)%N && (code c <=? hi)%N.

(** [\d] *)
Definition is_digit (c : ascii) : bool := between 48 57 c.

(** [\s], and the characters removed by [str.strip()] *)
Definition is_space (c : ascii) : bool :=
  between 9 13 c || between 28 32 c || (code c =? 133)%N || (code c =? 160)%N.

Definition is_upper (c : ascii) : bool :=
  between 65 90 c || (between 192 222 c && negb (code c =? 215)%N).

Definition is_ascii_lower (c : ascii) : bool := between 97 122 c.
Definition is_ascii_upper (c : ascii) : bool := between 65 90 c.

(** one character of [str.lower()] *)
Definition lower (c : ascii) : ascii :=
  if is_upper c then ascii_of_N (code c + 32) else c.

(** the characters with a letter case: the letters, and the ordinal
    indicators and the micro sign, which count as lower case *)
Definition is_cased (c : ascii) : bool :=
  between 65 90 c || between 97 122 c
  || (between 192 255 c && negb (code c =? 215)%N && negb (code c =? 247)%N)
  || (code c =? 170)%N || (code c =? 181)%N || (code c =? 186)%N.

(** the title case of a character: the upper-case letter of a lower-case
    one, Ss for the sharp s.  The title case of the micro sign and of y
    with diaeresis lies beyond code point 255: they are kept as they are. *)
Definition title (c : ascii) : string :=
  if between 97 122 c || (between 224 254 c && negb (code c =? 247)%N)
  then String (ascii_of_N (code c - 32)) EmptyString
  else if (code c =? 223)%N then String (ascii_of_N 83) (String (ascii_of_N 115) EmptyString)
  else String c EmptyString.

Definition eqb_ci (a b : ascii) : bool := Ascii.eqb (lower a) (lower b).

Definition newline : ascii := ascii_of_N 10.

End Char.

(** ** Strings *)

Module Str.

Fixpoint map (f : ascii -> ascii) (s : string) : string :=
  match s with
  | EmptyString => EmptyString
  | String c r => String (f c) (map f r)
  end.

(** every character of [s] passes the test [f] *)
Fixpoint all (f : ascii -> bool) (s : string) : bool :=
  match s with
  | EmptyString => true
  | String c r => f c && all f r
  end.

(** [s] begins with a character that passes the test [f] *)
Definition head_is (f : ascii -> bool) (s : string) : bool :=
  match s with
  | EmptyString => false
  | String c _ => f c
  end.

Fixpoint take (n : nat) (s : string) : string :=
  match n, s with
  | S m, String c r => String c (take m r)
  | _, _ => EmptyString
  end.

Fixpoint drop (n : nat) (s : string) : string :=
  match n, s with
  | S m, String _ r => drop m r
  | _, _ => s
  end.

Fixpoint rev_onto (s acc : string) : string :=
  match s with
  | EmptyString => acc
  | String c r => rev_onto r (String c acc)
  end.

Definition rev (s : string) : string := rev_onto s EmptyString.

(** [s.lower()] *)
Definition lower (s : string) : string := map Char.lower s.

Fixpoint lstrip (s : string) : string :=
  match s with
  | String c r => if Char.is_space c then lstrip r else s
  | EmptyString => EmptyString
  end.

Definition rstrip (s : string) : string := rev (lstrip (rev s)).

(** [s.strip()] *)
Definition strip (s : string) : string := rstrip (lstrip s).

(** [s.startswith(p)], giving what follows the prefix *)
Fixpoint after_prefix (p s : string) : option string :=
  match p, s with
  | EmptyString, _ => Some s
  | String a p', String b s' => if Ascii.eqb a b then after_prefix p' s' else None
  | String _ _, EmptyString => None
  end.

Definition starts_with (p s : string) : bool :=
  match after_prefix p s with Some _ => true | None => false end.

(** [needle in hay] *)
Fixpoint contains (needle hay : string) : bool :=
  starts_with needle hay ||
  match hay with
  | EmptyString => false
  | String _ r => contains needle r
  end.

(** [sep.join(parts)] *)
Fixpoint join (sep : string) (parts : list string) : string :=
  match parts with
  | [] => EmptyString
  | [p] => p
  | p :: rest => p ++ sep ++ join sep rest
  end.

(** [s.replace(old, new)] for a non-empty [old]: the occurrences are taken
    leftmost first and do not overlap; [skip] counts the characters of the
    occurrence being replaced that are still to pass over. *)
Fixpoint replace_from (old new s : string) (skip : nat) : string :=
  match s with
  | EmptyString => EmptyString
  | String c r =>
      match skip with
      | S n => replace_from old new r n
      | O =>
          if starts_with old s
          then new ++ replace_from old new r (pred (length old))
          else String c (replace_from old new r O)
      end
  end.

Definition replace (old new s : string) : string := replace_from old new s O.

(** [s.title()]: a character that follows a cased one is lower-cased, any
    other is title-cased.  It is Python's wherever no word begins with the
    micro sign or y with diaeresis (see [Char.title]). *)
Fixpoint title_from (prev_cased : bool) (s : string) : string :=
  match s with
  | EmptyString => EmptyString
  | String c r =>
      (if prev_cased then String (Char.lower c) EmptyString else Char.title c)
      ++ title_from (Char.is_cased c) r
  end.

Definition title (s : string) : string := title_from false s.

(** [hay] has [needle] as a substring *)
Definition Occurs (needle hay : string) : Prop :=
  exists pre post, hay = pre ++ needle ++ post.

End Str.

(** ** Regular expressions *)

Module Re.

(** The character classes the patterns of the source use. *)
Inductive cclass : Type :=
| CDot                      (* .      *)
| CAll                      (* [\s\S] *)
| CDigit                    (* \d     *)
| CSpace                    (* \s     *)
| COneOf (cs : string)      (* [dh]   *)
| CNoneOf (cs : string).    (* [^>]   *)

(** The pattern syntax the source uses: repetition is only ever applied to
    a single character class. *)
Inductive regex : Type :=
| RLit (p : string)                                 (* literal text        *)
| RSet (c : cclass)                                 (* one character       *)
| RRep (c : cclass) (least : nat) (greedy : bool)   (* c* c+ c*? c+?       *)
| ROpt (r : regex)                                  (* r? and (?:r)?       *)
| RGroup (n : nat) (r : regex)                      (* capturing group n   *)
| RSeq (r1 r2 : regex).

Record flags : Type := Flags { ignorecase : bool; dotall : bool }.

Definition no_flags : flags := Flags false false.
Definition IGNORECASE : flags := Flags true false.
Definition IGNORECASE_DOTALL : flags := Flags true true.

Definition captures : Type := list (nat * string).

Fixpoint group_of (n : nat) (cs : captures) : option string :=
  match cs with
  | [] => None
  | (m, w) :: rest => if Nat.eqb n m then Some w else group_of n rest
  end.

Section Matcher.

Variable fl : flags.

Definition char_eq (p c : ascii) : bool :=
  if ignorecase fl then Char.eqb_ci p c else Ascii.eqb p c.

Fixpoint mem_set (c : ascii) (cs : string) : bool :=
  match cs with
  | EmptyString => false
  | String p r => char_eq p c || mem_set c r
  end.

Definition class_match (k : cclass) (c : ascii) : bool :=
  match k with
  | CDot => dotall fl || negb (Ascii.eqb c Char.newline)
  | CAll => true
  | CDigit => Char.is_digit c
  | CSpace => Char.is_space c
  | COneOf cs => mem_set c cs
  | CNoneOf cs => negb (mem_set c cs)
  end.

(** a literal: the text it matched and what follows *)
Fixpoint lit (p s : string) : option (string * string) :=
  match p, s with
  | EmptyString, _ => Some (EmptyString, s)
  | String a p', String b s' =>
      if char_eq a b then
        match lit p' s' with
        | Some (w, rest) => Some (String b w, rest)
        | None => None
        end
      else None
  | String _ _, EmptyString => None
  end.

Context {A : Type}.

(** greedy repetition: take as many characters as possible, give back one
    at a time; the continuation receives the text taken and what follows *)
Fixpoint rep_greedy (k : cclass) (least : nat) (s : string)
    (cont : string -> string -> option A) : option A :=
  let stop := match least with O => cont EmptyString s | S _ => None end in
  match s with
  | String c r =>
      if class_match k c then
        match rep_greedy k (pred least) r (fun w s' => cont (String c w) s') with
        | Some x => Some x
        | None => stop
        end
      else stop
  | EmptyString => stop
  end.

(** lazy repetition: take as few characters as possible, take one more at a
    time *)
Fixpoint rep_lazy (k : cclass) (least : nat) (s : string)
    (cont : string -> string -> option A) : option A :=
  match least with
  | O =>
      match cont EmptyString s with
      | Some x => Some x
      | None =>
          match s with
          | String c r =>
              if class_match k c
              then rep_lazy k O r (fun w s' => cont (String c w) s')
              else None
          | EmptyString => None
          end
      end
  | S n =>
      match s with
      | String c r =>
          if class_match k c
          then rep_lazy k n r (fun w s' => cont (String c w) s')
          else None
      | EmptyString => None
      end
  end.

(** [run r s cs cont]: match [r] at the start of [s], then hand the text
    matched, the rest of the input and the captures to [cont]; when [cont]
    fails the next alternative in priority order is tried. *)
Fixpoint run (r : regex) (s : string) (cs : captures)
    (cont : string -> string -> captures -> option A) : option A :=
  match r with
  | RLit p =>
      match lit p s with
      | Some (w, s') => cont w s' cs
      | None => None
      end
  | RSet k =>
      match s with
      | String c s' =>
          if class_match k c then cont (String c EmptyString) s' cs else None
      | EmptyString => None
      end
  | RRep k least greedy =>
      (if greedy then rep_greedy else rep_lazy) k least s
        (fun w s' => cont w s' cs)
  | ROpt r1 =>
      match run r1 s cs cont with
      | Some x => Some x
      | None => cont EmptyString s cs
      end
  | RGroup n r1 =>
      run r1 s cs (fun w s' cs' => cont w s' ((n, w) :: cs'))
  | RSeq r1 r2 =>
      run r1 s cs (fun w1 s1 cs1 =>
        run r2 s1 cs1 (fun w2 s2 cs2 => cont (w1 ++ w2) s2 cs2))
  end.

End Matcher.

(** A match object: [start()], [end()], [group(0)] and the groups. *)
Record mobj : Type := Match {
  m_start : nat;
  m_end : nat;
  m_text : string;
  m_groups : captures
}.

Definition group (n : nat) (m : mobj) : option string :=
  match n with
  | O => Some (m_text m)
  | _ => group_of n (m_groups m)
  end.

(** the match of [r] that starts at the head of [s]: its text and groups *)
Definition match_here (fl : flags) (r : regex) (s : string)
    : option (string * captures) :=
  run fl r s [] (fun w _ cs => Some (w, cs)).

Definition mk_match (pos : nat) (res : string * captures) : mobj :=
  Match pos (pos + length (fst res)) (fst res) (snd res).

(** [re.search]: the match at the leftmost position that has one; [s] is
    the text from offset [pos] on. *)
Fixpoint search_from (fl : flags) (r : regex) (s : string) (pos : nat)
    : option mobj :=
  match match_here fl r s with
  | Some res => Some (mk_match pos res)
  | None =>
      match s with
      | EmptyString => None
      | String _ rest => search_from fl r rest (S pos)
      end
  end.

Definition search (fl : flags) (r : regex) (s : string) : option mobj :=
  search_from fl r s 0.

(** [re.finditer]: the successive non-overlapping matches, left to right;
    [skip] counts the characters of the last match still to pass over. *)
Fixpoint finditer_from (fl : flags) (r : regex) (s : string) (pos skip : nat)
    : list mobj :=
  match skip with
  | S n =>
      match s with
      | EmptyString => []
      | String _ rest => finditer_from fl r rest (S pos) n
      end
  | O =>
      match match_here fl r s with
      | Some res =>
          mk_match pos res ::
          match s with
          | EmptyString => []
          | String _ rest =>
              finditer_from fl r rest (S pos) (pred (length (fst res)))
          end
      | None =>
          match s with
          | EmptyString => []
          | String _ rest => finditer_from fl r rest (S pos) O
          end
      end
  end.

Definition finditer (fl : flags) (r : regex) (s : string) : list mobj :=
  finditer_from fl r s 0 0.

(** [re.sub(r, repl, s)] for a replacement text without group references *)
Fixpoint sub_from (fl : flags) (r : regex) (repl s : string) (skip : nat)
    : string :=
  match skip with
  | S n =>
      match s with
      | EmptyString => EmptyString
      | String _ rest => sub_from fl r repl rest n
      end
  | O =>
      match match_here fl r s with
      | Some res =>
          repl ++
          match s with
          | EmptyString => EmptyString
          | String _ rest => sub_from fl r repl rest (pred (length (fst res)))
          end
      | None =>
          match s with
          | EmptyString => EmptyString
          | String c rest => String c (sub_from fl r repl rest O)
          end
      end
  end.

Definition sub (fl : flags) (r : regex) (repl s : string) : string :=
  sub_from fl r repl s 0.

(** The words a pattern matches, and the groups it fills: what a
    successful run of the matcher guarantees. *)
Section Language.

Variable fl : flags.

Fixpoint all_class (k : cclass) (w : string) : bool :=
  match w with
  | EmptyString => true
  | String c r => class_match fl k c && all_class k r
  end.

Fixpoint lang (r : regex) (w : string) : Prop :=
  match r with
  | RLit p => lit fl p w = Some (w, EmptyString)
  | RSet k => exists c, w = String c EmptyString /\ class_match fl k c = true
  | RRep k least _ => all_class k w = true /\ least <= length w
  | ROpt r1 => w = EmptyString \/ lang r1 w
  | RGroup _ r1 => lang r1 w
  | RSeq r1 r2 => exists w1 w2, w = w1 ++ w2 /\ lang r1 w1 /\ lang r2 w2
  end.

End Language.

(** the capturing groups of a pattern, each with its body *)
Fixpoint groups (r : regex) : list (nat * regex) :=
  match r with
  | RGroup n r1 => (n, r1) :: groups r1
  | RSeq r1 r2 => (groups r1 ++ groups r2)%list
  | ROpt r1 => groups r1
  | _ => []
  end.

(** group [n] takes part in every match of the pattern *)
Fixpoint sets_group (n : nat) (r : regex) : bool :=
  match r with
  | RGroup m r1 => Nat.eqb n m || sets_group n r1
  | RSeq r1 r2 => sets_group n r1 || sets_group n r2
  | _ => false
  end.

(** Sequencing of several parts, as they are written side by side in a
    pattern. *)
Fixpoint cat (rs : list regex) : regex :=
  match rs with
  | [] => RLit EmptyString
  | [r] => r
  | r :: rest => RSeq r (cat rest)
  end.

End Re.

(** ** Python values and exceptions *)

Module Py.

Inductive exn : Type := TypeError | ValueError | KeyError.

(** The outcome of a call: a value, or a raised exception. *)
Inductive result (A : Type) : Type :=
| Ok (a : A)
| Raise (e : exn).

Arguments Ok {A} a.
Arguments Raise {A} e.

Definition bind {A B : Type} (x : result A) (f : A -> result B) : result B :=
  match x with
  | Ok a => f a
  | Raise e => Raise e
  end.

Notation "x <- c ;; k" := (bind c (fun x => k))
  (at level 61, c at next level, right associativity).

(** [for x in xs: body], threading the variables the body updates *)
Fixpoint for_each {A S : Type} (xs : list A) (st : S)
    (body : S -> A -> result S) : result S :=
  match xs with
  | [] => Ok st
  | x :: rest => st' <- body st x ;; for_each rest st' body
  end.

(** [d.get(k)] and [k in d] on a dict kept in insertion order *)
Fixpoint get {V : Type} (k : string) (d : list (string * V)) : option V :=
  match d with
  | [] => None
  | (k', v) :: rest => if String.eqb k k' then Some v else get k rest
  end.

(** [m.group(n)] used where a [str] is required *)
Definition group_str (n : nat) (m : Re.mobj) : result string :=
  match Re.group n m with
  | Some w => Ok w
  | None => Raise TypeError
  end.

Fixpoint all_digits (s : string) : bool :=
  match s with
  | EmptyString => true
  | String c r => Char.is_digit c && all_digits r
  end.

Fixpoint digits_value (s : string) (acc : N) : N :=
  match s with
  | EmptyString => acc
  | String c r => digits_value r (acc * 10 + (Char.code c - 48))%N
  end.

Definition is_numeral (s : string) : bool :=
  negb (String.eqb s EmptyString) && all_digits s.

(** the most digits [int()] converts: [sys.int_info.default_max_str_digits] *)
Definition max_str_digits : nat := 4300.

(** [int(s)] on the numerals [\d+]: a numeral of more than
    [max_str_digits] digits, leading zeros counted, raises ValueError; any
    text that is not a numeral is taken to raise, which errs on the side of
    raising. *)
Definition int_of_str (s : string) : result Z :=
  if is_numeral s then
    if Nat.leb (length s) max_str_digits
    then Ok (Z.of_N (digits_value s 0))
    else Raise ValueError
  else Raise ValueError.

Fixpoint split_dot (s : string) : string * option string :=
  match s with
  | EmptyString => (EmptyString, None)
  | String c r =>
      if Ascii.eqb c "." then (EmptyString, Some r)
      else let (a, b) := split_dot r in (String c a, b)
  end.

(** A [float] that is not negative: a double, given by its value, or
    infinity. *)
Inductive float : Type :=
| Finite (q : Q)
| Infinity.

(** [num / den] rounded to the nearest integer, a tie going to the even
    one *)
Definition round_half_even (num den : Z) : Z :=
  let (quo, rest) := Z.div_eucl num den in
  match (2 * rest ?= den)%Z with
  | Lt => quo
  | Gt => (quo + 1)%Z
  | Eq => if Z.even quo then quo else (quo + 1)%Z
  end.

(** The double nearest to [n / d], for [n] not negative, a tie going to
    the even significand: with [e] the binary exponent of [n / d], the
    significand counts units of [2 ^ k] for [k = max (e - 52) (-1074)]; a
    value that rounds to [2 ^ 1024] or more is infinity. *)
Definition nearest_double (n : Z) (d : positive) : float :=
  if (n =? 0)%Z then Finite 0 else
  let e0 := (Z.log2 n - Z.log2 (Zpos d))%Z in
  let e := if (Zpos d * 2 ^ Z.max 0 e0 <=? n * 2 ^ Z.max 0 (- e0))%Z
           then e0 else (e0 - 1)%Z in
  let k := Z.max (e - 52) (-1074) in
  let m := round_half_even (n * 2 ^ Z.max 0 (- k)) (Zpos d * 2 ^ Z.max 0 k) in
  if (971 <? k)%Z || ((k =? 971)%Z && (2 ^ 53 <=? m)%Z) then Infinity
  else Finite (Qred (Qmake (m * 2 ^ Z.max 0 k) (Z.to_pos (2 ^ Z.max 0 (- k))))).

(** [float(s)] on the decimal numerals [\d+(\.\d+)?]: the double nearest
    to the value of the numeral; any other text is taken to raise. *)
Definition float_of_str (s : string) : result float :=
  match split_dot s with
  | (ip, None) =>
      if is_numeral ip then Ok (nearest_double (Z.of_N (digits_value ip 0)) 1)
      else Raise ValueError
  | (ip, Some fp) =>
      if is_numeral ip && is_numeral fp
      then Ok (nearest_double (Z.of_N (digits_value (ip ++ fp) 0))
                              (Pos.pow 10 (Pos.of_nat (length fp))))
      else Raise ValueError
  end.

(** a value of the placeholder map *)
Inductive value : Type :=
| VStr (s : string)
| VInt (z : Z).

(** [str(v)] *)
Definition str (v : value) : string :=
  match v with
  | VStr s => s
  | VInt z => NilZero.string_of_int (Z.to_int z)
  end.

End Py.

Import Py.

(** ** The converter *)

Module HTMLConverter.

Import Re.

Definition nl : string := String Char.newline EmptyString.

Fixpoint spaces (n : nat) : string :=
  match n with
  | O => EmptyString
  | S m => String " " (spaces m)
  end.

(** *** Configuration and template files *)

(** An entry of [platform-metadata.json]; only ['name'] is read. *)
Record metadata : Type := Metadata { md_name : option string }.

(** The state of a converter after [__init__]; the two directories are
    kept as the map from a file name to its text. *)
Record converter : Type := Converter {
  affiliate_links : list (string * string);
  platform_metadata : list (string * metadata);
  image_disclaimers : option (list (string * string));
  template_files : list (string * string);
  component_files : list (string * string)
}.

Section Methods.

Variable self : converter.

Definition load_template (template_name : string) : string :=
  match get template_name (template_files self) with
  | Some text => text
  | None => EmptyString
  end.

Definition load_component (component_name : string) : string :=
  match get component_name (component_files self) with
  | Some text => text
  | None => EmptyString
  end.

(** *** Patterns *)

(** [<[^>]+>] *)
Definition tag_pattern : regex :=
  cat [RLit "<"; RRep (CNoneOf ">") 1 true; RLit ">"].

(** [<{name}[^>]*>(.*?)</{name}>] *)
Definition element_pattern (name : string) : regex :=
  cat [RLit ("<" ++ name); RRep (CNoneOf ">") 0 true; RLit ">";
       RGroup 1 (RRep CDot 0 false); RLit ("</" ++ name ++ ">")].

(** [<t[dh][^>]*>(.*?)</t[dh]>] *)
Definition cell_pattern : regex :=
  cat [RLit "<t"; RSet (COneOf "dh"); RRep (CNoneOf ">") 0 true; RLit ">";
       RGroup 1 (RRep CDot 0 false); RLit "</t"; RSet (COneOf "dh"); RLit ">"].

(** [<strong>{label}:?</strong>[\s\S]*?<ul>([\s\S]*?)</ul>] *)
Definition list_pattern (label : string) : regex :=
  cat [RLit ("<strong>" ++ label); ROpt (RLit ":"); RLit "</strong>";
       RRep CAll 0 false; RLit "<ul>";
       RGroup 1 (RRep CAll 0 false); RLit "</ul>"].

(** [<li>(.*?)</li>] *)
Definition li_pattern : regex :=
  cat [RLit "<li>"; RGroup 1 (RRep CDot 0 false); RLit "</li>"].

(** [\d+(?:\.\d+)?] *)
Definition decimal : regex :=
  RSeq (RRep CDigit 1 true) (ROpt (RSeq (RLit ".") (RRep CDigit 1 true))).

(** [(\d+(?:\.\d+)?)] *)
Definition number_group : regex := RGroup 1 decimal.

(** [(\d+(?:\.\d+)?)\s*\/\s*(\d+)] *)
Definition slash_pattern : regex :=
  cat [number_group; RRep CSpace 0 true; RLit "/"; RRep CSpace 0 true;
       RGroup 2 (RRep CDigit 1 true)].

(** [(\d+(?:\.\d+)?)\s+out of\s+(\d+)] *)
Definition out_of_pattern : regex :=
  cat [number_group; RRep CSpace 1 true; RLit "out of"; RRep CSpace 1 true;
       RGroup 2 (RRep CDigit 1 true)].

(** [\{\{[^}]+\}\}] *)
Definition placeholder_pattern : regex :=
  cat [RLit "{{"; RRep (CNoneOf "}") 1 true; RLit "}}"].

(** [re.sub(r'<[^>]+>', '', text).strip()] for [text = m.group(1)] *)
Definition inner_text (m : mobj) : result string :=
  g <- group_str 1 m ;;
  Ok (Str.strip (Re.sub no_flags tag_pattern EmptyString g)).

(** *** Extraction *)

Record heading : Type := Heading {
  level : string;
  text : string;
  position : nat
}.

(** [sorted(headings, key=lambda x: x['position'])]: a stable sort, each
    heading going before those already placed that do not come earlier *)
Fixpoint insert_by_position (h : heading) (hs : list heading) : list heading :=
  match hs with
  | [] => [h]
  | h' :: rest =>
      if Nat.leb (position h) (position h') then h :: hs
      else h' :: insert_by_position h rest
  end.

Definition sorted_by_position (hs : list heading) : list heading :=
  fold_right insert_by_position [] hs.

Definition extract_headings (html : string) : result (list heading) :=
  headings <-
    for_each ["h1"; "h2"; "h3"] [] (fun headings lvl =>
      let matches := finditer IGNORECASE_DOTALL (element_pattern lvl) html in
      for_each matches headings (fun headings m =>
        txt <- inner_text m ;;
        Ok (headings ++ [Heading lvl txt (m_start m)])%list)) ;;
  Ok (sorted_by_position headings).

Definition extract_paragraphs (html : string) : result (list string) :=
  let matches := finditer IGNORECASE_DOTALL (element_pattern "p") html in
  for_each matches [] (fun paragraphs m =>
    txt <- inner_text m ;;
    if negb (String.eqb txt EmptyString) && Nat.ltb 10 (length txt)
    then Ok (paragraphs ++ [txt])%list
    else Ok paragraphs).

Record table : Type := Table {
  rows : list (list string);
  columns : nat;
  tposition : nat
}.

Definition is_nil {A : Type} (l : list A) : bool :=
  match l with [] => true | _ :: _ => false end.

Definition extract_tables (html : string) : result (list table) :=
  let table_matches := finditer IGNORECASE_DOTALL (element_pattern "table") html in
  for_each table_matches [] (fun tables table_match =>
    table_html <- group_str 0 table_match ;;
    let row_matches := finditer IGNORECASE_DOTALL (element_pattern "tr") table_html in
    rows <- for_each row_matches [] (fun rows row_match =>
      row_html <- group_str 1 row_match ;;
      let cell_matches := finditer IGNORECASE cell_pattern row_html in
      cells <- for_each cell_matches [] (fun cells cell_match =>
        cell_text <- inner_text cell_match ;;
        Ok (cells ++ [cell_text])%list) ;;
      if is_nil cells then Ok rows else Ok (rows ++ [cells])%list) ;;
    if is_nil rows then Ok tables
    else Ok (tables ++
             [Table rows
                    (match rows with r0 :: _ => List.length r0 | [] => 0 end)
                    (m_start table_match)])%list).

(** one side of [extract_pros_cons] *)
Definition extract_list (label html : string) : result (list string) :=
  match search IGNORECASE (list_pattern label) html with
  | Some list_match =>
      block <- group_str 1 list_match ;;
      let li_matches := finditer IGNORECASE li_pattern block in
      for_each li_matches [] (fun items li_match =>
        txt <- inner_text li_match ;;
        Ok (items ++ [txt])%list)
  | None => Ok []
  end.

Definition extract_pros_cons (html : string)
    : result (list string * list string) :=
  pros <- extract_list "Pros" html ;;
  cons <- extract_list "Cons" html ;;
  Ok (pros, cons).

(** *** Classification *)

Fixpoint detect_platform_in (items : list (string * metadata))
    (html_lower : string) : result (option string) :=
  match items with
  | [] => Ok None
  | (platform_key, md) :: rest =>
      match md_name md with
      | None => Raise KeyError
      | Some name =>
          let platform_name := Str.lower name in
          if Str.contains platform_name html_lower
             || Str.contains platform_key html_lower
          then Ok (Some platform_key)
          else detect_platform_in rest html_lower
      end
  end.

Definition detect_platform (html : string) : result (option string) :=
  detect_platform_in (platform_metadata self) (Str.lower html).

Definition detect_page_type (html : string) (headings : list heading) : string :=
  let html_lower := Str.lower html in
  let heading_text := Str.join " " (map (fun h => Str.lower (text h)) headings) in
  if Str.contains "casino" html_lower && Str.contains "review" html_lower
  then "casino-review"
  else if Str.contains "sportsbook" html_lower
          || Str.contains "betting" html_lower && Str.contains "review" heading_text
  then "sportsbook-review"
  else if Str.contains "best" heading_text
          && (Str.contains "crypto" html_lower || Str.contains "comparison" html_lower)
  then "crypto-comparison"
  else "casino-review".

Record rating : Type := Rating {
  rating_num : float;
  rating_total : Z
}.

Definition rating_of_match (m : mobj) : result rating :=
  g1 <- group_str 1 m ;;
  num <- float_of_str g1 ;;
  g2 <- group_str 2 m ;;
  total <- int_of_str g2 ;;
  Ok (Rating num total).

Fixpoint first_rating (patterns : list regex) (html : string)
    : result (option rating) :=
  match patterns with
  | [] => Ok None
  | pattern :: rest =>
      match search no_flags pattern html with
      | Some m => r <- rating_of_match m ;; Ok (Some r)
      | None => first_rating rest html
      end
  end.

Definition extract_rating (html : string) : result (option rating) :=
  first_rating [slash_pattern; out_of_pattern] html.

(** [int(x)] of a finite float: its integer part, toward zero *)
Definition int_of_float (x : Q) : Z := Z.quot (Qnum x) (Zpos (Qden x)).

(** [for _ in range(n): acc += piece] *)
Fixpoint append_times (n : nat) (piece acc : string) : string :=
  match n with
  | O => acc
  | S m => append_times m piece (acc ++ piece)
  end.

Definition quoted (s : string) : string :=
  String (ascii_of_N 34) (s ++ String (ascii_of_N 34) EmptyString).

(** the two stars, U+2605 and U+2606, written as their three UTF-8 bytes *)
Definition black_star : string :=
  String (ascii_of_N 226) (String (ascii_of_N 152) (String (ascii_of_N 133) EmptyString)).

Definition white_star : string :=
  String (ascii_of_N 226) (String (ascii_of_N 152) (String (ascii_of_N 134) EmptyString)).

Definition filled_star : string :=
  "<span class=" ++ quoted "star" ++ " aria-hidden=" ++ quoted "true" ++ ">"
  ++ black_star ++ "</span>".

Definition empty_star : string :=
  "<span class=" ++ quoted "star empty" ++ " aria-hidden=" ++ quoted "true" ++ ">"
  ++ white_star ++ "</span>".

(** [rating_num] is a finite float, given by its value; [range] of a
    negative number is empty *)
Definition generate_stars (rating_num : Q) (rating_total : Z) : string :=
  let filled := int_of_float rating_num in
  let empty := (rating_total - filled)%Z in
  let stars_html := append_times (Z.to_nat filled) filled_star EmptyString in
  append_times (Z.to_nat empty) empty_star stars_html.

(** *** Fragments *)

Definition build_pros_cons_html (pros cons : list string) : string :=
  let template := load_component "pros-cons.html" in
  let pros_items :=
    Str.join (nl ++ spaces 12) (map (fun pro => "<li>" ++ pro ++ "</li>") pros) in
  let cons_items :=
    Str.join (nl ++ spaces 12) (map (fun con => "<li>" ++ con ++ "</li>") cons) in
  Str.replace "{{cons_items}}" cons_items
    (Str.replace "{{pros_items}}" pros_items template).

(** [is_highlighted] of [build_table_html] *)
Definition is_highlighted (cell : string) : bool :=
  Str.contains "<strong>" cell || Str.contains "free" (Str.lower cell).

Definition highlight_class (cell : string) : string :=
  if is_highlighted cell then " class=" ++ String (ascii_of_N 34) "highlight"
                              ++ String (ascii_of_N 34) EmptyString
  else EmptyString.

(** the text of one emitted row *)
Definition row_html (c0 c1 : string) : string :=
  spaces 12 ++ "<tr>" ++ nl ++
  spaces 16 ++ "<td>" ++ c0 ++ "</td>" ++ nl ++
  spaces 16 ++ "<td" ++ highlight_class c1 ++ ">" ++ c1 ++ "</td>" ++ nl ++
  spaces 12 ++ "</tr>".

(** the loop of [build_table_html] over [table_data['rows']] *)
Fixpoint table_rows_html (rws : list (list string)) (rows_html : list string)
    : list string :=
  match rws with
  | [] => rows_html
  | row :: rest =>
      match row with
      | c0 :: c1 :: _ => table_rows_html rest (rows_html ++ [row_html c0 c1])
      | _ => table_rows_html rest rows_html
      end
  end.

Definition build_table_html (table_data : table) : string :=
  let template := load_component "platform-table-2col.html" in
  let rows_html := table_rows_html (rows table_data) [] in
  let table_rows := Str.join nl rows_html in
  Str.replace "{{table_rows}}" table_rows
    (Str.replace "{{col2_header}}" "Details"
      (Str.replace "{{col1_header}}" "Attribute"
        (Str.replace "{{table_caption}}" "Quick Facts" template))).

(** the display name [build_cta_button] uses *)
Definition cta_platform_name (platform_key : string) : string :=
  match get platform_key (platform_metadata self) with
  | Some md =>
      match md_name md with
      | Some name => name
      | None => Str.title platform_key
      end
  | None => Str.title platform_key
  end.

(** the note of the button; its bullets, U+2022, lie outside the range of
    [ascii] and are written as their three UTF-8 bytes *)
Definition cta_note : string :=
  "18+ Only " ++ String (ascii_of_N 226) (String (ascii_of_N 128) (String (ascii_of_N 162) EmptyString))
  ++ " BeGambleAware.org "
  ++ String (ascii_of_N 226) (String (ascii_of_N 128) (String (ascii_of_N 162) EmptyString))
  ++ " T&Cs Apply".

Definition build_cta_button (platform_key : string) : string :=
  match get platform_key (affiliate_links self) with
  | None => EmptyString
  | Some url =>
      let template := load_component "cta-button.html" in
      let platform_name := cta_platform_name platform_key in
      Str.replace "{{cta_note}}" cta_note
        (Str.replace "{{aria_label}}"
           ("Visit " ++ platform_name ++ " website (opens in new window)")
          (Str.replace "{{cta_text}}" ("Visit " ++ platform_name)
            (Str.replace "{{cta_url}}" url template)))
  end.

(** *** Rendering *)

Fixpoint fill (data : list (string * value)) (result : string) : string :=
  match data with
  | [] => result
  | (key, v) :: rest =>
      let placeholder := "{{" ++ key ++ "}}" in
      fill rest (Str.replace placeholder (Py.str v) result)
  end.

Definition render_template (template_html : string)
    (data : list (string * value)) : string :=
  let result := fill data template_html in
  Re.sub no_flags placeholder_pattern EmptyString result.

(** *** The pipeline *)

(** the truth value of [platform_key] in [if platform_key] *)
Definition truthy_key (platform_key : option string) : option string :=
  match platform_key with
  | Some EmptyString => None
  | other => other
  end.

(** [platform_name] of [convert] *)
Definition convert_platform_name (platform_key : option string) : string :=
  let md :=
    match truthy_key platform_key with
    | Some k => get k (platform_metadata self)
    | None => None
    end in
  match md with
  | Some (Metadata (Some name)) => name
  | _ => "Platform"
  end.

Definition coming_soon : string := "<p>Coming soon...</p>".
Definition content_coming_soon : string := "<p>Content coming soon...</p>".

(** the placeholder map [convert] assembles; [year] is
    [datetime.now().year] *)
Definition template_data (year : Z) (html_content : string)
    : result (string * list (string * value)) :=
  headings <- extract_headings html_content ;;
  paragraphs <- extract_paragraphs html_content ;;
  tables <- extract_tables html_content ;;
  pros_cons <- extract_pros_cons html_content ;;
  let (pros, cons) := pros_cons : list string * list string in
  let page_type := detect_page_type html_content headings in
  platform_key <- detect_platform html_content ;;
  rating <- extract_rating html_content ;;
  let template := load_template (page_type ++ ".html") in
  let platform_name := convert_platform_name platform_key in
  let h1 := find (fun h => String.eqb (level h) "h1") headings in
  let title :=
    match h1 with
    | Some h => text h
    | None => platform_name ++ " Review"
    end in
  let pros_cons_html :=
    if is_nil pros && is_nil cons then coming_soon
    else build_pros_cons_html pros cons in
  let quick_facts_html :=
    match tables with
    | t0 :: _ => if Nat.eqb (columns t0) 2 then build_table_html t0 else coming_soon
    | [] => coming_soon
    end in
  let cta_button_html :=
    match truthy_key platform_key with
    | Some k => build_cta_button k
    | None => EmptyString
    end in
  Ok (template,
      [("title", VStr title);
       ("meta_description",
         VStr (match paragraphs with p0 :: _ => Str.take 155 p0 | [] => EmptyString end));
       ("year", VInt year);
       ("platform_name", VStr platform_name);
       ("intro_paragraph_1", VStr (nth 0 paragraphs EmptyString));
       ("intro_paragraph_2", VStr (nth 1 paragraphs EmptyString));
       ("pros_cons_grid", VStr pros_cons_html);
       ("quick_facts_table", VStr quick_facts_html);
       ("cta_button", VStr cta_button_html);
       ("disclaimer",
         VStr (match image_disclaimers self with
               | Some d =>
                   match get "gambling_warning" d with
                   | Some w => w
                   | None => EmptyString
                   end
               | None => EmptyString
               end));
       ("quick_verdict_section", VStr "<!-- Quick verdict coming soon -->");
       ("bonuses_content", VStr content_coming_soon);
       ("games_content", VStr content_coming_soon);
       ("payment_methods_content", VStr content_coming_soon);
       ("mobile_content", VStr content_coming_soon);
       ("customer_support_content", VStr content_coming_soon);
       ("security_content", VStr content_coming_soon)]).

(** [convert], from the text of the input file to the text written to the
    output file *)
Definition convert (year : Z) (html_content : string) : result string :=
  td <- template_data year html_content ;;
  Ok (render_template (fst td) (snd td)).

End Methods.

End HTMLConverter.

(** ** The request handler

    Of [api/convert.py]: what [convert_with_ai] returns from the text of
    the reply it has received, and [parse_multipart].  A [bytes] object is
    a [string], one character for each byte. *)

Module Handler.

Import Re.

(** *** Operations on [bytes] *)

Definition push (c : ascii) (pieces : list string) : list string :=
  match pieces with
  | p :: ps => String c p :: ps
  | [] => [String c EmptyString]
  end.

(** [s.split(sep)] for a non-empty [sep]: the pieces between the
    occurrences of [sep], taken leftmost first without overlap; [skip]
    counts the characters of the occurrence still to pass over. *)
Fixpoint split_from (sep s : string) (skip : nat) : list string :=
  match s with
  | EmptyString => [EmptyString]
  | String c r =>
      match skip with
      | S n => split_from sep r n
      | O =>
          if Str.starts_with sep s
          then EmptyString :: split_from sep r (pred (length sep))
          else push c (split_from sep r O)
      end
  end.

Definition split (sep s : string) : list string := split_from sep s O.

(** [s.split(sep, 1)] *)
Fixpoint split_once (sep s : string) : list string :=
  match s with
  | EmptyString => [EmptyString]
  | String c r =>
      if Str.starts_with sep s
      then [EmptyString; Str.drop (length sep) s]
      else push c (split_once sep r)
  end.

Fixpoint has_char (c : ascii) (cs : string) : bool :=
  match cs with
  | EmptyString => false
  | String d r => Ascii.eqb c d || has_char c r
  end.

Fixpoint lstrip_chars (cs s : string) : string :=
  match s with
  | String c r => if has_char c cs then lstrip_chars cs r else s
  | EmptyString => EmptyString
  end.

(** [s.rstrip(cs)] *)
Definition rstrip_chars (cs s : string) : string :=
  Str.rev (lstrip_chars cs (Str.rev s)).

Definition crlf : string :=
  String (ascii_of_N 13) (String (ascii_of_N 10) EmptyString).

Definition dquote : string := String (ascii_of_N 34) EmptyString.

(** the pattern of the field name: name= and then, between two double
    quotes, group 1 of one or more characters other than a double quote *)
Definition name_pattern : regex :=
  cat [RLit ("name=" ++ dquote); RGroup 1 (RRep (CNoneOf dquote) 1 true);
       RLit dquote].

(** *** The form *)

Section Multipart.

(** The text a [bytes] object decodes to, and the two decoders of the
    source: [b.decode('utf-8')], which raises on bytes that are not UTF-8,
    and [b.decode('utf-8', errors='ignore')], which does not.  They are
    left open: what is shown of [parse_multipart] holds whatever they
    return. *)
Variable text : Type.
Variable text_eqb : text -> text -> bool.
Variable decode : string -> result text.
Variable decode_ignore : string -> text.

(** [form_data[k] = v] on a dict kept in insertion order *)
Fixpoint set_item (k v : text) (d : list (text * text)) : list (text * text) :=
  match d with
  | [] => [(k, v)]
  | (k', v') :: rest =>
      if text_eqb k k' then (k', v) :: rest else (k', v') :: set_item k v rest
  end.

(** the body of the loop of [parse_multipart], for one part *)
Definition parse_part (form_data : list (text * text)) (part : string)
    : result (list (text * text)) :=
  if String.eqb part EmptyString || String.eqb part ("--" ++ crlf)
     || String.eqb part "--"
  then Ok form_data
  else if Str.contains (crlf ++ crlf) part then
    match split_once (crlf ++ crlf) part with
    | [headers; content] =>
        match search no_flags name_pattern headers with
        | None => Ok form_data
        | Some name_match =>
            g <- group_str 1 name_match ;;
            field_name <- decode g ;;
            let content := rstrip_chars crlf content in
            if Str.contains "filename=" headers then
              match decode content with
              | Ok v => Ok (set_item field_name v form_data)
              | Raise _ =>
                  Ok (set_item field_name (decode_ignore content) form_data)
              end
            else
              v <- decode content ;;
              Ok (set_item field_name v form_data)
        end
    | _ => Raise ValueError
    end
  else Ok form_data.

(** [boundary] is given as [bytes] *)
Definition parse_multipart (body boundary : string)
    : result (list (text * text)) :=
  let parts := split ("--" ++ boundary) body in
  for_each parts [] parse_part.

End Multipart.

(** the boundary [do_POST] reads from the Content-Type header of the
    request, an absent header counting as the empty text; [None] where it
    answers with status 400 for the lack of a boundary *)
Definition request_boundary (content_type : option string) : option string :=
  let header := match content_type with Some h => h | None => EmptyString end in
  let boundary := last (split "boundary=" header) EmptyString in
  if String.eqb boundary EmptyString then None else Some boundary.

(** [<!DOCTYPE html>.*</html>] *)
Definition document_pattern : regex :=
  cat [RLit "<!DOCTYPE html>"; RRep CDot 0 true; RLit "</html>"].

(** the last lines of [convert_with_ai]: the document found in the reply,
    or the whole reply *)
Definition html_of_response (response_text : string) : string :=
  match search IGNORECASE_DOTALL document_pattern response_text with
  | Some html_match => m_text html_match
  | None => response_text
  end.

End Handler.

(** ** The vocabulary of the properties *)

Module Vocabulary.

Import Str Re HTMLConverter Handler.

(** What the matcher has recorded so far in the groups of [G] are words of
    those groups. *)
Definition caps_inv (fl : flags) (G : list (nat * regex)) (cs : captures)
    : Prop :=
  forall n w, group_of n cs = Some w ->
  exists r', In (n, r') G /\ lang fl r' w.

(** [m] is a match of [r] found in some text *)
Definition match_of (fl : flags) (r : regex) (m : mobj) : Prop :=
  exists pos suf res, match_here fl r suf = Some res /\ m = mk_match pos res.

(** what [extract_tables] keeps: no empty row, no empty table, and the
    column count of the first row *)
Definition table_ok (t : table) : Prop :=
  Forall (fun row => row <> []) (rows t) /\
  exists row0 others, rows t = row0 :: others /\ columns t = List.length row0.

(** group 1 of a match in which it took part *)
Definition group1 (m : mobj) : string :=
  match group 1 m with Some w => w | None => "" end.

(** the text of a cell: tags removed, trimmed *)
Definition text_of (m : mobj) : string :=
  strip (Re.sub no_flags tag_pattern "" (group1 m)).

(** the cells found in a row *)
Definition cells_of (row_match : mobj) : list string :=
  List.map text_of (finditer IGNORECASE cell_pattern (group1 row_match)).

(** the rows of a table that have a cell *)
Definition rows_of (table_match : mobj) : list (list string) :=
  filter (fun cells => negb (is_nil cells))
    (List.map cells_of
       (finditer IGNORECASE_DOTALL (element_pattern "tr") (m_text table_match))).

(** the table a <table> block gives, if it has a row *)
Definition table_of (table_match : mobj) : list table :=
  match rows_of table_match with
  | [] => []
  | row0 :: _ =>
      [Table (rows_of table_match) (List.length row0) (m_start table_match)]
  end.

Definition non_digit (c : ascii) : bool := negb (Char.is_digit c).

Definition rating_pattern (r : regex) : Prop :=
  r = slash_pattern \/ r = out_of_pattern.

(** every entry of the platform metadata carries a display name *)
Definition all_named (items : list (string * metadata)) : Prop :=
  Forall (fun item => md_name (snd item) <> None) items.

(** the entry mentions neither its lower-cased name nor its key in the
    lower-cased document *)
Definition unmentioned (html_lower : string) (item : string * metadata) : Prop :=
  exists name, md_name (snd item) = Some name /\
               ~ Occurs (lower name) html_lower /\
               ~ Occurs (fst item) html_lower.

(** a configuration whose key is written with an upper-case letter *)
Definition stake : converter :=
  Converter [] [("Stake", Metadata (Some "Stake Casino"))] None [] [].

(** what the loop of [build_table_html] appends for one row *)
Definition emitted (row : list string) : list string :=
  match row with
  | c0 :: c1 :: _ => [row_html c0 c1]
  | _ => []
  end.

(** the configuration and the document of the end-to-end example *)
Definition foo : converter :=
  Converter
    [("foo", "https://x")]
    [("foo", Metadata (Some "Foo Casino"))]
    None
    [("casino-review.html",
      "<h1>{{title}}</h1>{{pros_cons_grid}}{{quick_facts_table}}{{cta_button}}")]
    [("pros-cons.html", "<ul>{{pros_items}}</ul><ul>{{cons_items}}</ul>");
     ("platform-table-2col.html", "<table>{{table_rows}}</table>");
     ("cta-button.html", "<a href={{cta_url}}>{{cta_text}}</a>")].

Definition foo_html : string :=
  "<h1>Foo Casino Review</h1>" ++
  "<p><strong>Pros:</strong></p><ul><li>Fast</li><li>Safe</li></ul>" ++
  "<p><strong>Cons:</strong></p><ul><li>Slow</li></ul>" ++
  "<table><tr><td>Bonus</td><td>100% Free</td></tr></table>".


(** a configuration whose platform has no display name *)
Definition unnamed : converter :=
  Converter [("foo", "https://x")] [("foo", Metadata None)] None
            [("casino-review.html", "{{platform_name}}")]
            [("cta-button.html", "<a href={{cta_url}}>{{cta_text}}</a>")].

(** the text between the braces of a placeholder: no closing brace *)
Definition inner (y : string) : bool := all_class no_flags (CNoneOf "}") y.

(** [s] begins with a placeholder token *)
Definition token_at (s : string) : Prop :=
  exists y rest, y <> "" /\ inner y = true /\ s = "{{" ++ y ++ "}}" ++ rest.

Definition strip_tokens (s : string) : string :=
  sub_from no_flags placeholder_pattern "" s 0.

Definition no_token_at (s : string) : Prop :=
  match_here no_flags placeholder_pattern s = None.

(** no placeholder token begins anywhere in [t] *)
Definition token_free (t : string) : Prop :=
  forall pre suf, t = pre ++ suf -> no_token_at suf.

(** the number of places of [hay] where [needle] begins *)
Fixpoint count (needle hay : string) : nat :=
  (if starts_with needle hay then 1 else 0) +
  match hay with
  | "" => 0
  | String _ r => count needle r
  end.

(** the heading a match of level [lvl] gives *)
Definition heading_of (lvl : string) (m : mobj) : heading :=
  Heading lvl (text_of m) (m_start m).

Definition has_level (lvl : string) (h : heading) : bool :=
  String.eqb (level h) lvl.

Definition by_position (a b : heading) : Prop := position a <= position b.

(** the headings of one level, as the document has them *)
Definition headings_of (lvl html : string) : list heading :=
  List.map (heading_of lvl)
    (finditer IGNORECASE_DOTALL (element_pattern lvl) html).

(** more than ten characters *)
Definition meaningful (t : string) : bool := Nat.ltb 10 (length t).

(** no white space at either end *)
Definition trimmed (t : string) : Prop :=
  head_is Char.is_space t = false /\ head_is Char.is_space (rev t) = false.

(** no tag is left in [t] *)
Definition tag_free (t : string) : Prop :=
  search no_flags tag_pattern t = None.

Definition not_brace (c : ascii) : bool := negb (Ascii.eqb c "{").

(** no opening brace in [t] *)
Definition brace_free (t : string) : Prop := Str.all not_brace t = true.

(** the text between the brackets of a tag: no closing bracket *)
Definition tag_body (y : string) : bool := all_class no_flags (CNoneOf ">") y.

(** [s] begins with a tag *)
Definition tag_at (s : string) : Prop :=
  exists y rest, y <> "" /\ tag_body y = true /\ s = "<" ++ y ++ ">" ++ rest.

(** no tag begins anywhere in [t] *)
Definition no_tag (t : string) : Prop :=
  forall pre suf, t = pre ++ suf -> ~ tag_at suf.

(** a text as the extraction returns it *)
Definition clean (t : string) : Prop := tag_free t /\ trimmed t.

(** a row [build_table_html] emits: at least two cells *)
Definition wide (row : list string) : bool := Nat.leb 2 (List.length row).

(** the rest of the document pattern, after the declaration [d] *)
Definition closing (d : string) (w s' : string) : option (string * captures) :=
  match lit IGNORECASE_DOTALL "</html>" s' with
  | Some (w3, _) => Some (d ++ w ++ w3, [])
  | None => None
  end.

(** the text [s] holds at offset [n] begins, in any letter case, with [p] *)
Definition opens_at (p s : string) (n : nat) : Prop :=
  exists pre tag rest,
    s = pre ++ tag ++ rest /\ length pre = n /\ Str.lower tag = p.

(** a field of a form as it is sent: its name, what follows the name on
    the header lines, and its content *)
Record field : Type := Field {
  f_name : string;
  f_more : string;
  f_content : string
}.

(** the header lines of a field *)
Definition header_of (f : field) : string :=
  "Content-Disposition: form-data; name=" ++ dquote ++ f_name f ++ dquote
  ++ f_more f.

(** what stands between two boundaries for a field: the end of the boundary
    line, the header lines, an empty line, the content and an end of line *)
Definition part_of (f : field) : string :=
  crlf ++ header_of f ++ crlf ++ crlf ++ f_content f ++ crlf.

(** the body of a request: each part after a boundary, then the closing
    boundary *)
Fixpoint body_of (boundary : string) (parts : list string) : string :=
  match parts with
  | [] => "--" ++ boundary ++ "--" ++ crlf
  | p :: rest => "--" ++ boundary ++ p ++ body_of boundary rest
  end.

(** [sep] without its last character *)
Definition but_last (sep : string) : string := take (pred (length sep)) sep.

(** [sep] begins nowhere in [p], even when [sep] follows [p] *)
Definition apart (sep p : string) : Prop := ~ Occurs sep (p ++ but_last sep).

(** a field that can be sent between boundaries [sep]: its name is not
    empty and has no double quote, its header lines hold no empty line, and
    [sep] begins nowhere in its part *)
Definition well_formed (sep : string) (f : field) : Prop :=
  f_name f <> "" /\
  all_class no_flags (CNoneOf dquote) (f_name f) = true /\
  apart (crlf ++ crlf) (crlf ++ header_of f) /\
  apart sep (part_of f).

(** the dict after the assignments [kvs], made in order *)
Definition assigned {text : Type} (text_eqb : text -> text -> bool)
    (kvs : list (text * text)) (d : list (text * text)) : list (text * text) :=
  fold_left (fun d kv => set_item text text_eqb (fst kv) (snd kv) d) kvs d.

(** a decoder that accepts the bytes below 128 only *)
Definition ascii_only (b : string) : result string :=
  if Str.all (fun c => (Char.code c <? 128)%N) b then Ok b else Raise ValueError.

(** a run of [n] nines *)
Fixpoint nines (n : nat) : string :=
  match n with
  | O => ""
  | S m => String "9" (nines m)
  end.

(** no run of digits of [html] is longer than [int()] converts *)
Definition short_digits (html : string) : Prop :=
  forall w, Occurs w html -> all_digits w = true -> length w <= max_str_digits.

(** a match of [r] begins within [pre], in the text [pre ++ suf] *)
Fixpoint begins_in (fl : flags) (r : regex) (pre suf : string) : bool :=
  match pre with
  | "" => false
  | String _ p =>
      match match_here fl r (pre ++ suf) with
      | Some _ => true
      | None => begins_in fl r p suf
      end
  end.

(** What [extract_rating] makes of a match [m] of one of its patterns:
    group 1 is a decimal numeral and group 2 a run of digits; the outcome
    is the rating of the double nearest to the first and of the value of
    the second, and ValueError when the second has more digits than
    [int()] converts. *)
Definition decided_by (m : mobj) (outcome : result (option rating)) : Prop :=
  exists num total,
    group 1 m = Some num /\ group 2 m = Some total /\
    lang no_flags decimal num /\
    all_digits total = true /\ 1 <= length total /\
    (length total <= max_str_digits ->
     exists x,
       float_of_str num = Ok x /\
       outcome = Ok (Some (Rating x (Z.of_N (digits_value total 0))))) /\
    (max_str_digits < length total -> outcome = Raise ValueError).




(** an entry of a list as it is written: the text before it, the opening
    tag, the text of the entry and the closing tag *)
Record entry : Type := Entry {
  e_before : string;
  e_open : string;
  e_body : string;
  e_close : string
}.

Definition entry_text (e : entry) : string :=
  e_before e ++ e_open e ++ e_body e ++ e_close e.

(** the entries one after the other, and the text after the last *)
Fixpoint listing (es : list entry) (rest : string) : string :=
  match es with
  | [] => rest
  | e :: more => entry_text e ++ listing more rest
  end.

Definition one_line (s : string) : Prop :=
  Str.all (fun c => negb (Ascii.eqb c Char.newline)) s = true.

(** the entry is opened by <li> and closed by </li>, written so in any
    letter case; no <li> is in the text before it, and its own text is on
    one line and holds no </li> *)
Definition is_entry (e : entry) : Prop :=
  ~ Occurs "<li>" (lower (e_before e)) /\
  lower (e_open e) = "<li>" /\ lower (e_close e) = "</li>" /\
  one_line (e_body e) /\ ~ Occurs "</li>" (lower (e_body e)).

(** the text of the entry, its tags removed, trimmed *)
Definition item_of (e : entry) : string :=
  strip (Re.sub Re.no_flags tag_pattern "" (e_body e)).

(** the label of a list as [extract_pros_cons] looks for it: in <strong>,
    with or without a colon, in any letter case *)
Definition is_label (label lab : string) : Prop :=
  lower lab = lower ("<strong>" ++ label ++ "</strong>") \/
  lower lab = lower ("<strong>" ++ label ++ ":</strong>").

End Vocabulary.

(** * Properties *)

(** ** Strings *)

Module StrFacts.

Import Str.

Lemma app_assoc (a b c : string) : (a ++ b) ++ c = a ++ (b ++ c).
Proof. induction a as [|x a IH]; simpl; [reflexivity | now rewrite IH]. Qed.

Lemma app_nil_r (a : string) : a ++ "" = a.
Proof. induction a as [|x a IH]; simpl; [reflexivity | now rewrite IH]. Qed.

Lemma length_app (a b : string) : length (a ++ b) = length a + length b.
Proof. induction a as [|x a IH]; simpl; [reflexivity | now rewrite IH]. Qed.

Lemma take_app (a b : string) : take (length a) (a ++ b) = a.
Proof. induction a as [|x a IH]; simpl; [now destruct b | now rewrite IH]. Qed.

Lemma drop_app (a b : string) : drop (length a) (a ++ b) = b.
Proof. induction a as [|x a IH]; simpl; [reflexivity | exact IH]. Qed.

Lemma take_drop (n : nat) (s : string) : take n s ++ drop n s = s.
Proof.
  revert s; induction n as [|n IH]; intros [|c s]; simpl; try reflexivity.
  now rewrite IH.
Qed.

Lemma length_drop (n : nat) (s : string) : length (drop n s) = length s - n.
Proof.
  revert s; induction n as [|n IH]; intros [|c s]; simpl; auto with arith.
Qed.

Lemma drop_drop (n m : nat) (s : string) : drop n (drop m s) = drop (m + n) s.
Proof.
  revert s; induction m as [|m IH]; intros s; simpl; [reflexivity|].
  destruct s as [|c s]; simpl; [now destruct n | apply IH].
Qed.

Lemma drop_nil (n : nat) : drop n "" = "".
Proof. now destruct n. Qed.

Lemma after_prefix_spec (p s r : string) :
  after_prefix p s = Some r <-> s = p ++ r.
Proof.
  revert s; induction p as [|a p IH]; intros s; simpl.
  - split; [now intros [= ->] | now intros ->].
  - destruct s as [|b s]; [split; discriminate|].
    destruct (Ascii.eqb_spec a b) as [->|Hne].
    + rewrite IH; split; [now intros -> | now intros [= ->]].
    + split; [discriminate | intros [= E _]; congruence].
Qed.

Lemma starts_with_spec (p s : string) :
  starts_with p s = true <-> exists r, s = p ++ r.
Proof.
  unfold starts_with; destruct (after_prefix p s) as [r|] eqn:E.
  - apply after_prefix_spec in E; split; eauto.
  - split; [discriminate | intros [r Hr]].
    apply after_prefix_spec in Hr; congruence.
Qed.

Lemma starts_with_app (p r : string) : starts_with p (p ++ r) = true.
Proof. apply starts_with_spec; eauto. Qed.

Lemma Occurs_here (n post : string) : Occurs n (n ++ post).
Proof. now exists "", post. Qed.

Lemma Occurs_cons (n h : string) (c : ascii) : Occurs n h -> Occurs n (String c h).
Proof. intros (pre & post & ->); now exists (String c pre), post. Qed.

Lemma Occurs_app_l (n a h : string) : Occurs n h -> Occurs n (a ++ h).
Proof.
  intros H; induction a as [|c a IH]; simpl; [exact H | now apply Occurs_cons].
Qed.

Lemma Occurs_app_r (n h b : string) : Occurs n h -> Occurs n (h ++ b).
Proof.
  intros (pre & post & ->); exists pre, (post ++ b).
  now rewrite !app_assoc.
Qed.

Lemma Occurs_trans (a b c : string) : Occurs a b -> Occurs b c -> Occurs a c.
Proof.
  intros Hab (pre & post & ->); now apply Occurs_app_l, Occurs_app_r.
Qed.

(** [needle in hay] decides [Occurs]. *)
Lemma contains_spec (n h : string) : contains n h = true <-> Occurs n h.
Proof.
  induction h as [|c h IH]; simpl.
  - rewrite orb_false_r, starts_with_spec; split.
    + intros [r ->]; apply Occurs_here.
    + intros (pre & post & E); destruct pre; simpl in E; [eauto | discriminate].
  - rewrite orb_true_iff, starts_with_spec, IH; split.
    + intros [[r ->] | H]; [apply Occurs_here | now apply Occurs_cons].
    + intros (pre & post & E); destruct pre as [|d pre]; simpl in E.
      * left; eauto.
      * right; injection E as _ ->; now exists pre, post.
Qed.

Lemma contains_false (n h : string) : contains n h = false <-> ~ Occurs n h.
Proof.
  rewrite <- contains_spec; destruct (contains n h); split; congruence.
Qed.

Lemma map_app (f : ascii -> ascii) (a b : string) :
  map f (a ++ b) = map f a ++ map f b.
Proof. induction a as [|x a IH]; simpl; [reflexivity | now rewrite IH]. Qed.

Lemma lower_app (a b : string) : lower (a ++ b) = lower a ++ lower b.
Proof. apply map_app. Qed.

(** A substring of the document survives lower-casing, lower-cased. *)
Lemma Occurs_lower (u h : string) : Occurs u h -> Occurs (lower u) (lower h).
Proof.
  intros (pre & post & ->); exists (lower pre), (lower post).
  now rewrite !lower_app.
Qed.

End StrFacts.

(** ** Classification *)

Module Classifier.

Import Str StrFacts HTMLConverter.

(** Replaces every test [needle in hay] of the goal by the two cases of
    [Occurs needle hay]. *)
Ltac case_contains :=
  repeat match goal with
  | |- context [contains ?n ?h] =>
      let E := fresh "E" in
      destruct (contains n h) eqn:E;
      [apply contains_spec in E | apply contains_false in E]
  end.

(** C3: the page type is decided by the cascade (a) casino and review in
    the lower-cased document, (b) sportsbook in the document, or betting in
    the document and review in the lower-cased heading text, (c) best in
    the heading text and crypto or comparison in the document, (d)
    casino-review otherwise, the first rule that applies winning; a
    document with casino and review, in any letter case, is a
    casino-review whatever else it contains. *)
Theorem detect_page_type_cascade (html : string) (headings : list heading) :
  let doc := lower html in
  let heads := join " " (List.map (fun h => lower (text h)) headings) in
  let a := Occurs "casino" doc /\ Occurs "review" doc in
  let b := Occurs "sportsbook" doc \/
           (Occurs "betting" doc /\ Occurs "review" heads) in
  let c := Occurs "best" heads /\
           (Occurs "crypto" doc \/ Occurs "comparison" doc) in
  (a -> detect_page_type html headings = "casino-review") /\
  (~ a -> b -> detect_page_type html headings = "sportsbook-review") /\
  (~ a -> ~ b -> c -> detect_page_type html headings = "crypto-comparison") /\
  (~ a -> ~ b -> ~ c -> detect_page_type html headings = "casino-review") /\
  (forall u v : string,
     lower u = "casino" -> lower v = "review" ->
     Occurs u html -> Occurs v html ->
     detect_page_type html headings = "casino-review").
Proof.
  intros doc heads a b c.
  assert (Ha : a -> detect_page_type html headings = "casino-review").
  { intros [H1 H2]; unfold detect_page_type.
    apply contains_spec in H1, H2; fold doc; now rewrite H1, H2. }
  repeat split; try exact Ha.
  - intros Hna Hb; unfold detect_page_type; fold doc heads.
    subst a b; case_contains; simpl; tauto.
  - intros Hna Hnb Hc; unfold detect_page_type; fold doc heads.
    subst a b c; case_contains; simpl; tauto.
  - intros Hna Hnb Hnc; unfold detect_page_type; fold doc heads.
    subst a b c; case_contains; simpl; tauto.
  - intros u v Hu Hv Ou Ov; apply Ha; split.
    + rewrite <- Hu; now apply Occurs_lower.
    + rewrite <- Hv; now apply Occurs_lower.
Qed.

Lemma detect_page_type_cascade_witness :
  detect_page_type "Best Sportsbook, CASINO Review and crypto betting" []
  = "casino-review".
Proof.
  apply (detect_page_type_cascade
           "Best Sportsbook, CASINO Review and crypto betting" [])
    with (u := "CASINO") (v := "Review").
  - reflexivity.
  - reflexivity.
  - exists "Best Sportsbook, ", " Review and crypto betting"; reflexivity.
  - exists "Best Sportsbook, CASINO ", " and crypto betting"; reflexivity.
Defined.

End Classifier.

(** ** The matcher *)

Module ReFacts.

Import Re StrFacts Vocabulary.

Section Sound.

Variable fl : flags.

Lemma lit_sound (p s w s' : string) :
  lit fl p s = Some (w, s') ->
  s = w ++ s' /\ lit fl p w = Some (w, "") /\ length w = length p.
Proof.
  revert s w; induction p as [|a p IH]; intros s w; simpl.
  - intros [= <- <-]; auto.
  - destruct s as [|b s]; [discriminate|].
    destruct (char_eq fl a b) eqn:E; [|discriminate].
    destruct (lit fl p s) as [[v r]|] eqn:L; [|discriminate].
    intros [= <- <-]; apply IH in L as (-> & Hv & Hl).
    simpl; rewrite E, Hv; auto.
Qed.

Lemma caps_inv_nil (G : list (nat * regex)) : caps_inv fl G [].
Proof. intros n w; discriminate. Qed.

Context {A : Type}.

Lemma rep_greedy_sound (k : cclass) (s : string) :
  forall least (cont : string -> string -> option A) x,
  rep_greedy fl k least s cont = Some x ->
  exists w s', s = w ++ s' /\ all_class fl k w = true /\
               least <= length w /\ cont w s' = Some x.
Proof.
  induction s as [|c s IH]; intros least cont x; simpl.
  - destruct least; [|discriminate].
    intros H; exists "", ""; auto.
  - assert (Stop : match least with O => cont "" (String c s) | S _ => None end
                   = Some x ->
                   exists w s', String c s = w ++ s' /\ all_class fl k w = true /\
                                least <= length w /\ cont w s' = Some x).
    { destruct least; [|discriminate].
      intros H; exists "", (String c s); auto. }
    destruct (class_match fl k c) eqn:E; [|exact Stop].
    destruct (rep_greedy fl k (pred least) s _) as [y|] eqn:R; [|exact Stop].
    intros [= ->]; apply IH in R as (w & s' & -> & Hw & Hl & Hc).
    exists (String c w), s'; simpl; rewrite E.
    split; [reflexivity|]; split; [exact Hw|]; split; [lia | exact Hc].
Qed.

Lemma rep_lazy_sound (k : cclass) (s : string) :
  forall least (cont : string -> string -> option A) x,
  rep_lazy fl k least s cont = Some x ->
  exists w s', s = w ++ s' /\ all_class fl k w = true /\
               least <= length w /\ cont w s' = Some x.
Proof.
  induction s as [|c s IH]; intros least cont x; simpl.
  - destruct least; [|discriminate].
    destruct (cont "" "") eqn:C; [|discriminate].
    intros [= ->]; exists "", ""; auto.
  - assert (More : forall n,
              (if class_match fl k c
               then rep_lazy fl k n s (fun w s' => cont (String c w) s')
               else None) = Some x ->
              pred least <= n ->
              exists w s', String c s = w ++ s' /\ all_class fl k w = true /\
                           least <= length w /\ cont w s' = Some x).
    { intros n H Hn; destruct (class_match fl k c) eqn:E; [|discriminate].
      apply IH in H as (w & s' & -> & Hw & Hl & Hc).
      exists (String c w), s'; simpl; rewrite E.
      split; [reflexivity|]; split; [exact Hw|]; split; [lia | exact Hc]. }
    destruct least as [|n].
    + destruct (cont "" (String c s)) as [y|] eqn:C.
      * intros [= ->]; exists "", (String c s); auto.
      * intros H; apply (More 0); auto.
    + intros H; apply (More n); auto.
Qed.

(** A successful run matched a word of the pattern at the head of the
    text, and filled the groups with words of their bodies. *)
Lemma run_sound (r : regex) :
  forall s cs (cont : string -> string -> captures -> option A) x,
  run fl r s cs cont = Some x ->
  exists w s' cs',
    s = w ++ s' /\ lang fl r w /\ cont w s' cs' = Some x /\
    (forall G, incl (groups r) G -> caps_inv fl G cs -> caps_inv fl G cs') /\
    (forall n, group_of n cs <> None \/ sets_group n r = true ->
               group_of n cs' <> None).
Proof.
  induction r as [p|k|k least g|r1 IH1|n r1 IH1|r1 IH1 r2 IH2];
    intros s cs cont x; simpl.
  - destruct (lit fl p s) as [[w s']|] eqn:L; [|discriminate].
    intros H; apply lit_sound in L as (-> & Hw & _).
    exists w, s', cs; repeat split; auto.
    intros m [Hm|Hm]; [exact Hm | discriminate].
  - destruct s as [|c s]; [discriminate|].
    destruct (class_match fl k c) eqn:E; [|discriminate].
    intros H; exists (String c ""), s, cs; repeat split; eauto.
    intros m [Hm|Hm]; [exact Hm | discriminate].
  - intros H.
    assert (exists w s', s = w ++ s' /\ all_class fl k w = true /\
                         least <= length w /\ cont w s' cs = Some x)
      as (w & s' & -> & Hw & Hl & Hc).
    { destruct g; [apply rep_greedy_sound in H | apply rep_lazy_sound in H];
        exact H. }
    exists w, s', cs; repeat split; auto.
    intros m [Hm|Hm]; [exact Hm | discriminate].
  - destruct (run fl r1 s cs cont) as [y|] eqn:R.
    + intros [= ->]; apply IH1 in R as (w & s' & cs' & -> & Hw & Hc & Hi & Hg).
      exists w, s', cs'; repeat split; auto.
      intros m [Hm|Hm]; [apply Hg; now left | discriminate].
    + intros H; exists "", s, cs; repeat split; auto.
      intros m [Hm|Hm]; [exact Hm | discriminate].
  - intros H; apply IH1 in H as (w & s' & cs' & -> & Hw & Hc & Hi & Hg).
    exists w, s', ((n, w) :: cs').
    split; [reflexivity|]; split; [exact Hw|]; split; [exact Hc|]; split.
    + intros G HG Hcs m v; simpl.
      destruct (Nat.eqb_spec m n) as [->|Hne].
      * intros [= <-]; exists r1; split; [apply HG; now left | exact Hw].
      * apply Hi; [|exact Hcs].
        intros e He; apply HG; now right.
    + intros m Hm; simpl.
      destruct (Nat.eqb m n) eqn:Hmn; [discriminate|].
      apply Hg; destruct Hm as [Hm|Hm]; [now left | right].
      exact Hm.
  - intros H; apply IH1 in H as (w1 & s1 & cs1 & -> & Hw1 & Hc1 & Hi1 & Hg1).
    apply IH2 in Hc1 as (w2 & s2 & cs2 & -> & Hw2 & Hc2 & Hi2 & Hg2).
    exists (w1 ++ w2), s2, cs2; rewrite app_assoc.
    split; [reflexivity|]; split; [simpl; eauto|]; split; [exact Hc2|]; split.
    + intros G HG Hcs; apply Hi2; [|apply Hi1; [|exact Hcs]];
        intros e He; apply HG, in_or_app; auto.
    + intros m Hm; apply Hg2.
      destruct Hm as [Hm|Hm]; [left; apply Hg1; now left|].
      apply orb_true_iff in Hm as [Hm|Hm]; [left; apply Hg1; now right | now right].
Qed.

End Sound.

(** A match found at the head of a text: the word matched and the
    groups. *)
Lemma match_here_sound (fl : flags) (r : regex) (s w : string)
    (cs : captures) :
  match_here fl r s = Some (w, cs) ->
  (exists s', s = w ++ s') /\ lang fl r w /\
  caps_inv fl (groups r) cs /\
  (forall n, sets_group n r = true -> group_of n cs <> None).
Proof.
  unfold match_here; intros H.
  apply run_sound in H as (w0 & s' & cs' & -> & Hw & Hc & Hi & Hg).
  injection Hc as <- <-.
  split; [eauto|]; split; [exact Hw|]; split; [|auto].
  apply Hi; [apply incl_refl | apply caps_inv_nil].
Qed.

(** What [re.search] returns is a match at the head of a suffix of the
    text, at the offset of that suffix. *)
Lemma search_from_spec (fl : flags) (r : regex) (s : string) :
  forall pos m, search_from fl r s pos = Some m ->
  exists pre suf res,
    s = pre ++ suf /\ match_here fl r suf = Some res /\
    m = mk_match (pos + length pre) res.
Proof.
  induction s as [|c s IH]; intros pos m; simpl;
    destruct (match_here fl r _) as [res|] eqn:E; try discriminate.
  - intros [= <-]; exists "", "", res; now rewrite Nat.add_0_r.
  - intros [= <-]; exists "", (String c s), res; now rewrite Nat.add_0_r.
  - intros H; apply IH in H as (pre & suf & res & -> & Hm & ->).
    exists (String c pre), suf, res; simpl.
    now rewrite Nat.add_succ_r.
Qed.

Lemma search_from_sound (fl : flags) (r : regex) (s : string) :
  forall pos m, search_from fl r s pos = Some m -> match_of fl r m.
Proof.
  intros pos m H; apply search_from_spec in H as (pre & suf & res & _ & Hm & ->).
  now exists (pos + length pre), suf, res.
Qed.

(** A stretch of text none of whose characters can begin a match is
    passed over by [re.search]. *)
Lemma search_from_skip (fl : flags) (r : regex) (f : ascii -> bool)
    (pre t : string) :
  (forall c x, f c = true -> match_here fl r (String c x) = None) ->
  Str.all f pre = true ->
  forall pos,
  search_from fl r (pre ++ t) pos = search_from fl r t (pos + length pre).
Proof.
  intros Hf; induction pre as [|c pre IH]; simpl; intros H pos.
  - now rewrite Nat.add_0_r.
  - apply andb_true_iff in H as [Hc Hpre].
    now rewrite (Hf c _ Hc), IH, Nat.add_succ_r.
Qed.

Lemma finditer_from_sound (fl : flags) (r : regex) (s : string) :
  forall pos skip, Forall (match_of fl r) (finditer_from fl r s pos skip).
Proof.
  induction s as [|c s IH]; intros pos skip; simpl.
  - destruct skip; [|constructor].
    destruct (match_here fl r "") as [res|] eqn:E; constructor; [|constructor].
    now exists pos, "", res.
  - destruct skip; [|apply IH].
    destruct (match_here fl r (String c s)) as [res|] eqn:E; [|apply IH].
    constructor; [|apply IH].
    now exists pos, (String c s), res.
Qed.

(** Where [re.search] finds nothing, [re.finditer] yields nothing. *)
Lemma search_none_finditer (fl : flags) (r : regex) (s : string) :
  forall pos, search_from fl r s pos = None ->
  forall skip, finditer_from fl r s pos skip = [].
Proof.
  induction s as [|c s IH]; intros pos; simpl;
    destruct (match_here fl r _) as [res|] eqn:E; try discriminate.
  - intros _ [|n]; reflexivity.
  - intros H [|n]; now apply IH.
Qed.

(** Where [re.search] finds nothing, [re.sub] changes nothing. *)
Lemma search_none_sub (fl : flags) (r : regex) (repl s : string) :
  forall pos, search_from fl r s pos = None -> sub_from fl r repl s 0 = s.
Proof.
  induction s as [|c s IH]; intros pos; simpl;
    destruct (match_here fl r _) as [res|] eqn:E; try discriminate.
  - reflexivity.
  - intros H; f_equal; now apply (IH (S pos)).
Qed.

(** A group that takes part in every match of [r] is filled in each match
    found, with a word of its body. *)
Lemma match_of_group (fl : flags) (r : regex) (m : mobj) (n : nat) :
  match_of fl r m -> sets_group (S n) r = true ->
  exists w r', group (S n) m = Some w /\ In (S n, r') (groups r) /\ lang fl r' w.
Proof.
  intros (pos & suf & [w0 cs] & Hm & ->) Hn.
  apply match_here_sound in Hm as (_ & Hw & Hi & Hg).
  simpl; specialize (Hg _ Hn).
  destruct (group_of (S n) cs) as [v|] eqn:Hv; [|contradiction].
  destruct (Hi _ _ Hv) as (r' & Hr' & Hl); eauto.
Qed.

End ReFacts.

(** ** Extraction *)

Module Extraction.

Import Re StrFacts ReFacts HTMLConverter Vocabulary.

(** A loop whose body never raises on the items it is given, and keeps
    [P], ends normally in a state with [P]. *)
Lemma for_each_ok {A S : Type} (Q : A -> Prop) (P : S -> Prop)
    (body : S -> A -> result S) (xs : list A) :
  Forall Q xs ->
  (forall st x, Q x -> P st -> exists st', body st x = Ok st' /\ P st') ->
  forall st, P st -> exists st', for_each xs st body = Ok st' /\ P st'.
Proof.
  intros Hxs Hbody; induction Hxs as [|x xs Hx _ IH]; intros st Hst; simpl.
  - eauto.
  - destruct (Hbody st x Hx Hst) as (st' & -> & Hst'); simpl; auto.
Qed.

Lemma for_each_total {A S : Type} (Q : A -> Prop)
    (body : S -> A -> result S) (xs : list A) :
  Forall Q xs ->
  (forall st x, Q x -> exists st', body st x = Ok st') ->
  forall st, exists st', for_each xs st body = Ok st'.
Proof.
  intros Hxs Hbody st.
  destruct (for_each_ok Q (fun _ => True) body xs Hxs) with (st := st)
    as (st' & E & _); [|exact I|eauto].
  intros st0 x Hx _; destruct (Hbody st0 x Hx) as (st' & E); eauto.
Qed.

Lemma group1_element (name : string) : sets_group 1 (element_pattern name) = true.
Proof. reflexivity. Qed.

(** The inner text of a match is defined whenever group 1 takes part in
    every match of the pattern. *)
Lemma inner_text_ok (fl : flags) (r : regex) (m : mobj) :
  sets_group 1 r = true -> match_of fl r m -> exists txt, inner_text m = Ok txt.
Proof.
  intros Hg Hm; destruct (match_of_group fl r m 0 Hm Hg) as (w & r' & Hw & _).
  unfold inner_text, group_str; rewrite Hw; simpl; eauto.
Qed.

(** the loop that collects the inner texts of the matches of a pattern *)
Lemma collect_texts_ok (fl : flags) (r : regex) (s : string) :
  sets_group 1 r = true ->
  forall st, exists texts,
    for_each (finditer fl r s) st
      (fun items m => txt <- inner_text m ;; Ok (items ++ [txt])%list)
    = Ok texts.
Proof.
  intros Hg; apply (for_each_total (match_of fl r)).
  - apply finditer_from_sound.
  - intros st m Hm; destruct (inner_text_ok fl r m Hg Hm) as (txt & ->).
    simpl; eauto.
Qed.

Lemma headings_of_level_ok (html lvl : string) (st : list heading) :
  exists st',
    for_each (finditer IGNORECASE_DOTALL (element_pattern lvl) html) st
      (fun headings m =>
         txt <- inner_text m ;;
         Ok (headings ++ [Heading lvl txt (m_start m)])%list)
    = Ok st'.
Proof.
  revert st; apply (for_each_total (match_of IGNORECASE_DOTALL (element_pattern lvl))).
  - apply finditer_from_sound.
  - intros st m Hm.
    destruct (inner_text_ok _ _ m (group1_element lvl) Hm) as (txt & ->).
    simpl; eauto.
Qed.

Lemma extract_headings_ok (html : string) :
  exists headings, extract_headings html = Ok headings.
Proof.
  unfold extract_headings; simpl.
  destruct (headings_of_level_ok html "h1" []) as (s1 & ->); simpl.
  destruct (headings_of_level_ok html "h2" s1) as (s2 & ->); simpl.
  destruct (headings_of_level_ok html "h3" s2) as (s3 & ->); simpl.
  eauto.
Qed.

Lemma extract_headings_absent (html : string) :
  (forall lvl, In lvl ["h1"; "h2"; "h3"] ->
     search IGNORECASE_DOTALL (element_pattern lvl) html = None) ->
  extract_headings html = Ok [].
Proof.
  intros H; unfold extract_headings, finditer; simpl.
  rewrite !search_none_finditer; try (apply H; simpl; tauto).
  reflexivity.
Qed.

Lemma extract_paragraphs_ok (html : string) :
  exists paragraphs, extract_paragraphs html = Ok paragraphs.
Proof.
  unfold extract_paragraphs.
  apply (for_each_total (match_of IGNORECASE_DOTALL (element_pattern "p"))).
  - apply finditer_from_sound.
  - intros st m Hm.
    destruct (inner_text_ok _ _ m (group1_element "p") Hm) as (txt & ->); simpl.
    destruct (negb (String.eqb txt "") && Nat.ltb 10 (length txt)); eauto.
Qed.

Lemma extract_paragraphs_absent (html : string) :
  search IGNORECASE_DOTALL (element_pattern "p") html = None ->
  extract_paragraphs html = Ok [].
Proof.
  intros H; unfold extract_paragraphs, finditer.
  now rewrite search_none_finditer.
Qed.

Lemma row_cells_ok (row_html : string) :
  exists cells,
    for_each (finditer IGNORECASE cell_pattern row_html) []
      (fun cells cell_match =>
         cell_text <- inner_text cell_match ;;
         Ok (cells ++ [cell_text])%list)
    = Ok cells.
Proof. now apply collect_texts_ok. Qed.

Lemma extract_tables_ok (html : string) :
  exists tables, extract_tables html = Ok tables /\ Forall table_ok tables.
Proof.
  unfold extract_tables.
  apply (for_each_ok (match_of IGNORECASE_DOTALL (element_pattern "table"))
           (Forall table_ok)); [apply finditer_from_sound | | constructor].
  intros tables table_match _ Htables; simpl.
  assert (Hrows : exists rws,
            for_each (finditer IGNORECASE_DOTALL (element_pattern "tr")
                        (m_text table_match)) []
              (fun rows row_match =>
                 row_html <- group_str 1 row_match ;;
                 cells <- for_each (finditer IGNORECASE cell_pattern row_html) []
                            (fun cells cell_match =>
                               cell_text <- inner_text cell_match ;;
                               Ok (cells ++ [cell_text])%list) ;;
                 if is_nil cells then Ok rows else Ok (rows ++ [cells])%list)
            = Ok rws /\ Forall (fun row : list string => row <> []) rws).
  { apply (for_each_ok (match_of IGNORECASE_DOTALL (element_pattern "tr")));
      [apply finditer_from_sound | | constructor].
    intros rws row_match Hm Hrws.
    destruct (match_of_group _ _ _ 0 Hm (group1_element "tr")) as (w & _ & Hw & _).
    unfold group_str at 1; rewrite Hw; simpl.
    destruct (row_cells_ok w) as (cells & ->); simpl.
    destruct cells as [|c cells]; simpl; [eauto|].
    eexists; split; [reflexivity|].
    apply Forall_app; split; [exact Hrws|].
    constructor; [discriminate | constructor]. }
  destruct Hrows as (rws & -> & Hrws); simpl.
  destruct rws as [|row0 others]; simpl; [eauto|].
  eexists; split; [reflexivity|].
  apply Forall_app; split; [exact Htables|].
  constructor; [|constructor].
  split; simpl; eauto.
Qed.

(** A loop that appends to its list what [f] gives for each item. *)
Lemma for_each_flat {A B : Type} (Q : A -> Prop) (f : A -> list B)
    (body : list B -> A -> result (list B)) (xs : list A) :
  Forall Q xs ->
  (forall st x, Q x -> body st x = Ok (st ++ f x)%list) ->
  forall st, for_each xs st body = Ok (st ++ flat_map f xs)%list.
Proof.
  intros Hxs Hbody; induction Hxs as [|x xs Hx _ IH]; intros st; simpl.
  - now rewrite List.app_nil_r.
  - rewrite (Hbody st x Hx); simpl; rewrite IH.
    now rewrite <- List.app_assoc.
Qed.

Lemma flat_map_single {A B : Type} (f : A -> B) (xs : list A) :
  flat_map (fun x => [f x]) xs = List.map f xs.
Proof. induction xs as [|x xs IH]; simpl; [reflexivity | now rewrite IH]. Qed.

Lemma flat_map_keep {A B : Type} (keep : B -> bool) (g : A -> B) (xs : list A) :
  flat_map (fun x => if keep (g x) then [g x] else []) xs
  = filter keep (List.map g xs).
Proof.
  induction xs as [|x xs IH]; simpl; [reflexivity|].
  destruct (keep (g x)); simpl; now rewrite IH.
Qed.

Lemma inner_text_eq (fl : flags) (r : regex) (m : mobj) :
  sets_group 1 r = true -> match_of fl r m -> inner_text m = Ok (text_of m).
Proof.
  intros Hg Hm; destruct (match_of_group fl r m 0 Hm Hg) as (w & r' & Hw & _).
  unfold inner_text, text_of, group1, group_str; now rewrite Hw.
Qed.

(** [extract_tables] as a function of the matches: the cells of each row,
    the rows that have a cell, the tables that have a row. *)
Lemma extract_tables_eq (html : string) :
  extract_tables html
  = Ok (flat_map table_of
          (finditer IGNORECASE_DOTALL (element_pattern "table") html)).
Proof.
  unfold extract_tables.
  refine (for_each_flat (match_of IGNORECASE_DOTALL (element_pattern "table"))
            table_of _ _ _ _ []); [apply finditer_from_sound|].
  intros tables table_match _; simpl.
  rewrite (for_each_flat (match_of IGNORECASE_DOTALL (element_pattern "tr"))
             (fun row_match =>
                if negb (is_nil (cells_of row_match)) then [cells_of row_match]
                else []));
    [|apply finditer_from_sound|].
  - simpl; unfold table_of, rows_of.
    rewrite <- (flat_map_keep (fun cells => negb (is_nil cells)) cells_of).
    destruct (flat_map _ _) as [|row0 others]; simpl;
      [now rewrite List.app_nil_r | reflexivity].
  - intros rws row_match Hm.
    destruct (match_of_group _ _ _ 0 Hm (group1_element "tr")) as (w & _ & Hw & _).
    unfold group_str at 1; rewrite Hw; simpl.
    rewrite (for_each_flat (match_of IGNORECASE cell_pattern)
               (fun cell_match => [text_of cell_match]));
      [|apply finditer_from_sound|].
    + simpl; rewrite flat_map_single.
      unfold cells_of, group1; rewrite Hw.
      destruct (List.map text_of _); simpl; [now rewrite List.app_nil_r | reflexivity].
    + intros cells cell_match Hc.
      now rewrite (inner_text_eq _ _ _ (eq_refl : sets_group 1 cell_pattern = true) Hc).
Qed.

Lemma extract_tables_absent (html : string) :
  search IGNORECASE_DOTALL (element_pattern "table") html = None ->
  extract_tables html = Ok [].
Proof.
  intros H; unfold extract_tables, finditer.
  now rewrite search_none_finditer.
Qed.

(** C7: [extract_tables] never raises; it keeps, in order, the rows that
    have a cell and the tables that have such a row, and nothing else is
    dropped; every table returned has at least one row, none of its rows
    is empty, and its column count is the cell count of its first row,
    whatever the lengths of the other rows, which are kept as they are. *)
Theorem extract_tables_shape (html : string) :
  extract_tables html
  = Ok (flat_map table_of
          (finditer IGNORECASE_DOTALL (element_pattern "table") html)) /\
  (exists tables,
     extract_tables html = Ok tables /\
     Forall (fun t =>
               Forall (fun row => row <> []) (rows t) /\
               exists row0 others,
                 rows t = row0 :: others /\ columns t = List.length row0)
            tables) /\
  extract_tables
    ("<table><tr><td>a</td><td>b</td></tr><tr></tr><tr><th>c</th></tr></table>"
     ++ "<table><tr></tr></table>")
  = Ok [Table [["a"; "b"]; ["c"]] 2 0].
Proof.
  split; [apply extract_tables_eq|].
  split; [apply extract_tables_ok | reflexivity].
Qed.

End Extraction.

(** ** Ratings *)

Module Ratings.

Import Re StrFacts ReFacts HTMLConverter Vocabulary.

(** Splits a statement about a character into the 256 characters. *)
Ltac each_char c := destruct c as [[] [] [] [] [] [] [] []].

Lemma digit_not_dot (c : ascii) :
  Char.is_digit c = true -> Ascii.eqb c "." = false.
Proof. each_char c; vm_compute; congruence. Qed.

(** The characters that [str.lower()] sends to [d] are [d] itself and, when
    [d] is a lower-case letter, its upper-case form. *)
Lemma lower_inv (c d : ascii) :
  Char.lower c = d -> c = d \/ c = ascii_of_N (Char.code d - 32).
Proof. each_char c; intros <-; vm_compute; auto. Qed.

Lemma all_class_digits (w : string) : all_class no_flags CDigit w = all_digits w.
Proof. induction w as [|c w IH]; simpl; [reflexivity | now rewrite IH]. Qed.

(** Without IGNORECASE a literal matches its own text only. *)
Lemma lit_exact (p w : string) : lit no_flags p w = Some (w, "") -> w = p.
Proof.
  revert w; induction p as [|a p IH]; intros w; simpl.
  - now intros [= <-].
  - destruct w as [|b w]; [discriminate|].
    unfold char_eq; simpl; destruct (Ascii.eqb_spec a b) as [->|]; [|discriminate].
    destruct (lit no_flags p w) as [[v r]|] eqn:L; [|discriminate].
    intros [= -> ->]; f_equal; now apply IH.
Qed.

Lemma is_numeral_spec (w : string) :
  all_digits w = true -> 1 <= length w -> is_numeral w = true.
Proof.
  intros Hw Hl; unfold is_numeral; rewrite Hw.
  destruct w; simpl in *; [lia | reflexivity].
Qed.

Lemma split_dot_digits (w rest : string) :
  all_digits w = true ->
  split_dot (w ++ rest) = (w ++ fst (split_dot rest), snd (split_dot rest)).
Proof.
  induction w as [|c w IH]; simpl.
  - now destruct (split_dot rest).
  - intros H; apply andb_true_iff in H as [Hc Hw].
    rewrite (digit_not_dot c Hc), (IH Hw); reflexivity.
Qed.

(** [float()] accepts every text group 1 can hold. *)
Lemma float_of_decimal (w : string) :
  lang no_flags decimal w -> exists x, float_of_str w = Ok x.
Proof.
  intros (w1 & w2 & -> & [H1 L1] & H2); rewrite all_class_digits in H1.
  unfold float_of_str; rewrite split_dot_digits by exact H1.
  destruct H2 as [->|(w3 & w4 & -> & H3 & [H4 L4])].
  - simpl; rewrite app_nil_r, is_numeral_spec; eauto.
  - apply lit_exact in H3 as ->; rewrite all_class_digits in H4; simpl.
    rewrite app_nil_r, !is_numeral_spec by assumption; simpl; eauto.
Qed.

(** [int()] on a text group 2 can hold: its value, up to the limit on the
    digits. *)
Lemma int_of_digits (w : string) :
  all_digits w = true -> 1 <= length w ->
  int_of_str w = if Nat.leb (length w) max_str_digits
                 then Ok (Z.of_N (digits_value w 0)) else Raise ValueError.
Proof.
  intros H L; unfold int_of_str; now rewrite is_numeral_spec.
Qed.

(** The groups of a match of either pattern. *)
Lemma rating_groups (r : regex) (m : mobj) :
  rating_pattern r -> match_of no_flags r m ->
  exists num total,
    group 1 m = Some num /\ group 2 m = Some total /\
    lang no_flags decimal num /\
    all_digits total = true /\ 1 <= length total.
Proof.
  intros Hr Hm.
  assert (G1 : exists w, group 1 m = Some w /\ lang no_flags decimal w).
  { destruct (match_of_group no_flags r m 0 Hm) as (w & r' & Hw & Hin & Hl).
    - destruct Hr as [->| ->]; reflexivity.
    - exists w; split; [exact Hw|].
      destruct Hr as [->| ->]; simpl in Hin;
        destruct Hin as [[= <-]|[[=]|[]]]; exact Hl. }
  assert (G2 : exists w, group 2 m = Some w /\ lang no_flags (RRep CDigit 1 true) w).
  { destruct (match_of_group no_flags r m 1 Hm) as (w & r' & Hw & Hin & Hl).
    - destruct Hr as [->| ->]; reflexivity.
    - exists w; split; [exact Hw|].
      destruct Hr as [->| ->]; simpl in Hin;
        destruct Hin as [[=]|[[= <-]|[]]]; exact Hl. }
  destruct G1 as (w1 & E1 & L1), G2 as (w2 & E2 & [H2 L2]).
  rewrite all_class_digits in H2.
  exists w1, w2; auto.
Qed.

(** The rating built from a match of either pattern. *)
Lemma rating_decided (r : regex) (m : mobj) :
  rating_pattern r -> match_of no_flags r m ->
  decided_by m (rt <- rating_of_match m ;; Ok (Some rt)).
Proof.
  intros Hr Hm.
  destruct (rating_groups r m Hr Hm) as (num & total & E1 & E2 & L1 & H2 & L2).
  exists num, total.
  split; [exact E1|]; split; [exact E2|]; split; [exact L1|].
  split; [exact H2|]; split; [exact L2|].
  destruct (float_of_decimal num L1) as (x & Hx).
  unfold rating_of_match, group_str; rewrite E1, E2; cbn [bind].
  rewrite Hx; cbn [bind]; rewrite (int_of_digits total H2 L2).
  split; intros Hl.
  - exists x; split; [reflexivity|].
    apply Nat.leb_le in Hl; now rewrite Hl.
  - apply Nat.leb_gt in Hl; now rewrite Hl.
Qed.

(** The words the groups hold are parts of the text matched. *)
Lemma run_within {A : Type} (fl : flags) (r : regex) :
  forall s cs (cont : string -> string -> captures -> option A) x,
  run fl r s cs cont = Some x ->
  exists w s' cs',
    s = w ++ s' /\ cont w s' cs' = Some x /\
    forall n v, group_of n cs' = Some v ->
                group_of n cs = Some v \/ Str.Occurs v w.
Proof.
  induction r as [p|k|k least g|r1 IH1|n r1 IH1|r1 IH1 r2 IH2];
    intros s cs cont x; simpl.
  - destruct (lit fl p s) as [[w s']|] eqn:L; [|discriminate].
    intros H; apply lit_sound in L as (-> & _).
    exists w, s', cs; auto.
  - destruct s as [|c s]; [discriminate|].
    destruct (class_match fl k c); [|discriminate].
    intros H; exists (String c ""), s, cs; auto.
  - intros H.
    assert (exists w s', s = w ++ s' /\ all_class fl k w = true /\
                         least <= length w /\ cont w s' cs = Some x)
      as (w & s' & -> & _ & _ & Hc).
    { destruct g; [apply rep_greedy_sound in H | apply rep_lazy_sound in H];
        exact H. }
    exists w, s', cs; auto.
  - destruct (run fl r1 s cs cont) as [y|] eqn:R.
    + intros [= ->]; apply IH1 in R as (w & s' & cs' & -> & Hc & Hi).
      exists w, s', cs'; auto.
    + intros H; exists "", s, cs; auto.
  - intros H; apply IH1 in H as (w & s' & cs' & -> & Hc & Hi).
    exists w, s', ((n, w) :: cs').
    split; [reflexivity|]; split; [exact Hc|].
    intros m v; simpl.
    destruct (Nat.eqb m n); [|apply Hi].
    intros [= <-]; right; exists "", ""; now rewrite app_nil_r.
  - intros H; apply IH1 in H as (w1 & s1 & cs1 & -> & Hc1 & Hi1).
    apply IH2 in Hc1 as (w2 & s2 & cs2 & -> & Hc2 & Hi2).
    exists (w1 ++ w2), s2, cs2; rewrite app_assoc.
    split; [reflexivity|]; split; [exact Hc2|].
    intros m v Hv; apply Hi2 in Hv as [Hv|Hv].
    + apply Hi1 in Hv as [Hv|Hv]; [now left | right].
      now apply Occurs_app_r.
    + right; now apply Occurs_app_l.
Qed.

Lemma match_within (fl : flags) (r : regex) (m : mobj) (n : nat) (v html : string) :
  forall pos, search_from fl r html pos = Some m ->
  group (S n) m = Some v -> Str.Occurs v html.
Proof.
  intros pos H Hv.
  apply search_from_spec in H as (pre & suf & [w cs] & -> & Hm & ->).
  unfold match_here in Hm.
  apply run_within in Hm as (w0 & s' & cs' & -> & Hc & Hi).
  injection Hc as <- <-; simpl in Hv.
  apply Hi in Hv as [Hv|Hv]; [discriminate|].
  now apply Occurs_app_l, Occurs_app_r.
Qed.

(** What [extract_rating] does, pattern after pattern. *)
Lemma extract_rating_cases (html : string) :
  (forall m, search no_flags slash_pattern html = Some m ->
     extract_rating html = (rt <- rating_of_match m ;; Ok (Some rt))) /\
  (search no_flags slash_pattern html = None ->
   forall m, search no_flags out_of_pattern html = Some m ->
     extract_rating html = (rt <- rating_of_match m ;; Ok (Some rt))) /\
  (search no_flags slash_pattern html = None ->
   search no_flags out_of_pattern html = None ->
   extract_rating html = Ok None).
Proof.
  unfold extract_rating, first_rating; split; [|split].
  - now intros m ->.
  - now intros -> m ->.
  - now intros -> ->.
Qed.

(** The match that decides, when there is a rating or an error. *)
Lemma extract_rating_match (html : string) :
  extract_rating html = Ok None \/
  exists r m,
    rating_pattern r /\ search no_flags r html = Some m /\
    decided_by m (extract_rating html).
Proof.
  destruct (extract_rating_cases html) as (H1 & H2 & H3).
  destruct (search no_flags slash_pattern html) as [m|] eqn:E1.
  - right; exists slash_pattern, m.
    split; [now left|]; split; [exact E1|].
    rewrite (H1 m eq_refl); apply (rating_decided slash_pattern); [now left|].
    eapply search_from_sound, E1.
  - destruct (search no_flags out_of_pattern html) as [m|] eqn:E2.
    + right; exists out_of_pattern, m.
      split; [now right|]; split; [exact E2|].
      rewrite (H2 eq_refl m eq_refl).
      apply (rating_decided out_of_pattern); [now right|].
      eapply search_from_sound, E2.
    + left; now apply H3.
Qed.

(** [extract_rating] returns on a text without a long run of digits. *)
Lemma extract_rating_ok (html : string) :
  short_digits html -> exists r, extract_rating html = Ok r.
Proof.
  intros Hs; destruct (extract_rating_match html)
    as [-> | (r & m & Hr & Hm & num & total & _ & E2 & _ & Hd & _ & Hok & _)];
    [eauto|].
  destruct Hok as (x & _ & ->); [|eauto].
  apply Hs; [|exact Hd].
  now apply (match_within no_flags r m 1 total html 0 Hm).
Qed.

(** [extract_rating] raises nothing but ValueError, and only on a run of
    digits longer than [int()] converts. *)
Lemma extract_rating_raises (html : string) (e : exn) :
  extract_rating html = Raise e ->
  e = ValueError /\
  exists total,
    Str.Occurs total html /\ all_digits total = true /\
    max_str_digits < length total.
Proof.
  intros He; destruct (extract_rating_match html)
    as [E | (r & m & Hr & Hm & num & total & _ & E2 & _ & Hd & _ & Hok & Hbad)];
    [congruence|].
  destruct (Nat.le_gt_cases (length total) max_str_digits) as [Hl|Hl].
  - destruct (Hok Hl) as (x & _ & E); congruence.
  - rewrite (Hbad Hl) in He; injection He as <-.
    split; [reflexivity|]; exists total.
    split; [|auto].
    now apply (match_within no_flags r m 1 total html 0 Hm).
Qed.

Lemma search_from_hit (fl : flags) (r : regex) (s : string) (pos : nat)
    (res : string * captures) :
  match_here fl r s = Some res -> search_from fl r s pos = Some (mk_match pos res).
Proof. intros H; destruct s; simpl; now rewrite H. Qed.

(** [re.search] passes over a beginning in which no match begins. *)
Lemma search_after (fl : flags) (r : regex) (pre suf : string) :
  begins_in fl r pre suf = false ->
  forall pos,
  search_from fl r (pre ++ suf) pos = search_from fl r suf (pos + length pre).
Proof.
  induction pre as [|c pre IH]; intros H pos; [now rewrite Nat.add_0_r|].
  cbn [begins_in] in H.
  change (match match_here fl r (String c pre ++ suf) with
          | Some res => Some (mk_match pos res)
          | None => search_from fl r (pre ++ suf) (S pos)
          end = search_from fl r suf (pos + length (String c pre))).
  destruct (match_here fl r (String c pre ++ suf)); [discriminate|].
  rewrite (IH H); simpl; now rewrite Nat.add_succ_r.
Qed.

Lemma slash_here (post : string) :
  Str.head_is Char.is_digit post = false ->
  match_here no_flags slash_pattern ("7.5/10" ++ post)
  = Some ("7.5/10", [(2, "10"); (1, "7.5")]).
Proof.
  intros H; unfold match_here; destruct post as [|c x]; [reflexivity|].
  simpl in H; simpl; now rewrite H.
Qed.

Lemma out_of_here (post : string) :
  Str.head_is Char.is_digit post = false ->
  match_here no_flags out_of_pattern ("4 out of 5" ++ post)
  = Some ("4 out of 5", [(2, "5"); (1, "4")]).
Proof.
  intros H; unfold match_here; destruct post as [|c x]; [reflexivity|].
  simpl in H; simpl; now rewrite H.
Qed.

(** A match of the second pattern holds the words [out of] as written. *)
Lemma out_of_lang (w : string) :
  lang no_flags out_of_pattern w -> Str.Occurs "out of" w.
Proof.
  intros (w1 & v1 & -> & _ & w2 & v2 & -> & _ & w3 & v3 & -> & H3 & _).
  apply lit_exact in H3 as ->.
  apply Occurs_app_l, Occurs_app_l, Occurs_here.
Qed.

Lemma out_of_search (html : string) (m : mobj) :
  search no_flags out_of_pattern html = Some m -> Str.Occurs "out of" html.
Proof.
  intros H; apply search_from_spec in H as (pre & suf & [w cs] & -> & Hm & _).
  apply match_here_sound in Hm as ([s' ->] & Hw & _).
  apply Occurs_app_l, Occurs_app_r, out_of_lang, Hw.
Qed.

(** C6 (as amended): the [/] pattern is tried first and its leftmost match
    decides, whatever [out of] ratings the text holds; the [out of] pattern
    decides, by its leftmost match, only where the [/] pattern finds
    nothing; the match that decides gives the rating of its two numbers,
    and ValueError when the second has more than 4300 digits; and where no
    match of the [/] pattern begins before a 7.5/10 that no digit follows,
    the rating is 7.5 out of 10. *)
Theorem extract_rating_order (html : string) :
  (forall m, search no_flags slash_pattern html = Some m ->
     decided_by m (extract_rating html)) /\
  (search no_flags slash_pattern html = None ->
   forall m, search no_flags out_of_pattern html = Some m ->
     decided_by m (extract_rating html)) /\
  (search no_flags slash_pattern html = None ->
   search no_flags out_of_pattern html = None ->
   extract_rating html = Ok None) /\
  (forall pre post,
     html = pre ++ "7.5/10" ++ post ->
     begins_in no_flags slash_pattern pre ("7.5/10" ++ post) = false ->
     Str.head_is Char.is_digit post = false ->
     extract_rating html = Ok (Some (Rating (Finite (15 # 2)) 10))).
Proof.
  destruct (extract_rating_cases html) as (H1 & H2 & H3).
  split; [|split; [|split]].
  - intros m Hm; rewrite (H1 m Hm).
    apply (rating_decided slash_pattern); [now left|].
    eapply search_from_sound, Hm.
  - intros Hn m Hm; rewrite (H2 Hn m Hm).
    apply (rating_decided out_of_pattern); [now right|].
    eapply search_from_sound, Hm.
  - exact H3.
  - intros pre post -> Hpre Hpost.
    unfold extract_rating, first_rating, search.
    rewrite (search_after _ _ _ _ Hpre).
    now rewrite (search_from_hit _ _ _ _ _ (slash_here post Hpost)).
Qed.

Lemma extract_rating_order_witness :
  extract_rating "<h1>Review 2024</h1> Our score: 7.5/10 (users: 4 out of 5)"
  = Ok (Some (Rating (Finite (15 # 2)) 10)) /\
  decided_by (mk_match 3 ("1/2", [(2, "2"); (1, "1")]))
    (extract_rating "On 1/2 we scored it 7.5/10").
Proof.
  split.
  - apply (extract_rating_order
             "<h1>Review 2024</h1> Our score: 7.5/10 (users: 4 out of 5)")
      with (pre := "<h1>Review 2024</h1> Our score: ")
           (post := " (users: 4 out of 5)");
      reflexivity.
  - apply (proj1 (extract_rating_order "On 1/2 we scored it 7.5/10")).
    reflexivity.
Defined.

(** C6 (as stated) fails: a text can hold both 7.5/10 and 4 out of 5 and
    have another rating. *)
Lemma extract_rating_first_slash_wins :
  let html := "1/2 done, 7.5/10 overall, 4 out of 5 stars" in
  Str.Occurs "7.5/10" html /\ Str.Occurs "4 out of 5" html /\
  extract_rating html = Ok (Some (Rating (Finite 1) 2)) /\
  extract_rating html <> Ok (Some (Rating (Finite (15 # 2)) 10)).
Proof.
  split; [now exists "1/2 done, ", " overall, 4 out of 5 stars"|].
  split; [now exists "1/2 done, 7.5/10 overall, ", " stars"|].
  split; [reflexivity | discriminate].
Qed.

(** C10 (as amended): the second pattern is matched with the letter case
    as written.  Where the [/] pattern finds nothing and the words [out of]
    do not occur in lower case, there is no rating, so that a rating
    spelled [4 OUT OF 5], or with any other casing of [out of], is not
    found; and where the [/] pattern finds nothing and no match of the
    second pattern begins before a [4 out of 5] that no digit follows, the
    rating is 4 of 5. *)
Theorem out_of_case_sensitive :
  (forall html,
     search no_flags slash_pattern html = None ->
     ~ Str.Occurs "out of" html ->
     extract_rating html = Ok None) /\
  (forall w,
     Str.lower w = "out of" -> w <> "out of" ->
     extract_rating ("4 " ++ w ++ " 5") = Ok None) /\
  (forall pre post,
     search no_flags slash_pattern (pre ++ "4 out of 5" ++ post) = None ->
     begins_in no_flags out_of_pattern pre ("4 out of 5" ++ post) = false ->
     Str.head_is Char.is_digit post = false ->
     extract_rating (pre ++ "4 out of 5" ++ post)
     = Ok (Some (Rating (Finite 4) 5))).
Proof.
  split; [|split].
  - intros html H1 Hno; unfold extract_rating, first_rating; rewrite H1.
    destruct (search no_flags out_of_pattern html) as [m|] eqn:E; [|reflexivity].
    apply out_of_search in E; contradiction.
  - intros w Hw Hne.
    do 6 (destruct w as [|? w]; [discriminate|]).
    destruct w; [|discriminate].
    injection Hw as H1 H2 H3 H4 H5 H6.
    apply lower_inv in H1, H2, H3, H4, H5, H6.
    destruct H1 as [-> | ->], H2 as [-> | ->], H3 as [-> | ->],
             H4 as [-> | ->], H5 as [-> | ->], H6 as [-> | ->];
      try (exfalso; apply Hne; reflexivity); vm_compute; reflexivity.
  - intros pre post H1 Hpre Hpost; unfold extract_rating, first_rating.
    rewrite H1; unfold search.
    rewrite (search_after _ _ _ _ Hpre).
    now rewrite (search_from_hit _ _ _ _ _ (out_of_here post Hpost)).
Qed.

Lemma out_of_case_sensitive_witness :
  extract_rating "Rated 4 OUT OF 5" = Ok None /\
  extract_rating ("4 " ++ "Out Of" ++ " 5") = Ok None /\
  extract_rating ("<h2>Rating</h2> 4 OUT OF 5, or " ++ "4 out of 5" ++ " by users")
  = Ok (Some (Rating (Finite 4) 5)).
Proof.
  destruct out_of_case_sensitive as (H1 & H2 & H3).
  split; [|split].
  - apply H1; [reflexivity|].
    apply contains_false; reflexivity.
  - apply H2; [reflexivity | discriminate].
  - apply H3; reflexivity.
Defined.

(** C10 (as stated) fails: a text without NUMBER/NUMBER can hold a rating
    written 4 OUT OF 5 and yet have a rating. *)
Lemma out_of_upper_case_not_alone :
  let html := "4 OUT OF 5 from critics, 3 out of 5 from users" in
  search no_flags slash_pattern html = None /\
  Str.Occurs "4 OUT OF 5" html /\
  extract_rating html = Ok (Some (Rating (Finite 3) 5)) /\
  extract_rating html <> Ok None.
Proof.
  split; [reflexivity|].
  split; [now exists "", " from critics, 3 out of 5 from users"|].
  split; [reflexivity | discriminate].
Qed.

End Ratings.

(** ** Platforms *)

Module Platforms.

Import Str StrFacts HTMLConverter Vocabulary.

Lemma detect_platform_in_ok (items : list (string * metadata)) (html_lower : string) :
  all_named items -> exists k, detect_platform_in items html_lower = Ok k.
Proof.
  induction 1 as [|[key md] items Hmd _ IH]; simpl; [eauto|].
  simpl in Hmd; destruct (md_name md) as [name|]; [|contradiction].
  destruct (contains (lower name) html_lower || contains key html_lower); eauto.
Qed.

(** The key returned is that of the first entry, in the order of the
    configuration, whose lower-cased name or whose key as written occurs in
    the lower-cased document. *)
Lemma detect_platform_in_some (items : list (string * metadata))
    (html_lower key : string) :
  detect_platform_in items html_lower = Ok (Some key) <->
  exists before md name after,
    items = (before ++ (key, md) :: after)%list /\
    Forall (unmentioned html_lower) before /\
    md_name md = Some name /\
    (Occurs (lower name) html_lower \/ Occurs key html_lower).
Proof.
  induction items as [|[k md] items IH]; simpl.
  - split; [discriminate | intros (before & ? & ? & ? & E & _)].
    now destruct before.
  - destruct (md_name md) as [name|] eqn:Hname.
    + destruct (contains (lower name) html_lower) eqn:E1;
        [apply contains_spec in E1 | apply contains_false in E1];
      (destruct (contains k html_lower) eqn:E2;
        [apply contains_spec in E2 | apply contains_false in E2]); simpl.
      1-3: split;
        [ intros [= <-]; exists [], md, name, items; repeat split; auto
        | intros ([|b before] & md' & name' & after & E & Hb & Hn & Ho);
          [ now injection E as -> _ _
          | injection E as <- _; apply Forall_inv in Hb;
            destruct Hb as (n0 & Hn0 & H1 & H2); simpl in *;
            rewrite Hname in Hn0; injection Hn0 as <-; tauto ] ].
      rewrite IH; split.
      * intros (before & md' & name' & after & -> & Hb & Hn & Ho).
        exists ((k, md) :: before), md', name', after; repeat split; auto.
        constructor; [|exact Hb].
        exists name; simpl; auto.
      * intros ([|b before] & md' & name' & after & E & Hb & Hn & Ho).
        -- injection E as -> -> ->; rewrite Hname in Hn; injection Hn as <-.
           tauto.
        -- injection E as <- ->; apply Forall_inv_tail in Hb.
           exists before, md', name', after; auto.
    + split; [discriminate|].
      intros ([|b before] & md' & name' & after & E & Hb & Hn & Ho).
      * injection E as -> -> ->; congruence.
      * injection E as <- _; apply Forall_inv in Hb.
        destruct Hb as (n0 & Hn0 & _); simpl in Hn0; congruence.
Qed.

(** No platform is returned exactly when no entry is mentioned. *)
Lemma detect_platform_in_none (items : list (string * metadata))
    (html_lower : string) :
  detect_platform_in items html_lower = Ok None <->
  Forall (unmentioned html_lower) items.
Proof.
  induction items as [|[k md] items IH]; simpl.
  - split; auto.
  - destruct (md_name md) as [name|] eqn:Hname.
    + destruct (contains (lower name) html_lower) eqn:E1;
        [apply contains_spec in E1 | apply contains_false in E1];
      (destruct (contains k html_lower) eqn:E2;
        [apply contains_spec in E2 | apply contains_false in E2]); simpl.
      1-3: split;
        [ discriminate
        | intros H; apply Forall_inv in H; destruct H as (n0 & Hn0 & H1 & H2);
          simpl in *; rewrite Hname in Hn0; injection Hn0 as <-; tauto ].
      rewrite IH; split.
      * intros H; constructor; [|exact H].
        exists name; simpl; auto.
      * apply Forall_inv_tail.
    + split; [discriminate|].
      intros H; apply Forall_inv in H; destruct H as (n0 & Hn0 & _).
      simpl in Hn0; congruence.
Qed.

(** An entry without a name, come to before any entry is mentioned, ends
    the detection with KeyError. *)
Lemma detect_platform_in_raises (before after : list (string * metadata))
    (key html_lower : string) (md : metadata) :
  md_name md = None ->
  Forall (unmentioned html_lower) before ->
  detect_platform_in (before ++ (key, md) :: after) html_lower = Raise KeyError.
Proof.
  intros Hmd. induction 1 as [|[k m] before (name & Hn & H1 & H2) _ IH]; simpl.
  - now rewrite Hmd.
  - simpl in Hn, H1, H2. rewrite Hn.
    apply contains_false in H1, H2. rewrite H1, H2. exact IH.
Qed.

Lemma lower_idem (s : string) : lower (lower s) = lower s.
Proof.
  induction s as [|c s IH]; [reflexivity|].
  unfold lower in *; simpl; rewrite IH; f_equal.
  destruct c as [[] [] [] [] [] [] [] []]; reflexivity.
Qed.

Lemma length_lower (s : string) : length (lower s) = length s.
Proof.
  unfold lower; induction s as [|c s IH]; simpl; [reflexivity | now rewrite IH].
Qed.

Lemma app_inj_length (a a' b b' : string) :
  a ++ b = a' ++ b' -> length a = length a' -> a = a' /\ b = b'.
Proof.
  revert a'; induction a as [|c a IH]; intros [|c' a']; simpl; try discriminate.
  - auto.
  - intros [= -> H] [= Hl]; destruct (IH a' H Hl) as [-> ->]; auto.
Qed.

(** What occurs in a lower-cased text has no upper-case letter. *)
Lemma Occurs_in_lower (key html : string) :
  Occurs key (lower html) -> lower key = key.
Proof.
  intros (pre & post & H).
  assert (H' : lower (lower html) = lower pre ++ lower key ++ lower post)
    by now rewrite H, !lower_app.
  rewrite lower_idem, H in H'.
  apply app_inj_length in H' as [_ H']; [|now rewrite length_lower].
  apply app_inj_length in H' as [H' _]; [|now rewrite length_lower].
  now symmetry.
Qed.

(** C9 (where the code departs from it): the document is lower-cased and so
    is the display name, but the key is looked up as it is written; a key
    with an upper-case letter is therefore never found, even in a document
    that spells it the same way. *)
Theorem detect_platform_key_as_written :
  Occurs "Stake" "Try Stake today" /\
  Occurs (lower "Stake") (lower "Try Stake today") /\
  detect_platform stake "Try Stake today" = Ok None /\
  forall key name html,
    lower key <> key ->
    ~ Occurs (lower name) (lower html) ->
    detect_platform (Converter [] [(key, Metadata (Some name))] None [] []) html
    = Ok None.
Proof.
  split; [now exists "Try ", " today"|].
  split; [now exists "try ", " today"|].
  split; [reflexivity|].
  intros key name html Hkey Hname; unfold detect_platform.
  apply detect_platform_in_none; constructor; [|constructor].
  exists name; simpl; split; [reflexivity|]; split; [exact Hname|].
  intros H; apply Hkey, (Occurs_in_lower key html H).
Qed.

Lemma detect_platform_key_as_written_witness :
  detect_platform
    (Converter [] [("BetOne", Metadata (Some "Bet One Sports"))] None [] [])
    "BetOne is a sportsbook" = Ok None.
Proof.
  apply detect_platform_key_as_written; [discriminate|].
  apply contains_false; reflexivity.
Defined.

End Platforms.

(** ** Fragments *)

Module Fragments.

Import Str StrFacts HTMLConverter Vocabulary.

Lemma table_rows_html_spec (rws : list (list string)) :
  forall acc, table_rows_html rws acc = (acc ++ flat_map emitted rws)%list.
Proof.
  induction rws as [|row rws IH]; intros acc; simpl.
  - now rewrite List.app_nil_r.
  - destruct row as [|c0 [|c1 more]]; simpl; rewrite IH; auto.
    now rewrite <- List.app_assoc.
Qed.


Lemma lower_split (s x y : string) :
  lower s = x ++ y -> exists a b, s = a ++ b /\ lower a = x /\ lower b = y.
Proof.
  revert s; induction x as [|c x IH]; intros s; simpl.
  - intros H; now exists "", s.
  - destruct s as [|d s]; [discriminate|].
    intros [= Hc H]; apply IH in H as (a & b & -> & Ha & Hb).
    exists (String d a), b; split; [reflexivity|]; split; [|exact Hb].
    unfold lower in *; simpl; now rewrite Hc, Ha.
Qed.

(** A word occurs in the lower-cased text exactly when the text holds it in
    some letter case. *)
Lemma Occurs_lower_iff (n s : string) :
  Occurs n (lower s) <-> exists u, lower u = n /\ Occurs u s.
Proof.
  split.
  - intros (pre & post & H).
    apply lower_split in H as (a & b & -> & Ha & Hb).
    apply lower_split in Hb as (u & c & -> & Hu & Hc).
    exists u; split; [exact Hu | now exists a, c].
  - intros (u & <- & Hu); now apply Occurs_lower.
Qed.

End Fragments.

(** ** The pipeline *)

Module Pipeline.

Import Str StrFacts HTMLConverter Platforms Vocabulary.

(** What [convert] has computed when it reaches the placeholder map. *)
Lemma template_data_inv (self : converter) (year : Z) (html tpl : string)
    (data : list (string * value)) :
  template_data self year html = Ok (tpl, data) ->
  exists tables key,
    extract_tables html = Ok tables /\
    detect_platform self html = Ok key /\
    get "platform_name" data = Some (VStr (convert_platform_name self key)) /\
    get "quick_facts_table" data
    = Some (VStr match tables with
                 | t0 :: _ =>
                     if Nat.eqb (columns t0) 2 then build_table_html self t0
                     else coming_soon
                 | [] => coming_soon
                 end).
Proof.
  unfold template_data.
  destruct (extract_headings html) as [headings|]; [simpl|discriminate].
  destruct (extract_paragraphs html) as [paragraphs|]; [simpl|discriminate].
  destruct (extract_tables html) as [tables|]; [simpl|discriminate].
  destruct (extract_pros_cons html) as [[pros cons]|]; [simpl|discriminate].
  destruct (detect_platform self html) as [key|]; [simpl|discriminate].
  destruct (extract_rating html) as [rating|]; [simpl|discriminate].
  intros [= <- <-]; exists tables, key; repeat split; reflexivity.
Qed.

(** The entry [d.get(key)] finds for a detected key carries a name. *)
Lemma get_detected (html_lower key : string) (md : metadata)
    (before after : list (string * metadata)) :
  Forall (unmentioned html_lower) before ->
  md_name md <> None ->
  exists md', get key (before ++ (key, md) :: after)%list = Some md' /\
              md_name md' <> None.
Proof.
  induction 1 as [|[k m] before Hk _ IH]; intros Hmd; simpl.
  - rewrite String.eqb_refl; eauto.
  - destruct (String.eqb key k); [|auto].
    exists m; split; [reflexivity|].
    destruct Hk as (name & Hname & _); simpl in Hname; congruence.
Qed.

(** C4 (where the code departs from it): where [convert] has a platform
    name it is the configured display name of the detected key, and
    Platform when no key was detected.  A key whose entry has no display
    name is never detected: [detect_platform] reads the name of every
    entry it comes to and raises KeyError at one that has none, so that
    [convert] returns no page where the claim has the title-cased key for
    a name; for the key foo without a name and a document about foo it
    raises KeyError. *)
Theorem convert_platform_name_resolution (self : converter) (html : string) :
  (forall year tpl data,
     template_data self year html = Ok (tpl, data) ->
     exists key,
       detect_platform self html = Ok key /\
       get "platform_name" data = Some (VStr (convert_platform_name self key))) /\
  (forall key,
     detect_platform self html = Ok (Some key) -> key <> "" ->
     exists md name,
       get key (platform_metadata self) = Some md /\
       md_name md = Some name /\
       convert_platform_name self (Some key) = name) /\
  (detect_platform self html = Ok None ->
   forall year tpl data,
     template_data self year html = Ok (tpl, data) ->
     get "platform_name" data = Some (VStr "Platform")) /\
  (forall key md before after,
     platform_metadata self = (before ++ (key, md) :: after)%list ->
     md_name md = None ->
     Forall (unmentioned (lower html)) before ->
     detect_platform self html = Raise KeyError /\
     forall year out, convert self year html <> Ok out) /\
  convert unnamed 2024 "all about foo" = Raise KeyError.
Proof.
  repeat apply conj.
  - intros year tpl data H.
    apply template_data_inv in H as (tables & key & _ & Hk & Hn & _); eauto.
  - intros key Hk Hne; unfold detect_platform in Hk.
    apply detect_platform_in_some in Hk
      as (before & md & name & after & Hitems & Hb & Hname & _).
    destruct (get_detected _ key md before after Hb) as (md' & Hget & Hmd');
      [congruence|].
    rewrite <- Hitems in Hget.
    destruct md' as [[name'|]]; [|now contradiction Hmd'].
    exists (Metadata (Some name')), name'; repeat split; auto.
    unfold convert_platform_name.
    destruct key; [contradiction | simpl; now rewrite Hget].
  - intros Hnone year tpl data H.
    apply template_data_inv in H as (tables & key & _ & Hk & Hn & _).
    rewrite Hnone in Hk; injection Hk as <-; exact Hn.
  - intros key md before after E Hmd Hb.
    assert (H : detect_platform self html = Raise KeyError)
      by (unfold detect_platform; rewrite E; now apply detect_platform_in_raises).
    split; [exact H|].
    intros year out Hout; unfold convert, bind in Hout.
    destruct (template_data self year html) as [[tpl data]|] eqn:Ht; [|discriminate].
    apply template_data_inv in Ht as (tables & k & _ & Hk & _); congruence.
  - reflexivity.
Qed.

Lemma convert_platform_name_resolution_witness :
  convert_platform_name foo (Some "foo") = "Foo Casino" /\
  detect_platform unnamed "all about foo" = Raise KeyError /\
  (forall year out, convert unnamed year "all about foo" <> Ok out).
Proof.
  destruct (convert_platform_name_resolution foo foo_html)
    as (_ & H2 & _).
  destruct (H2 "foo") as (md & name & Hget & Hname & ->);
    [reflexivity | discriminate |].
  injection Hget as <-; injection Hname as <-.
  split; [reflexivity|].
  destruct (convert_platform_name_resolution unnamed "all about foo")
    as (_ & _ & _ & H4 & _).
  apply (H4 "foo" (Metadata None) [] []); [reflexivity | reflexivity | constructor].
Defined.

End Pipeline.

(** ** Rendering *)

Module Rendering.

Import Re StrFacts ReFacts HTMLConverter Vocabulary.

(** A greedy repetition that can take the whole of [y], is stopped by what
    follows, and whose continuation accepts [y], takes [y]. *)
Lemma rep_greedy_max {A : Type} (fl : flags) (k : cclass) (y t : string) :
  all_class fl k y = true ->
  Str.head_is (class_match fl k) t = false ->
  forall least (cont : string -> string -> option A) x,
  least <= length y -> cont y t = Some x ->
  rep_greedy fl k least (y ++ t) cont = Some x.
Proof.
  intros Hy Ht; induction y as [|c y IH]; intros least cont x Hl Hc; simpl in *.
  - assert (least = 0) as -> by lia.
    destruct t as [|d t]; [exact Hc|].
    simpl in *; now rewrite Ht.
  - apply andb_true_iff in Hy as [Hc' Hy]; rewrite Hc'.
    rewrite (IH Hy (pred least) (fun w s' => cont (String c w) s') x);
      [reflexivity | lia | exact Hc].
Qed.

Lemma length_pos (y : string) : y <> "" -> 1 <= length y.
Proof. destruct y; [congruence | simpl; lia]. Qed.

Lemma match_token (s w : string) (cs : captures) :
  match_here no_flags placeholder_pattern s = Some (w, cs) ->
  exists y rest,
    y <> "" /\ inner y = true /\ w = "{{" ++ y ++ "}}" /\ s = w ++ rest.
Proof.
  intros H; apply match_here_sound in H as ([rest ->] & Hw & _).
  destruct Hw as (w1 & v1 & -> & H1 & y & w3 & -> & [Hy Hl] & H3).
  apply Ratings.lit_exact in H1 as ->; apply Ratings.lit_exact in H3 as ->.
  exists y, rest; repeat split; auto.
  intros ->; simpl in Hl; lia.
Qed.

Lemma token_matches (s : string) :
  token_at s -> exists res, match_here no_flags placeholder_pattern s = Some res.
Proof.
  intros (y & rest & Hne & Hy & ->).
  exists ("{{" ++ y ++ "}}", []); unfold match_here; simpl.
  apply rep_greedy_max; [exact Hy | reflexivity | now apply length_pos | reflexivity].
Qed.

Lemma sub_from_skip (fl : flags) (r : regex) (n : nat) :
  forall s, sub_from fl r "" s n = sub_from fl r "" (Str.drop n s) 0.
Proof.
  induction n as [|n IH]; intros s; [now destruct s|].
  destruct s as [|c s]; simpl; [|apply IH].
  now destruct (match_here fl r "").
Qed.

(** The three ways [strip_tokens] can go at the head of a text. *)
Lemma strip_cases (s : string) :
  (s = "" /\ strip_tokens s = "") \/
  (exists c s', s = String c s' /\ no_token_at s /\
                strip_tokens s = String c (strip_tokens s')) \/
  (exists y rest, y <> "" /\ inner y = true /\ s = "{{" ++ y ++ "}}" ++ rest /\
                  strip_tokens s = strip_tokens rest).
Proof.
  destruct s as [|c s]; [left; split; reflexivity | right].
  unfold strip_tokens, no_token_at; simpl.
  destruct (match_here no_flags placeholder_pattern (String c s))
    as [[w cs]|] eqn:E.
  - right; apply match_token in E as (y & rest & Hne & Hy & -> & E).
    exists y, rest.
    split; [exact Hne|]; split; [exact Hy|]; split;
      [rewrite E; simpl; now rewrite app_assoc|].
    simpl in E; injection E as -> ->.
    change (sub_from no_flags placeholder_pattern ""
              (String "{" (y ++ "}}") ++ rest) (length (String "{" (y ++ "}}")))
            = sub_from no_flags placeholder_pattern "" rest 0).
    now rewrite sub_from_skip, drop_app.
  - left; exists c, s; auto.
Qed.

Lemma no_triple_suffix (pre suf : string) :
  ~ Str.Occurs "}}}" (pre ++ suf) -> ~ Str.Occurs "}}}" suf.
Proof. intros H Hs; apply H, Occurs_app_l, Hs. Qed.

Lemma closing_first (n : nat) :
  forall s, length s <= n -> ~ Str.Occurs "}}}" s ->
  forall t, strip_tokens s = String "}" t -> exists s', s = String "}" s'.
Proof.
  induction n as [|n IH]; intros s Hn H3 t Hs;
    destruct (strip_cases s) as [[-> E]|[(c & s' & -> & _ & E)|
                                          (y & rest & Hne & Hy & -> & E)]];
    rewrite E in Hs; try discriminate; simpl in Hn; try lia.
  - injection Hs as -> _; eauto.
  - exfalso; destruct (IH rest) with (t := t) as (r' & ->); auto.
    + rewrite !length_app in Hn; simpl in Hn; lia.
    + apply (no_triple_suffix ("{{" ++ y ++ "}}")); now rewrite !app_assoc.
    + apply H3; exists ("{{" ++ y), r'; now rewrite !app_assoc.
Qed.

Lemma inner_cons (c : ascii) (y : string) :
  inner (String c y) = class_match no_flags (CNoneOf "}") c && inner y.
Proof. reflexivity. Qed.

Lemma body_form (n : nat) :
  forall s, length s <= n -> ~ Str.Occurs "}}}" s ->
  forall x rest, x <> "" -> inner x = true ->
  strip_tokens s = x ++ "}}" ++ rest ->
  exists x' rest', x' <> "" /\ inner x' = true /\ s = x' ++ "}}" ++ rest'.
Proof.
  induction n as [|n IH]; intros s Hn H3 x rest Hx Hi Hs;
    destruct (strip_cases s) as [[-> E]|[(c & s' & -> & _ & E)|
                                          (y & rest0 & Hne & Hy & -> & E)]];
    rewrite E in Hs; simpl in Hn; try lia;
    try (destruct x; [congruence | discriminate]).
  - destruct x as [|d x]; [congruence|].
    injection Hs as <- Hs; rewrite inner_cons in Hi.
    apply andb_true_iff in Hi as [Hc Hi].
    destruct x as [|e x].
    + simpl in Hs.
      destruct (closing_first (length s') s' (le_n _)) with (t := String "}" rest)
        as (s4 & ->); [eapply (no_triple_suffix (String c "")), H3 | exact Hs |].
      destruct (strip_cases (String "}" s4))
        as [[[=] _]|[(c2 & s2 & [= <- <-] & _ & E2)|(y2 & r2 & _ & _ & [=] & _)]].
      rewrite E2 in Hs; injection Hs as Hs.
      destruct (closing_first (length s4) s4 (le_n _)) with (t := rest)
        as (s5 & ->); [eapply (no_triple_suffix (String c "}")), H3 | exact Hs |].
      exists (String c ""), s5; repeat split; [discriminate|].
      rewrite inner_cons, Hc; reflexivity.
    + destruct (IH s') with (x := String e x) (rest := rest)
        as (x' & rest' & Hx' & Hi' & ->); auto; [lia | | discriminate |].
      * eapply (no_triple_suffix (String c "")), H3.
      * exists (String c x'), rest'; repeat split; [discriminate|].
        rewrite inner_cons, Hc; exact Hi'.
  - exists ("{{" ++ y), rest0; repeat split; [discriminate | exact Hy].
Qed.

(** Where the text has no three closing braces in a row, stripping leaves
    no placeholder token. *)
Lemma strip_token_free (n : nat) :
  forall s, length s <= n -> ~ Str.Occurs "}}}" s -> token_free (strip_tokens s).
Proof.
  induction n as [|n IH]; intros s Hn H3;
    destruct (strip_cases s) as [[-> E]|[(c & s' & -> & Hno & E)|
                                          (y & rest & Hne & Hy & -> & E)]];
    rewrite E; simpl in Hn; try lia.
  - intros [|? ?] suf H; simpl in H; [subst; reflexivity | discriminate].
  - intros [|? ?] suf H; simpl in H; [subst; reflexivity | discriminate].
  - assert (H3' : ~ Str.Occurs "}}}" s')
      by (eapply (no_triple_suffix (String c "")), H3).
    intros [|d pre] suf; simpl.
    + intros <-; unfold no_token_at.
      destruct (match_here no_flags placeholder_pattern
                  (String c (strip_tokens s'))) as [[w cs]|] eqn:Em; [|reflexivity].
      exfalso; apply match_token in Em as (y & rest & Hne & Hy & -> & Em).
      simpl in Em; injection Em as -> Em.
      assert (token_at (String "{" s')) as Ht; [|apply token_matches in Ht
        as (res & Hres); unfold no_token_at in Hno; congruence].
      destruct (strip_cases s')
        as [[-> E']|[(c2 & s2 & -> & _ & E')|(y2 & r2 & Hne2 & Hy2 & -> & E')]].
      * rewrite E' in Em; discriminate.
      * rewrite E' in Em; injection Em as -> Em.
        assert (H3'' : ~ Str.Occurs "}}}" s2)
          by (eapply (no_triple_suffix (String "{" "")), H3').
        rewrite app_assoc in Em.
        destruct (body_form (length s2) s2 (le_n _) H3'' y rest Hne Hy Em)
          as (x' & rest' & Hx' & Hi' & ->).
        now exists x', rest'.
      * exists ("{" ++ y2), r2; repeat split; [discriminate | exact Hy2].
    + intros [= <- Hs']; apply (IH s') with (pre := pre); [lia | exact H3' | exact Hs'].
  - apply IH.
    + rewrite !length_app in Hn; simpl in Hn; lia.
    + apply (no_triple_suffix ("{{" ++ y ++ "}}")); now rewrite !app_assoc.
Qed.

Lemma token_free_search (t : string) :
  token_free t -> forall pos, search_from no_flags placeholder_pattern t pos = None.
Proof.
  induction t as [|c t IH]; intros H pos; [reflexivity|].
  pose proof (H "" (String c t) eq_refl) as H0; unfold no_token_at in H0.
  change (match match_here no_flags placeholder_pattern (String c t) with
          | Some res => Some (mk_match pos res)
          | None => search_from no_flags placeholder_pattern t (S pos)
          end = None).
  rewrite H0; apply IH.
  intros pre suf ->; apply (H (String c pre)); reflexivity.
Qed.

Lemma replace_from_skip (old new : string) (n : nat) :
  forall s, Str.replace_from old new s n = Str.replace_from old new (Str.drop n s) 0.
Proof.
  induction n as [|n IH]; intros s; [now destruct s|].
  destruct s as [|c s]; simpl; [reflexivity | apply IH].
Qed.

(** An occurrence of [old] at the head of the text is replaced, and the
    replacement goes on after it. *)
Lemma replace_hit (old new s : string) :
  old <> "" ->
  Str.replace old new (old ++ s) = new ++ Str.replace old new s.
Proof.
  intros Hold; unfold Str.replace; destruct old as [|a old]; [congruence|].
  simpl; change (String a (old ++ s)) with (String a old ++ s).
  rewrite starts_with_app, replace_from_skip, drop_app; reflexivity.
Qed.

(** A placeholder token at the head of a text is matched whole. *)
Lemma token_here (y rest : string) :
  y <> "" -> inner y = true ->
  match_here no_flags placeholder_pattern ("{{" ++ y ++ "}}" ++ rest)
  = Some ("{{" ++ y ++ "}}", []).
Proof.
  intros Hne Hy; unfold match_here; simpl.
  apply rep_greedy_max; [exact Hy | reflexivity | now apply length_pos | reflexivity].
Qed.

Lemma strip_token (y rest : string) :
  y <> "" -> inner y = true ->
  strip_tokens ("{{" ++ y ++ "}}" ++ rest) = strip_tokens rest.
Proof.
  intros Hne Hy; unfold strip_tokens.
  pose proof (token_here y rest Hne Hy) as E.
  change ("{{" ++ y ++ "}}" ++ rest)
    with (String "{" (String "{" (y ++ "}}" ++ rest))) in E |- *.
  cbn [sub_from]; rewrite E.
  change (sub_from no_flags placeholder_pattern ""
            (String "{" (y ++ "}}" ++ rest)) (length (String "{" (y ++ "}}")))
          = sub_from no_flags placeholder_pattern "" rest 0).
  replace (String "{" (y ++ "}}" ++ rest)) with (String "{" (y ++ "}}") ++ rest)
    by (simpl; now rewrite app_assoc).
  now rewrite sub_from_skip, drop_app.
Qed.

Lemma strip_keep (c : ascii) (s : string) :
  ~ token_at (String c s) ->
  strip_tokens (String c s) = String c (strip_tokens s).
Proof.
  intros H; unfold strip_tokens; cbn [sub_from].
  destruct (match_here no_flags placeholder_pattern (String c s))
    as [[w cs]|] eqn:E; [|reflexivity].
  exfalso; apply H.
  apply match_token in E as (y & rest & Hne & Hy & -> & E).
  exists y, rest; repeat split; auto.
  rewrite E; now rewrite !app_assoc.
Qed.

(** C2 (as amended): [render_template] is the removal of the placeholder
    tokens from the template filled key after key.  Filling with a key
    goes through the text from left to right: the token of the key is
    replaced by the text of the value, any other character is kept; the
    keys are taken in the order of the map.  The removal goes through the
    filled text from left to right in one pass: a placeholder token, two
    opening braces, one or more characters other than a closing brace, two
    closing braces, is dropped, any character at which no token begins is
    kept.  Where the filled text has no three closing braces in a row the
    output holds no placeholder token, and the template
    {{title}}{{unknown}} with title X renders as X. *)
Theorem render_template_strips (template_html : string)
    (data : list (string * value)) :
  render_template template_html data = strip_tokens (fill data template_html) /\
  (forall rest, fill [] rest = rest) /\
  (forall key v, fill [(key, v)] "" = "") /\
  (forall key v rest,
     fill [(key, v)] ("{{" ++ key ++ "}}" ++ rest)
     = Py.str v ++ fill [(key, v)] rest) /\
  (forall key v c rest,
     Str.starts_with ("{{" ++ key ++ "}}") (String c rest) = false ->
     fill [(key, v)] (String c rest) = String c (fill [(key, v)] rest)) /\
  (forall key v rest,
     fill ((key, v) :: data) rest = fill data (fill [(key, v)] rest)) /\
  strip_tokens "" = "" /\
  (forall y rest,
     y <> "" -> inner y = true ->
     strip_tokens ("{{" ++ y ++ "}}" ++ rest) = strip_tokens rest) /\
  (forall c rest,
     ~ token_at (String c rest) ->
     strip_tokens (String c rest) = String c (strip_tokens rest)) /\
  (~ Str.Occurs "}}}" (fill data template_html) ->
   search no_flags placeholder_pattern (render_template template_html data)
   = None) /\
  render_template "{{title}}{{unknown}}" [("title", VStr "X")] = "X".
Proof.
  split; [reflexivity|].
  split; [reflexivity|].
  split; [reflexivity|].
  split; [|split; [|split; [|split; [|split; [|split; [|split]]]]]].
  - intros key v rest; cbn [fill].
    replace ("{{" ++ key ++ "}}" ++ rest) with (("{{" ++ key ++ "}}") ++ rest)
      by now rewrite !app_assoc.
    apply replace_hit; discriminate.
  - intros key v c rest H; cbn [fill]; unfold Str.replace.
    cbn [Str.replace_from]; now rewrite H.
  - reflexivity.
  - reflexivity.
  - apply strip_token.
  - apply strip_keep.
  - intros H; apply token_free_search.
    apply (strip_token_free (length (fill data template_html))); auto.
  - reflexivity.
Qed.

Lemma render_template_strips_witness :
  search no_flags placeholder_pattern
    (render_template "<b>{{name}}</b>{{a}}{{b}} {c}}" [("name", VStr "{{N}}")])
  = None /\
  fill [("k", VStr "v")] (String "{" "{x}}") = String "{" (fill [("k", VStr "v")] "{x}}") /\
  strip_tokens ("{{" ++ "a b" ++ "}}" ++ "<p>") = strip_tokens "<p>" /\
  strip_tokens (String "{" "{}}") = String "{" (strip_tokens "{}}").
Proof.
  split; [|split; [|split]].
  - apply (render_template_strips "<b>{{name}}</b>{{a}}{{b}} {c}}"
             [("name", VStr "{{N}}")]).
    apply contains_false; reflexivity.
  - apply (render_template_strips "" []); reflexivity.
  - apply (render_template_strips "" []); [discriminate | reflexivity].
  - apply (render_template_strips "" []).
    intros (y & rest & Hne & Hy & E).
    destruct y as [|c y]; [congruence|].
    simpl in E. injection E as <- E. discriminate.
Defined.

(** C2 (as stated) fails: removing a token can bring the two halves of
    another one together. *)
Lemma render_template_leaves_token :
  render_template "{{x}{{c}}}" [] = "{{x}}" /\
  search no_flags placeholder_pattern (render_template "{{x}{{c}}}" []) <> None.
Proof. split; [reflexivity | discriminate]. Qed.

End Rendering.

(** ** Pros and cons *)

Module Lists.

Import Re StrFacts ReFacts Extraction HTMLConverter Vocabulary.

(** *** Literals under IGNORECASE *)

Lemma lit_ci_sound (p s w r : string) :
  lit IGNORECASE p s = Some (w, r) -> s = w ++ r /\ Str.lower w = Str.lower p.
Proof.
  revert s w; induction p as [|a p IH]; intros s w; simpl.
  - intros [= <- <-]; auto.
  - destruct s as [|b s]; [discriminate|].
    unfold char_eq, Char.eqb_ci; simpl.
    destruct (Ascii.eqb_spec (Char.lower a) (Char.lower b)) as [E|]; [|discriminate].
    destruct (lit IGNORECASE p s) as [[v r']|] eqn:L; [|discriminate].
    intros [= <- <-]; apply IH in L as [-> Hl].
    split; [reflexivity|]; unfold Str.lower in *; simpl; now rewrite E, Hl.
Qed.

Lemma lit_ci_complete (p u r : string) :
  Str.lower u = Str.lower p -> lit IGNORECASE p (u ++ r) = Some (u, r).
Proof.
  revert u; induction p as [|a p IH]; intros [|b u]; simpl; try discriminate; auto.
  unfold Str.lower; simpl; intros [= E H].
  unfold char_eq, Char.eqb_ci; simpl; rewrite E, Ascii.eqb_refl.
  now rewrite (IH u H).
Qed.

(** *** Lazy repetition *)

(** A lazy repetition stops at the first place where the rest of the
    pattern matches. *)
Lemma rep_lazy_min {A : Type} (fl : flags) (k : cclass) (s : string) :
  forall (cont : string -> string -> option A) x,
  rep_lazy fl k 0 s cont = Some x ->
  exists w s', s = w ++ s' /\ cont w s' = Some x /\
    forall w1 w2, w = w1 ++ w2 -> w2 <> "" -> cont w1 (w2 ++ s') = None.
Proof.
  induction s as [|c s IH]; intros cont x; simpl.
  - destruct (cont "" "") eqn:C; [|discriminate].
    intros [= ->]; exists "", ""; repeat split; auto.
    intros w1 w2 H; destruct w1, w2; try discriminate; congruence.
  - destruct (cont "" (String c s)) as [y|] eqn:C.
    + intros [= ->]; exists "", (String c s); repeat split; auto.
      intros w1 w2 H; destruct w1, w2; try discriminate; congruence.
    + destruct (class_match fl k c); [|discriminate].
      intros H; apply IH in H as (w & s' & -> & Hc & Hmin).
      exists (String c w), s'; repeat split; auto.
      intros [|d w1] w2; simpl.
      * intros <- _; exact C.
      * intros [= <- ->] Hw2; now apply Hmin.
Qed.

(** *** The shape of a list match *)

(** the part of a list match after the label and the optional colon *)
Lemma list_tail_shape (F : string -> string) (s w : string) (cs : captures) :
  match lit IGNORECASE "</strong>" s with
  | Some (w0, s0) =>
      rep_lazy IGNORECASE CAll 0 s0
        (fun w2 s2 =>
           match lit IGNORECASE "<ul>" s2 with
           | Some (w3, s3) =>
               rep_lazy IGNORECASE CAll 0 s3
                 (fun w4 s4 =>
                    match lit IGNORECASE "</ul>" s4 with
                    | Some (w5, _) =>
                        Some (F (w0 ++ w2 ++ w3 ++ w4 ++ w5), [(1, w4)])
                    | None => None
                    end)
           | None => None
           end)
  | None => None
  end = Some (w, cs) ->
  exists w0 gap ul block close,
    w = F (w0 ++ gap ++ ul ++ block ++ close) /\ cs = [(1, block)] /\
    Str.lower w0 = "</strong>" /\ Str.lower ul = "<ul>" /\
    Str.lower close = "</ul>" /\ ~ Str.Occurs "</ul>" (Str.lower block).
Proof.
  destruct (lit IGNORECASE "</strong>" s) as [[w0 s0]|] eqn:L0; [|discriminate].
  apply lit_ci_sound in L0 as [-> L0].
  intros H; apply rep_lazy_sound in H as (gap & s2 & -> & _ & _ & H).
  destruct (lit IGNORECASE "<ul>" s2) as [[ul s3]|] eqn:L3; [|discriminate].
  apply lit_ci_sound in L3 as [-> L3].
  apply rep_lazy_min in H as (block & s4 & -> & H & Hmin).
  destruct (lit IGNORECASE "</ul>" s4) as [[close s5]|] eqn:L5; [|discriminate].
  apply lit_ci_sound in L5 as [-> L5].
  injection H as <- <-.
  exists w0, gap, ul, block, close; repeat split; auto.
  intros (p & q & Hb).
  apply Fragments.lower_split in Hb as (b1 & b2 & -> & _ & Hb).
  apply Fragments.lower_split in Hb as (u & b3 & -> & Hu & _).
  specialize (Hmin b1 (u ++ b3) eq_refl).
  rewrite app_assoc, (lit_ci_complete "</ul>" u) in Hmin by exact Hu.
  destruct u; [discriminate|].
  discriminate Hmin; discriminate.
Qed.

(** A match of the list pattern is the label in <strong>, with or without
    a colon, some text, <ul>, the block captured as group 1, and the first
    </ul> after it; tags and label are matched in any letter case. *)
Lemma list_match_shape (label s w : string) (cs : captures) :
  match_here IGNORECASE (list_pattern label) s = Some (w, cs) ->
  exists lab gap ul block close,
    w = lab ++ gap ++ ul ++ block ++ close /\ cs = [(1, block)] /\
    (Str.lower lab = Str.lower ("<strong>" ++ label ++ "</strong>") \/
     Str.lower lab = Str.lower ("<strong>" ++ label ++ ":</strong>")) /\
    Str.lower ul = "<ul>" /\ Str.lower close = "</ul>" /\
    ~ Str.Occurs "</ul>" (Str.lower block).
Proof.
  unfold match_here, list_pattern; cbn [cat run].
  destruct (lit IGNORECASE ("<strong>" ++ label) s) as [[w1 s1]|] eqn:L1;
    [|discriminate].
  apply lit_ci_sound in L1 as [-> L1].
  match goal with
  | |- match ?X with Some x => Some x | None => ?Y end = _ -> _ =>
      destruct X as [y|] eqn:E1
  end.
  - intros [= ->].
    destruct (lit IGNORECASE ":" s1) as [[wc sc]|] eqn:Lc; [|discriminate].
    apply lit_ci_sound in Lc as [-> Lc].
    apply (list_tail_shape (fun v => w1 ++ wc ++ v)) in E1
      as (w0 & gap & ul & block & close & -> & -> & H0 & Hu & Hc & Hmin).
    exists (w1 ++ wc ++ w0), gap, ul, block, close.
    split; [now rewrite !app_assoc|]; split; [reflexivity|].
    split; [right|auto].
    rewrite !lower_app, L1, Lc, H0, !lower_app; reflexivity.
  - intros H.
    apply (list_tail_shape (fun v => w1 ++ "" ++ v)) in H
      as (w0 & gap & ul & block & close & -> & -> & H0 & Hu & Hc & Hmin).
    exists (w1 ++ w0), gap, ul, block, close.
    split; [simpl; now rewrite !app_assoc|]; split; [reflexivity|].
    split; [left|auto].
    rewrite !lower_app, L1, H0, !lower_app; reflexivity.
Qed.

(** *** The items collected *)

Lemma collect_spec (ms : list mobj) :
  forall st texts,
  for_each ms st (fun items m => txt <- inner_text m ;; Ok (items ++ [txt])%list)
  = Ok texts ->
  exists new, texts = (st ++ new)%list /\
              Forall2 (fun m txt => inner_text m = Ok txt) ms new.
Proof.
  induction ms as [|m ms IH]; intros st texts; simpl.
  - intros [= <-]; exists []; now rewrite List.app_nil_r.
  - destruct (inner_text m) as [txt|] eqn:E; [simpl|discriminate].
    intros H; apply IH in H as (new & -> & Hnew).
    exists (txt :: new); rewrite <- List.app_assoc; auto.
Qed.

Lemma extract_list_ok (label html : string) :
  exists items, extract_list label html = Ok items.
Proof.
  unfold extract_list.
  destruct (search IGNORECASE (list_pattern label) html) as [m|] eqn:E; [|eauto].
  apply search_from_sound in E.
  destruct (match_of_group _ _ m 0 E eq_refl) as (block & _ & Hb & _).
  unfold group_str; rewrite Hb; simpl.
  now apply collect_texts_ok.
Qed.

(** *** The matches of a pattern, one after the other *)

Lemma finditer_from_skip (fl : flags) (r : regex) (n : nat) :
  forall s pos, n <= length s ->
  finditer_from fl r s pos n = finditer_from fl r (Str.drop n s) (pos + n) 0.
Proof.
  induction n as [|n IH]; intros s pos Hn.
  - rewrite Nat.add_0_r; now destruct s.
  - destruct s as [|c s]; simpl in *; [lia|].
    rewrite IH by lia; now rewrite Nat.add_succ_r.
Qed.

(** A match at the head is yielded, and the iteration goes on after it. *)
Lemma finditer_hit (fl : flags) (r : regex) (w : string) (cs : captures)
    (rest : string) (pos : nat) :
  match_here fl r (w ++ rest) = Some (w, cs) -> w <> "" ->
  finditer_from fl r (w ++ rest) pos 0
  = mk_match pos (w, cs) :: finditer_from fl r rest (pos + length w) 0.
Proof.
  intros Hm Hw; destruct w as [|c w]; [congruence|].
  change (String c w ++ rest) with (String c (w ++ rest)) in *.
  cbn [finditer_from]; rewrite Hm; f_equal; cbn [fst length Nat.pred].
  rewrite finditer_from_skip by (rewrite length_app; lia).
  now rewrite drop_app, Nat.add_succ_comm.
Qed.

Lemma search_from_miss (fl : flags) (r : regex) (c : ascii) (s : string)
    (pos : nat) :
  match_here fl r (String c s) = None ->
  search_from fl r (String c s) pos = search_from fl r s (S pos).
Proof. intros H; simpl; now rewrite H. Qed.

(** *** A label and its block, found *)

(** Two ways of cutting the same text. *)
Lemma app_cut (w r a s : string) :
  w ++ r = a ++ s ->
  (exists t, a = w ++ t) \/ (exists t, t <> "" /\ w = a ++ t /\ s = t ++ r).
Proof.
  revert a; induction w as [|c w IH]; intros a H.
  - left; now exists a.
  - destruct a as [|d a].
    + right; exists (String c w); simpl in *; repeat split; [discriminate | now rewrite H].
    + simpl in H; injection H as <- H.
      destruct (IH a H) as [(t & ->) | (t & Ht & -> & ->)].
      * left; now exists t.
      * right; now exists t.
Qed.

(** A literal that has its only < at its beginning begins nowhere in a
    stretch of text that does not hold it, when what follows the stretch
    begins with <. *)
Lemma lit_inside (p a1 a2 s : string) (c : ascii) :
  Str.contains "<" (Str.lower p) = false ->
  ~ Str.Occurs (Str.lower (String "<" p)) (Str.lower (a1 ++ String c a2)) ->
  (forall d s', s = String d s' -> Char.lower d = "<"%char) ->
  lit IGNORECASE (String "<" p) (String c a2 ++ s) = None.
Proof.
  intros Hp Ha Hs.
  destruct (lit IGNORECASE (String "<" p) (String c a2 ++ s)) as [[w r]|] eqn:L;
    [|reflexivity].
  exfalso; apply lit_ci_sound in L as [E Hw]; symmetry in E.
  apply app_cut in E as [(t & E) | (t & Ht & E & Es)].
  - apply Ha; rewrite E, <- Hw.
    apply Occurs_lower, Occurs_app_l, Occurs_here.
  - destruct t as [|d t]; [congruence|].
    specialize (Hs d (t ++ r) Es).
    rewrite E in Hw; simpl in Hw.
    unfold Str.lower in Hw; simpl in Hw; fold (Str.lower (a2 ++ String d t)) in Hw.
    injection Hw as _ Hw.
    apply contains_false in Hp; apply Hp.
    unfold Str.lower; rewrite <- Hw.
    change (Str.Occurs "<" (Str.lower (a2 ++ String d t))).
    rewrite lower_app.
    apply Occurs_app_l; unfold Str.lower; simpl; rewrite Hs.
    now exists "", (Str.map Char.lower t).
Qed.

Lemma rep_lazy_over {A : Type} (fl : flags) (k : cclass) (a s : string) :
  forall cont : string -> string -> option A,
  all_class fl k a = true ->
  (forall a1 c a2, a = a1 ++ String c a2 -> cont a1 (String c a2 ++ s) = None) ->
  rep_lazy fl k 0 (a ++ s) cont = rep_lazy fl k 0 s (fun w s' => cont (a ++ w) s').
Proof.
  induction a as [|c a IH]; intros cont Ha H; [reflexivity|].
  simpl in Ha; apply andb_true_iff in Ha as [Hc Ha].
  pose proof (H "" c a eq_refl) as H0; simpl in H0.
  simpl; rewrite H0, Hc.
  apply IH; [exact Ha|].
  intros a1 d a2 ->; apply (H (String c a1) d a2 eq_refl).
Qed.

Lemma rep_lazy_now {A : Type} (fl : flags) (k : cclass) (s : string)
    (cont : string -> string -> option A) (x : A) :
  cont "" s = Some x -> rep_lazy fl k 0 s cont = Some x.
Proof. intros H; destruct s; simpl; now rewrite H. Qed.

Lemma all_class_all (fl : flags) (a : string) : all_class fl CAll a = true.
Proof. induction a as [|c a IH]; [reflexivity | exact IH]. Qed.

Lemma begins_in_none (fl : flags) (r : regex) (pre suf : string) :
  (forall a1 c a2, pre = a1 ++ String c a2 ->
                   match_here fl r (String c a2 ++ suf) = None) ->
  begins_in fl r pre suf = false.
Proof.
  induction pre as [|c pre IH]; intros H; [reflexivity|].
  cbn [begins_in]; rewrite (H "" c pre eq_refl).
  apply IH; intros a1 d a2 ->; apply (H (String c a1) d a2 eq_refl).
Qed.

Lemma finditer_after (fl : flags) (r : regex) (pre suf : string) :
  begins_in fl r pre suf = false ->
  forall pos,
  finditer_from fl r (pre ++ suf) pos 0
  = finditer_from fl r suf (pos + length pre) 0.
Proof.
  induction pre as [|c pre IH]; intros H pos; [now rewrite Nat.add_0_r|].
  cbn [begins_in] in H.
  destruct (match_here fl r (String c pre ++ suf)) as [res|] eqn:E; [discriminate|].
  change (String c pre ++ suf) with (String c (pre ++ suf)) in *.
  cbn [finditer_from]; rewrite E, (IH H); cbn [length].
  now rewrite Nat.add_succ_comm.
Qed.

Lemma head_lt (u r : string) (p : string) :
  Str.lower u = String "<" p ->
  forall d s', u ++ r = String d s' -> Char.lower d = "<"%char.
Proof.
  destruct u as [|c u]; [discriminate|].
  unfold Str.lower; simpl; intros [= E _] d s' [= <- _]; exact E.
Qed.

Lemma entry_here (e : entry) (rest : string) :
  is_entry e ->
  match_here IGNORECASE li_pattern (e_open e ++ e_body e ++ e_close e ++ rest)
  = Some (e_open e ++ e_body e ++ e_close e, [(1, e_body e)]).
Proof.
  intros (_ & Ho & Hc & Hl & Hb).
  unfold match_here, li_pattern; cbn [cat run].
  rewrite (lit_ci_complete "<li>" (e_open e)) by exact Ho.
  rewrite rep_lazy_over.
  - apply rep_lazy_now.
    rewrite (lit_ci_complete "</li>" (e_close e)) by exact Hc.
    now rewrite app_nil_r.
  - clear -Hl; unfold one_line in Hl.
    induction (e_body e) as [|c b IH]; [reflexivity|].
    simpl in *; apply andb_true_iff in Hl as [-> Hl]; auto.
  - intros a1 c a2 E.
    rewrite (lit_inside "/li>" a1 a2); [reflexivity | reflexivity | now rewrite <- E |].
    now apply head_lt with "/li>".
Qed.


Lemma li_inside (a1 a2 s : string) (c : ascii) :
  ~ Str.Occurs "<li>" (Str.lower (a1 ++ String c a2)) ->
  (forall d s', s = String d s' -> Char.lower d = "<"%char) ->
  match_here IGNORECASE li_pattern (String c a2 ++ s) = None.
Proof.
  intros Ha Hs; unfold match_here, li_pattern; cbn [cat run].
  now rewrite (lit_inside "li>" a1 a2).
Qed.

Lemma li_before (a s : string) :
  ~ Str.Occurs "<li>" (Str.lower a) ->
  (forall d s', s = String d s' -> Char.lower d = "<"%char) ->
  begins_in IGNORECASE li_pattern a s = false.
Proof.
  intros Ha Hs; apply begins_in_none; intros a1 c a2 ->.
  now apply li_inside with a1.
Qed.

(** The entries of a listing are the matches of the entry pattern. *)
Lemma finditer_listing (es : list entry) (rest : string) :
  Forall is_entry es -> ~ Str.Occurs "<li>" (Str.lower rest) ->
  forall pos,
  List.map text_of (finditer_from IGNORECASE li_pattern (listing es rest) pos 0)
  = List.map item_of es.
Proof.
  intros Hes Hrest; induction Hes as [|e es He _ IH]; intros pos.
  - cbn [listing]; rewrite <- (app_nil_r rest).
    rewrite finditer_after by (apply li_before; [exact Hrest | discriminate]).
    reflexivity.
  - cbn [listing]; unfold entry_text.
    replace ((e_before e ++ e_open e ++ e_body e ++ e_close e) ++ listing es rest)
      with (e_before e ++ (e_open e ++ e_body e ++ e_close e) ++ listing es rest)
      by now rewrite !app_assoc.
    pose proof He as (Hb & Ho & _).
    rewrite finditer_after.
    2:{ apply li_before; [exact Hb|].
        rewrite !app_assoc; now apply head_lt with "li>". }
    rewrite (finditer_hit _ _ _ [(1, e_body e)]).
    + cbn [List.map]; rewrite IH; reflexivity.
    + rewrite !app_assoc; now apply entry_here.
    + destruct (e_open e); [discriminate Ho | discriminate].
Qed.

Lemma rep_lazy_first {A : Type} (fl : flags) (k : cclass) (s : string) :
  forall (cont : string -> string -> option A) x,
  rep_lazy fl k 0 s cont = Some x ->
  exists w s', s = w ++ s' /\ all_class fl k w = true /\ cont w s' = Some x /\
    forall w1 w2, w = w1 ++ w2 -> w2 <> "" -> cont w1 (w2 ++ s') = None.
Proof.
  induction s as [|c s IH]; intros cont x; simpl.
  - destruct (cont "" "") eqn:C; [|discriminate].
    intros [= ->]; exists "", ""; repeat split; auto.
    intros w1 w2 H; destruct w1, w2; try discriminate; congruence.
  - destruct (cont "" (String c s)) as [y|] eqn:C.
    + intros [= ->]; exists "", (String c s); repeat split; auto.
      intros w1 w2 H; destruct w1, w2; try discriminate; congruence.
    + destruct (class_match fl k c) eqn:K; [|discriminate].
      intros H; apply IH in H as (w & s' & -> & Hk & Hc & Hmin).
      exists (String c w), s'; repeat split; auto.
      * simpl; now rewrite K.
      * intros [|d w1] w2; simpl.
        -- intros <- _; exact C.
        -- intros [= <- ->] Hw2; now apply Hmin.
Qed.

(** A match of the entry pattern is <li>, the text of the entry on one
    line, and the first </li> after it. *)
Lemma li_match_shape (s w : string) (cs : captures) :
  match_here IGNORECASE li_pattern s = Some (w, cs) ->
  exists e, w = e_open e ++ e_body e ++ e_close e /\ cs = [(1, e_body e)] /\
            e_before e = "" /\ is_entry e.
Proof.
  unfold match_here, li_pattern; cbn [cat run].
  destruct (lit IGNORECASE "<li>" s) as [[op s1]|] eqn:L1; [|discriminate].
  apply lit_ci_sound in L1 as [-> L1].
  intros H; apply rep_lazy_first in H as (body & s2 & -> & Hk & H & Hmin).
  destruct (lit IGNORECASE "</li>" s2) as [[cl s3]|] eqn:L2; [|discriminate].
  apply lit_ci_sound in L2 as [-> L2].
  injection H as <- <-.
  exists (Entry "" op body cl); cbn [e_before e_open e_body e_close].
  split; [now rewrite ?app_nil_r|]. split; [reflexivity|]. split; [reflexivity|].
  unfold is_entry; cbn [e_before e_open e_body e_close].
  split; [intros H; apply contains_spec in H; discriminate|].
  split; [exact L1|]. split; [exact L2|]. split.
  - clear -Hk; unfold one_line; induction body as [|c b IH]; [reflexivity|].
    simpl in *; apply andb_true_iff in Hk as [-> Hk]; auto.
  - intros (p & q & Hb).
    apply Fragments.lower_split in Hb as (b1 & b2 & -> & _ & Hb).
    apply Fragments.lower_split in Hb as (u & b3 & -> & Hu & _).
    specialize (Hmin b1 (u ++ b3) eq_refl).
    rewrite app_assoc, (lit_ci_complete "</li>" u) in Hmin by exact Hu.
    destruct u; [discriminate|].
    discriminate Hmin; discriminate.
Qed.

Lemma extract_list_eq (label html : string) :
  extract_list label html
  = Ok match search IGNORECASE (list_pattern label) html with
       | Some m => List.map text_of (finditer IGNORECASE li_pattern (group1 m))
       | None => []
       end.
Proof.
  unfold extract_list.
  destruct (search IGNORECASE (list_pattern label) html) as [m|] eqn:E;
    [|reflexivity].
  apply search_from_sound in E.
  destruct (match_of_group _ _ m 0 E eq_refl) as (block & _ & Hb & _).
  unfold group_str, group1; rewrite Hb; cbn [bind].
  rewrite <- flat_map_single.
  refine (for_each_flat (match_of IGNORECASE li_pattern) _ _ _ _ _ []).
  - apply finditer_from_sound.
  - intros st li Hli.
    now rewrite (inner_text_eq IGNORECASE li_pattern li eq_refl Hli).
Qed.


Lemma list_tail_here (F : string -> string)
    (w0 gap ul block close post : string) :
  Str.lower w0 = "</strong>" -> Str.lower ul = "<ul>" ->
  Str.lower close = "</ul>" ->
  ~ Str.Occurs "<ul>" (Str.lower gap) -> ~ Str.Occurs "</ul>" (Str.lower block) ->
  match lit IGNORECASE "</strong>" (w0 ++ gap ++ ul ++ block ++ close ++ post) with
  | Some (w0, s0) =>
      rep_lazy IGNORECASE CAll 0 s0
        (fun w2 s2 =>
           match lit IGNORECASE "<ul>" s2 with
           | Some (w3, s3) =>
               rep_lazy IGNORECASE CAll 0 s3
                 (fun w4 s4 =>
                    match lit IGNORECASE "</ul>" s4 with
                    | Some (w5, _) =>
                        Some (F (w0 ++ w2 ++ w3 ++ w4 ++ w5), [(1, w4)])
                    | None => None
                    end)
           | None => None
           end)
  | None => None
  end = Some (F (w0 ++ gap ++ ul ++ block ++ close), [(1, block)]).
Proof.
  intros H0 Hu Hc Hg Hb.
  rewrite (lit_ci_complete "</strong>" w0) by exact H0.
  rewrite rep_lazy_over; [|apply all_class_all|].
  2:{ intros a1 c a2 E.
      rewrite (lit_inside "ul>" a1 a2); [reflexivity | reflexivity | now rewrite <- E |].
      now apply head_lt with "ul>". }
  apply rep_lazy_now.
  rewrite (lit_ci_complete "<ul>" ul) by exact Hu.
  rewrite rep_lazy_over; [|apply all_class_all|].
  2:{ intros a1 c a2 E.
      rewrite (lit_inside "/ul>" a1 a2); [reflexivity | reflexivity | now rewrite <- E |].
      now apply head_lt with "/ul>". }
  apply rep_lazy_now.
  rewrite (lit_ci_complete "</ul>" close) by exact Hc.
  now rewrite !app_nil_r.
Qed.

(** The list pattern matches at a label that is followed by a block. *)
Lemma list_here (label lab gap ul block close post : string) :
  is_label label lab ->
  Str.lower ul = "<ul>" -> Str.lower close = "</ul>" ->
  ~ Str.Occurs "<ul>" (Str.lower gap) -> ~ Str.Occurs "</ul>" (Str.lower block) ->
  match_here IGNORECASE (list_pattern label)
    (lab ++ gap ++ ul ++ block ++ close ++ post)
  = Some (lab ++ gap ++ ul ++ block ++ close, [(1, block)]).
Proof.
  intros Hl Hu Hc Hg Hb.
  unfold match_here, list_pattern; cbn [cat run].
  destruct Hl as [Hl | Hl].
  - replace ("<strong>" ++ label ++ "</strong>")
      with (("<strong>" ++ label) ++ "</strong>") in Hl by now rewrite app_assoc.
    rewrite lower_app in Hl.
    apply Fragments.lower_split in Hl as (w1 & w0 & -> & H1 & H0).
    rewrite !app_assoc.
    rewrite (lit_ci_complete ("<strong>" ++ label) w1) by exact H1.
    assert (Hcolon : lit IGNORECASE ":" (w0 ++ gap ++ ul ++ block ++ close ++ post) = None).
    { destruct w0 as [|d w0]; [discriminate|].
      unfold Str.lower in H0; simpl in H0; injection H0 as Hd _.
      simpl; unfold char_eq, Char.eqb_ci; simpl; rewrite Hd; reflexivity. }
    rewrite Hcolon.
    apply (list_tail_here (fun v => w1 ++ "" ++ v)); assumption.
  - replace ("<strong>" ++ label ++ ":</strong>")
      with (("<strong>" ++ label) ++ ":" ++ "</strong>") in Hl by now rewrite app_assoc.
    rewrite !lower_app in Hl.
    apply Fragments.lower_split in Hl as (w1 & w' & -> & H1 & Hl).
    apply Fragments.lower_split in Hl as (wc & w0 & -> & Hc' & H0).
    rewrite !app_assoc.
    rewrite (lit_ci_complete ("<strong>" ++ label) w1) by exact H1.
    rewrite (lit_ci_complete ":" wc) by exact Hc'.
    rewrite (list_tail_here (fun v => w1 ++ wc ++ v)) by assumption.
    reflexivity.
Qed.

(** Without the beginning of the label there is no match. *)
Lemma list_absent (label html : string) :
  ~ Str.Occurs (Str.lower ("<strong>" ++ label)) (Str.lower html) ->
  search IGNORECASE (list_pattern label) html = None.
Proof.
  intros H; unfold search.
  assert (G : forall s pos, ~ Str.Occurs (Str.lower ("<strong>" ++ label)) (Str.lower s) ->
                            search_from IGNORECASE (list_pattern label) s pos = None).
  { clear; induction s as [|c s IH]; intros pos H.
    - simpl.
      destruct (match_here IGNORECASE (list_pattern label) "") as [[w cs]|] eqn:E;
        [|reflexivity].
      exfalso; revert E; unfold match_here, list_pattern; cbn [cat run].
      destruct (lit IGNORECASE ("<strong>" ++ label) "") as [[w1 s1]|] eqn:L;
        [|discriminate].
      discriminate L.
    - simpl.
      destruct (match_here IGNORECASE (list_pattern label) (String c s))
        as [[w cs]|] eqn:E.
      + exfalso; revert E; unfold match_here, list_pattern; cbn [cat run].
        destruct (lit IGNORECASE ("<strong>" ++ label) (String c s))
          as [[w1 s1]|] eqn:L; [|discriminate].
        apply lit_ci_sound in L as [L1 L2].
        exfalso; apply H; rewrite <- L2, L1, (lower_app w1 s1); apply Occurs_here.
      + apply IH; intros Ho; apply H.
        unfold Str.lower; simpl; now apply Occurs_cons. }
  now apply G.
Qed.


(** C8 (as amended): each side of [extract_pros_cons] is found on its own.
    A side is the first place of the document where the label stands in
    <strong>, with or without a colon, and is followed, after any text, by
    a block opened by <ul> written so and closed by the first </ul> after
    it, all tags in any letter case; the side is then the texts, tags
    removed and trimmed, of the entries of the block, an entry being <li>
    written so, the first </li> after it, and one line of text between
    them.  A side for which there is no such place, and so one whose label
    is absent, is empty.  A document with such a Pros label and block and
    no Cons section gives the entries of the block as pros, and no cons:
    three entries give three pros. *)
Theorem extract_pros_cons_lists (html : string) :
  (exists pros cons,
     extract_pros_cons html = Ok (pros, cons) /\
     extract_list "Pros" html = Ok pros /\
     extract_list "Cons" html = Ok cons) /\
  (forall label,
     extract_list label html
     = Ok match search IGNORECASE (list_pattern label) html with
          | Some m => List.map text_of (finditer IGNORECASE li_pattern (group1 m))
          | None => []
          end) /\
  (forall label,
     ~ Str.Occurs (Str.lower ("<strong>" ++ label)) (Str.lower html) ->
     extract_list label html = Ok []) /\
  (forall label m,
     search IGNORECASE (list_pattern label) html = Some m ->
     exists lab gap ul block close,
       m_text m = lab ++ gap ++ ul ++ block ++ close /\ group1 m = block /\
       is_label label lab /\
       Str.lower ul = "<ul>" /\ Str.lower close = "</ul>" /\
       ~ Str.Occurs "</ul>" (Str.lower block)) /\
  (forall label pre lab gap ul block close post,
     html = pre ++ lab ++ gap ++ ul ++ block ++ close ++ post ->
     is_label label lab ->
     Str.lower ul = "<ul>" -> Str.lower close = "</ul>" ->
     ~ Str.Occurs "<ul>" (Str.lower gap) ->
     ~ Str.Occurs "</ul>" (Str.lower block) ->
     begins_in IGNORECASE (list_pattern label) pre
       (lab ++ gap ++ ul ++ block ++ close ++ post) = false ->
     search IGNORECASE (list_pattern label) html
     = Some (mk_match (length pre)
               (lab ++ gap ++ ul ++ block ++ close, [(1, block)])) /\
     extract_list label html
     = Ok (List.map text_of (finditer IGNORECASE li_pattern block))) /\
  (forall block m,
     In m (finditer IGNORECASE li_pattern block) ->
     exists e,
       m_text m = e_open e ++ e_body e ++ e_close e /\ e_before e = "" /\
       is_entry e /\ text_of m = item_of e) /\
  (forall es rest,
     Forall is_entry es -> ~ Str.Occurs "<li>" (Str.lower rest) ->
     List.map text_of (finditer IGNORECASE li_pattern (listing es rest))
     = List.map item_of es) /\
  (forall pre lab gap ul es rest close post,
     html = pre ++ lab ++ gap ++ ul ++ listing es rest ++ close ++ post ->
     is_label "Pros" lab ->
     Str.lower ul = "<ul>" -> Str.lower close = "</ul>" ->
     ~ Str.Occurs "<ul>" (Str.lower gap) ->
     ~ Str.Occurs "</ul>" (Str.lower (listing es rest)) ->
     Forall is_entry es -> ~ Str.Occurs "<li>" (Str.lower rest) ->
     begins_in IGNORECASE (list_pattern "Pros") pre
       (lab ++ gap ++ ul ++ listing es rest ++ close ++ post) = false ->
     search IGNORECASE (list_pattern "Cons") html = None ->
     extract_pros_cons html = Ok (List.map item_of es, []) /\
     (List.length es = 3 ->
      exists p1 p2 p3, extract_pros_cons html = Ok ([p1; p2; p3], []))).
Proof.
  assert (Hfound : forall label pre lab gap ul block close post,
     html = pre ++ lab ++ gap ++ ul ++ block ++ close ++ post ->
     is_label label lab ->
     Str.lower ul = "<ul>" -> Str.lower close = "</ul>" ->
     ~ Str.Occurs "<ul>" (Str.lower gap) ->
     ~ Str.Occurs "</ul>" (Str.lower block) ->
     begins_in IGNORECASE (list_pattern label) pre
       (lab ++ gap ++ ul ++ block ++ close ++ post) = false ->
     search IGNORECASE (list_pattern label) html
     = Some (mk_match (length pre)
               (lab ++ gap ++ ul ++ block ++ close, [(1, block)]))).
  { intros label pre lab gap ul block close post -> Hl Hu Hc Hg Hb Hpre.
    unfold search; rewrite (Ratings.search_after _ _ _ _ Hpre).
    apply Ratings.search_from_hit, list_here; assumption. }
  split; [|split; [|split; [|split; [|split; [|split; [|split]]]]]].
  - destruct (extract_list_ok "Pros" html) as (pros & Hp).
    destruct (extract_list_ok "Cons" html) as (cons & Hc).
    exists pros, cons; unfold extract_pros_cons; now rewrite Hp, Hc.
  - intros label; apply extract_list_eq.
  - intros label H; rewrite extract_list_eq; now rewrite (list_absent label html H).
  - intros label m Hm.
    apply search_from_spec in Hm as (pre & suf & [w cs] & _ & Hw & ->).
    apply list_match_shape in Hw
      as (lab & gap & ul & block & close & -> & -> & Hlab & Hul & Hclose & Hmin).
    exists lab, gap, ul, block, close.
    repeat (split; [assumption || reflexivity|]). exact Hmin.
  - intros label pre lab gap ul block close post E Hl Hu Hc Hg Hb Hpre.
    pose proof (Hfound label pre lab gap ul block close post E Hl Hu Hc Hg Hb Hpre)
      as Hs.
    split; [exact Hs|]. rewrite extract_list_eq, Hs; reflexivity.
  - intros block m Hm.
    pose proof (finditer_from_sound IGNORECASE li_pattern block 0 0) as Hall.
    rewrite Forall_forall in Hall.
    destruct (Hall m Hm) as (pos & suf & [w cs] & Hw & ->).
    apply li_match_shape in Hw as (e & -> & -> & Hb & He).
    exists e; repeat split; auto; apply He.
  - intros es rest Hes Hrest; apply finditer_listing; assumption.
  - intros pre lab gap ul es rest close post E Hl Hu Hc Hg Hb Hes Hrest Hpre Hcons.
    assert (R : extract_pros_cons html = Ok (List.map item_of es, [])).
    { unfold extract_pros_cons.
      rewrite !extract_list_eq, Hcons.
      rewrite (Hfound "Pros" pre lab gap ul (listing es rest) close post
                 E Hl Hu Hc Hg Hb Hpre).
      cbn [bind]; unfold group1; cbn [group mk_match m_groups snd group_of Nat.eqb].
      unfold finditer; now rewrite finditer_listing. }
    split; [exact R|]. intros H3; rewrite R.
    destruct es as [|e1 [|e2 [|e3 [|e4 es]]]]; try discriminate H3.
    now exists (item_of e1), (item_of e2), (item_of e3).
Qed.


Lemma extract_pros_cons_lists_witness :
  extract_pros_cons
    ("<h2>Verdict</h2><p><STRONG>pros</STRONG> at a glance</p>" ++ nl ++ "<ul>" ++
     listing [Entry (nl ++ "  ") "<li>" "Fast <b>payouts</b>" "</li>";
              Entry (nl ++ "  ") "<LI>" " Live chat " "</LI>";
              Entry (nl ++ "  ") "<li>" "No fees" "</li>"] nl ++
     "</ul>" ++ "<p>More</p>")
  = Ok (["Fast payouts"; "Live chat"; "No fees"], []).
Proof.
  refine (proj1 (proj2 (proj2 (proj2 (proj2 (proj2 (proj2 (proj2
            (extract_pros_cons_lists _)))))))
            "<h2>Verdict</h2><p>" "<STRONG>pros</STRONG>"
            (" at a glance</p>" ++ nl) "<ul>"
            [Entry (nl ++ "  ") "<li>" "Fast <b>payouts</b>" "</li>";
             Entry (nl ++ "  ") "<LI>" " Live chat " "</LI>";
             Entry (nl ++ "  ") "<li>" "No fees" "</li>"] nl
            "</ul>" "<p>More</p>" _ _ _ _ _ _ _ _ _ _)).
  - reflexivity.
  - left; reflexivity.
  - reflexivity.
  - reflexivity.
  - apply contains_false; reflexivity.
  - apply contains_false; reflexivity.
  - repeat constructor; try (apply contains_false; reflexivity).
  - apply contains_false; reflexivity.
  - vm_compute; reflexivity.
  - vm_compute; reflexivity.
Defined.

(** C8 (as stated) fails: a Pros: label in a heading, a list opened by a
    <ul> with an attribute, entries over two lines or with an attribute
    are not found. *)
Lemma pros_label_as_heading :
  extract_pros_cons
    "<h3>Pros:</h3><ul><li>Fast payouts</li><li>Live chat</li><li>No fees</li></ul>"
  = Ok ([], []) /\
  extract_pros_cons
    ("<strong>Pros:</strong><ul class=" ++ quoted "x"
     ++ "><li>Fast payouts</li><li>Live chat</li><li>No fees</li></ul>")
  = Ok ([], []) /\
  extract_pros_cons
    ("<strong>Pros:</strong><ul><li>Fast" ++ nl ++ "payouts</li><li class="
     ++ quoted "a" ++ ">Live chat</li><li>No fees</li></ul>")
  = Ok (["No fees"], []).
Proof. repeat split; vm_compute; reflexivity. Qed.

End Lists.

(** ** No extraction raises *)

Module Totality.

Import Re StrFacts ReFacts Extraction HTMLConverter Platforms Vocabulary.

Lemma extract_pros_cons_ok (html : string) :
  exists pros cons, extract_pros_cons html = Ok (pros, cons).
Proof.
  destruct (Lists.extract_list_ok "Pros" html) as (pros & Hp).
  destruct (Lists.extract_list_ok "Cons" html) as (cons & Hc).
  exists pros, cons; unfold extract_pros_cons; now rewrite Hp, Hc.
Qed.

Lemma detect_platform_ok (self : converter) (html : string) :
  all_named (platform_metadata self) ->
  exists key, detect_platform self html = Ok key.
Proof. apply detect_platform_in_ok. Qed.

Lemma page_type_known (html : string) (headings : list heading) :
  In (detect_page_type html headings)
     ["casino-review"; "sportsbook-review"; "crypto-comparison"].
Proof.
  unfold detect_page_type.
  repeat match goal with
  | |- context [if ?b then _ else _] => destruct b
  end; simpl; auto.
Qed.

Lemma length_occurs (w html : string) : Str.Occurs w html -> length w <= length html.
Proof. intros (pre & post & ->); rewrite !length_app; lia. Qed.

(** A text no longer than the limit has no longer run of digits. *)
Lemma short_text (html : string) :
  length html <= max_str_digits -> short_digits html.
Proof.
  intros H w Hw _; apply length_occurs in Hw; lia.
Qed.

(** With every platform named and no long run of digits, the whole of
    [convert] ends normally. *)
Lemma convert_ok (self : converter) (year : Z) (html : string) :
  all_named (platform_metadata self) -> short_digits html ->
  exists out, convert self year html = Ok out.
Proof.
  intros Hcfg Hs; unfold convert, template_data.
  destruct (extract_headings_ok html) as (headings & ->).
  destruct (extract_paragraphs_ok html) as (paragraphs & ->).
  destruct (extract_tables_ok html) as (tables & -> & _).
  destruct (extract_pros_cons_ok html) as (pros & cons & ->).
  destruct (detect_platform_ok self html Hcfg) as (key & ->).
  destruct (Ratings.extract_rating_ok html Hs) as (rating & ->).
  simpl; eauto.
Qed.

(** C1 (as amended): on every document the extraction of the headings, of
    the paragraphs, of the tables and of the pros and cons returns a value,
    its loops never raising, and [detect_page_type] is a total function of
    the document and the headings.  [extract_rating] returns a value on
    every document that has no run of more than 4300 digits, and on any
    document raises nothing but ValueError, and that only when the
    document has such a run; [detect_platform] returns normally once each
    configured platform has its display name, and so does the pipeline as
    a whole on the documents without such a run.  Where a pattern is not
    found the result is the empty list, the pair of empty lists, or no
    rating. *)
Theorem extraction_total (self : converter) (html : string) :
  ((exists headings, extract_headings html = Ok headings) /\
   (exists paragraphs, extract_paragraphs html = Ok paragraphs) /\
   (exists tables, extract_tables html = Ok tables) /\
   (exists pros cons, extract_pros_cons html = Ok (pros, cons)) /\
   (short_digits html -> exists rating, extract_rating html = Ok rating) /\
   (forall e, extract_rating html = Raise e ->
      e = ValueError /\
      exists total,
        Str.Occurs total html /\ all_digits total = true /\
        max_str_digits < length total) /\
   (forall headings,
      In (detect_page_type html headings)
         ["casino-review"; "sportsbook-review"; "crypto-comparison"])) /\
  (all_named (platform_metadata self) ->
   (exists key, detect_platform self html = Ok key) /\
   (short_digits html -> forall year, exists out, convert self year html = Ok out)) /\
  ((forall lvl, In lvl ["h1"; "h2"; "h3"] ->
      search IGNORECASE_DOTALL (element_pattern lvl) html = None) ->
   extract_headings html = Ok []) /\
  (search IGNORECASE_DOTALL (element_pattern "p") html = None ->
   extract_paragraphs html = Ok []) /\
  (search IGNORECASE_DOTALL (element_pattern "table") html = None ->
   extract_tables html = Ok []) /\
  (search IGNORECASE (list_pattern "Pros") html = None ->
   search IGNORECASE (list_pattern "Cons") html = None ->
   extract_pros_cons html = Ok ([], [])) /\
  (search no_flags slash_pattern html = None ->
   search no_flags out_of_pattern html = None ->
   extract_rating html = Ok None) /\
  (Forall (unmentioned (Str.lower html)) (platform_metadata self) ->
   detect_platform self html = Ok None).
Proof.
  split; [|split; [|split; [|split; [|split; [|split; [|split]]]]]].
  - split; [apply extract_headings_ok|].
    split; [apply extract_paragraphs_ok|].
    split; [destruct (extract_tables_ok html) as (tables & H & _); eauto|].
    split; [apply extract_pros_cons_ok|].
    split; [apply Ratings.extract_rating_ok|].
    split; [apply Ratings.extract_rating_raises|].
    intros headings; apply page_type_known.
  - intros Hcfg; split; [now apply detect_platform_ok|].
    intros Hs year; now apply convert_ok.
  - apply extract_headings_absent.
  - apply extract_paragraphs_absent.
  - apply extract_tables_absent.
  - intros Hp Hc; unfold extract_pros_cons, extract_list; now rewrite Hp, Hc.
  - intros H1 H2; unfold extract_rating, first_rating; now rewrite H1, H2.
  - intros H; now apply detect_platform_in_none.
Qed.

Lemma extraction_total_witness :
  extract_headings "" = Ok [] /\
  extract_paragraphs "<p>unclosed" = Ok [] /\
  extract_tables "<table><tr><td>" = Ok [] /\
  extract_pros_cons "" = Ok ([], []) /\
  extract_rating "" = Ok None /\
  detect_platform foo "" = Ok None /\
  (exists rating, extract_rating "Rated 9/10 in 2024" = Ok rating) /\
  (exists out, convert foo 2024 "<h1><p></table>" = Ok out) /\
  (ValueError = ValueError /\
   exists total,
     Str.Occurs total ("1/" ++ nines 4301) /\ all_digits total = true /\
     max_str_digits < length total).
Proof.
  destruct (extraction_total foo "") as (_ & _ & Hh & _ & _ & Hpc & Hr & Hk).
  destruct (extraction_total foo "<p>unclosed") as (_ & _ & _ & Hp & _).
  destruct (extraction_total foo "<table><tr><td>") as (_ & _ & _ & _ & Ht & _).
  destruct (extraction_total foo "<h1><p></table>") as (_ & Hconv & _).
  destruct (extraction_total foo "Rated 9/10 in 2024")
    as ((_ & _ & _ & _ & Hok & _) & _).
  destruct (extraction_total foo ("1/" ++ nines 4301))
    as ((_ & _ & _ & _ & _ & Hbad & _) & _).
  split; [apply Hh; intros lvl [<-|[<-|[<-|[]]]]; reflexivity|].
  split; [apply Hp; reflexivity|].
  split; [apply Ht; reflexivity|].
  split; [apply Hpc; reflexivity|].
  split; [apply Hr; reflexivity|].
  split.
  { apply Hk; constructor; [|constructor].
    exists "Foo Casino"; split; [reflexivity|].
    split; apply contains_false; reflexivity. }
  split; [apply Hok, short_text, Nat.leb_le; reflexivity|].
  split.
  { apply Hconv; [constructor; [discriminate | constructor]|].
    apply short_text, Nat.leb_le; reflexivity. }
  apply Hbad; vm_compute; reflexivity.
Defined.

(** C1 (as stated) fails: on a rating whose second number has 4301 digits
    [extract_rating], and with it [convert], raises ValueError. *)
Lemma extract_rating_long_total :
  extract_rating ("1/" ++ nines 4301) = Raise ValueError /\
  convert foo 2024 ("1/" ++ nines 4301) = Raise ValueError /\
  forall rating, extract_rating ("1/" ++ nines 4301) <> Ok rating.
Proof.
  assert (H : extract_rating ("1/" ++ nines 4301) = Raise ValueError)
    by (vm_compute; reflexivity).
  split; [exact H|]; split; [vm_compute; reflexivity|].
  intros rating; rewrite H; discriminate.
Qed.

End Totality.

(** ** Stars *)

Module Stars.

Import Re StrFacts ReFacts HTMLConverter Ratings Vocabulary.

Lemma append_times_spec (n : nat) (piece : string) :
  forall acc, append_times n piece acc = acc ++ append_times n piece "".
Proof.
  induction n as [|n IH]; intros acc; simpl.
  - now rewrite app_nil_r.
  - rewrite IH, (IH piece), app_assoc. reflexivity.
Qed.

Lemma count_filled (needle : string) (t : string) :
  needle = "<span" \/ needle = "star empty" ->
  count needle (filled_star ++ t)
  = (if String.eqb needle "<span" then 1 else 0) + count needle t.
Proof.
  intros [-> | ->]; reflexivity.
Qed.

Lemma count_empty (needle : string) (t : string) :
  needle = "<span" \/ needle = "star empty" ->
  count needle (empty_star ++ t) = 1 + count needle t.
Proof.
  intros [-> | ->]; reflexivity.
Qed.

Lemma append_times_succ (n : nat) (piece : string) :
  append_times (S n) piece "" = piece ++ append_times n piece "".
Proof. simpl. apply append_times_spec. Qed.

Lemma count_empty_run (needle : string) (e : nat) :
  needle = "<span" \/ needle = "star empty" ->
  count needle (append_times e empty_star "") = e.
Proof.
  intros H. induction e as [|e IH]; [destruct H as [-> | ->]; reflexivity|].
  rewrite append_times_succ, count_empty, IH by exact H. reflexivity.
Qed.

Lemma count_filled_run (needle t : string) (f : nat) :
  needle = "<span" \/ needle = "star empty" ->
  count needle (append_times f filled_star "" ++ t)
  = (if String.eqb needle "<span" then f else 0) + count needle t.
Proof.
  intros H. induction f as [|f IH]; [destruct H as [-> | ->]; reflexivity|].
  rewrite append_times_succ, app_assoc, count_filled, IH by exact H.
  destruct H as [-> | ->]; reflexivity.
Qed.

Lemma generate_stars_eq (rating_num : Q) (rating_total : Z) :
  generate_stars rating_num rating_total
  = append_times (Z.to_nat (int_of_float rating_num)) filled_star ""
    ++ append_times (Z.to_nat (rating_total - int_of_float rating_num)) empty_star "".
Proof. unfold generate_stars. apply append_times_spec. Qed.

Lemma count_stars (rating_num : Q) (rating_total : Z) :
  let filled := int_of_float rating_num in
  let html := generate_stars rating_num rating_total in
  count "<span" html = Z.to_nat filled + Z.to_nat (rating_total - filled) /\
  count "star empty" html = Z.to_nat (rating_total - filled).
Proof.
  intros filled html. unfold html. rewrite generate_stars_eq. split.
  - rewrite count_filled_run by now left.
    rewrite count_empty_run by now left. reflexivity.
  - rewrite count_filled_run by now right.
    rewrite count_empty_run by now right. reflexivity.
Qed.

(** X1: [generate_stars] emits one star element for each unit of the
    integer part of the rating, then one empty star for each unit the total
    exceeds it by, a negative number of either counting as none; so a
    rating whose integer part lies between 0 and the total gives exactly
    [rating_total] stars, and a rating above its total gives no empty star
    and as many stars as its integer part. *)
Theorem generate_stars_count (rating_num : Q) (rating_total : Z) :
  let filled := int_of_float rating_num in
  let html := generate_stars rating_num rating_total in
  count "<span" html = Z.to_nat filled + Z.to_nat (rating_total - filled) /\
  count "star empty" html = Z.to_nat (rating_total - filled) /\
  ((0 <= filled <= rating_total)%Z -> Z.of_nat (count "<span" html) = rating_total) /\
  ((rating_total <= filled)%Z ->
   count "star empty" html = 0 /\ count "<span" html = Z.to_nat filled).
Proof.
  intros filled html.
  destruct (count_stars rating_num rating_total) as [Hall Hempty].
  fold filled html in Hall, Hempty.
  split; [exact Hall|]. split; [exact Hempty|]. split.
  - intros H. rewrite Hall. lia.
  - intros H. rewrite Hall, Hempty. lia.
Qed.

Lemma generate_stars_count_witness :
  Z.of_nat (count "<span" (generate_stars (15 # 2) 10)) = 10%Z /\
  count "star empty" (generate_stars (15 # 2) 10) = 3 /\
  count "star empty" (generate_stars 12 10) = 0 /\
  count "<span" (generate_stars 12 10) = 12.
Proof.
  split; [apply (generate_stars_count (15 # 2) 10); vm_compute; split; discriminate|].
  split; [apply (generate_stars_count (15 # 2) 10)|].
  apply (generate_stars_count 12 10). vm_compute. discriminate.
Defined.












End Stars.

(** ** Headings *)

Module Headings.

Import Re StrFacts ReFacts Extraction HTMLConverter Vocabulary.

(** *** Matches come in the order of the text *)

Lemma finditer_from_ordered (fl : flags) (r : regex) (s : string) :
  forall pos skip,
  Forall (fun m => pos <= m_start m) (finditer_from fl r s pos skip) /\
  StronglySorted (fun a b => m_start a < m_start b) (finditer_from fl r s pos skip).
Proof.
  induction s as [|c s IH]; intros pos skip.
  - destruct skip; simpl; [|split; constructor].
    destruct (match_here fl r ""); split; repeat constructor.
  - assert (Hrest : forall n,
              Forall (fun m => S pos <= m_start m) (finditer_from fl r s (S pos) n) /\
              Forall (fun m => pos <= m_start m) (finditer_from fl r s (S pos) n))
      by (intros n; split; [apply IH|];
          eapply Forall_impl; [|apply (IH (S pos) n)]; simpl; intros; lia).
    destruct skip as [|n]; simpl.
    + destruct (match_here fl r (String c s)) as [res|].
      * split; constructor; simpl; try lia; try apply Hrest; apply IH.
      * split; [apply Hrest | apply IH].
    + split; [apply Hrest | apply IH].
Qed.

(** *** The sort *)

Lemma insert_perm (h : heading) (hs : list heading) :
  Permutation (insert_by_position h hs) (h :: hs).
Proof.
  induction hs as [|h' hs IH]; simpl; [reflexivity|].
  destruct (Nat.leb (position h) (position h')); [reflexivity|].
  rewrite IH. apply perm_swap.
Qed.

Lemma sorted_perm (hs : list heading) : Permutation (sorted_by_position hs) hs.
Proof.
  induction hs as [|h hs IH]; simpl; [reflexivity|].
  rewrite insert_perm. now constructor.
Qed.

Lemma insert_sorted (h : heading) (hs : list heading) :
  StronglySorted by_position hs -> StronglySorted by_position (insert_by_position h hs).
Proof.
  induction 1 as [|h' hs Hs IH Hall]; simpl; [repeat constructor|].
  destruct (Nat.leb (position h) (position h')) eqn:E.
  - apply Nat.leb_le in E. constructor; [now constructor|].
    constructor; [exact E|].
    eapply Forall_impl; [|exact Hall]. unfold by_position. intros; lia.
  - apply Nat.leb_gt in E. constructor; [exact IH|].
    eapply Permutation_Forall; [symmetry; apply insert_perm|].
    constructor; [unfold by_position; lia | exact Hall].
Qed.

Lemma sorted_sorted (hs : list heading) :
  StronglySorted by_position (sorted_by_position hs).
Proof.
  induction hs as [|h hs IH]; simpl; [constructor | now apply insert_sorted].
Qed.

Lemma filter_sorted {A : Type} (R : A -> A -> Prop) (p : A -> bool) (l : list A) :
  StronglySorted R l -> StronglySorted R (filter p l).
Proof.
  induction 1 as [|a l Hs IH Hall]; simpl; [constructor|].
  destruct (p a); [|exact IH]. constructor; [exact IH|].
  apply Forall_forall. intros x Hx. apply filter_In in Hx.
  rewrite Forall_forall in Hall. now apply Hall.
Qed.

Lemma filter_perm {A : Type} (p : A -> bool) (l l' : list A) :
  Permutation l l' -> Permutation (filter p l) (filter p l').
Proof.
  induction 1 as [|x l l' _ IH|x y l|l l' l'' _ IH1 _ IH2]; simpl.
  - constructor.
  - destruct (p x); [now constructor | exact IH].
  - destruct (p x), (p y); try reflexivity. apply perm_swap.
  - now transitivity (filter p l').
Qed.

(** A list in the order of the positions is the only arrangement of a
    list whose positions strictly increase. *)
Lemma sorted_unique (l1 : list heading) :
  forall l2,
  StronglySorted by_position l1 ->
  StronglySorted (fun a b => position a < position b) l2 ->
  Permutation l1 l2 -> l1 = l2.
Proof.
  induction l1 as [|a l1 IH]; intros l2 H1 H2 HP.
  - apply Permutation_nil in HP. now subst.
  - destruct l2 as [|b l2]; [symmetry in HP; now apply Permutation_nil in HP|].
    inversion H1 as [|? ? H1' Ha]; subst. inversion H2 as [|? ? H2' Hb]; subst.
    assert (E : a = b).
    { assert (Hin : In a (b :: l2)) by (eapply Permutation_in; [exact HP | now left]).
      destruct Hin as [E | Hin]; [now symmetry|].
      rewrite Forall_forall in Hb. apply Hb in Hin.
      assert (Hin' : In b (a :: l1))
        by (eapply Permutation_in; [symmetry; exact HP | now left]).
      destruct Hin' as [E | Hin']; [exact E|].
      rewrite Forall_forall in Ha. apply Ha in Hin'. unfold by_position in Hin'. lia. }
    subst b. f_equal. apply IH; [exact H1' | exact H2'|].
    now apply Permutation_cons_inv in HP.
Qed.

(** *** The headings *)

Lemma headings_loop (html lvl : string) (st : list heading) :
  for_each (finditer IGNORECASE_DOTALL (element_pattern lvl) html) st
    (fun headings m =>
       txt <- inner_text m ;;
       Ok (headings ++ [Heading lvl txt (m_start m)])%list)
  = Ok (st ++ headings_of lvl html)%list.
Proof.
  unfold headings_of. rewrite <- flat_map_single.
  apply for_each_flat with (Q := match_of IGNORECASE_DOTALL (element_pattern lvl)).
  - apply finditer_from_sound.
  - intros st' m Hm.
    rewrite (inner_text_eq _ _ m (group1_element lvl) Hm). reflexivity.
Qed.

Lemma extract_headings_eq (html : string) :
  extract_headings html
  = Ok (sorted_by_position
          (headings_of "h1" html ++ headings_of "h2" html ++ headings_of "h3" html)%list).
Proof.
  unfold extract_headings. cbn [for_each bind].
  rewrite headings_loop. cbn [bind]. rewrite headings_loop. cbn [bind].
  rewrite headings_loop. cbn [bind]. now rewrite <- List.app_assoc.
Qed.

Lemma headings_of_level (lvl lvl' html : string) :
  filter (has_level lvl) (headings_of lvl' html)
  = if String.eqb lvl' lvl then headings_of lvl' html else [].
Proof.
  unfold headings_of.
  induction (finditer IGNORECASE_DOTALL (element_pattern lvl') html) as [|m ms IH];
    simpl; [now destruct (String.eqb lvl' lvl)|].
  unfold has_level at 1. simpl. rewrite IH.
  now destruct (String.eqb lvl' lvl).
Qed.

Lemma headings_of_ordered (lvl html : string) :
  StronglySorted (fun a b => position a < position b) (headings_of lvl html).
Proof.
  unfold headings_of.
  destruct (finditer_from_ordered IGNORECASE_DOTALL (element_pattern lvl) html 0 0)
    as [_ H].
  unfold finditer.
  induction H as [|m ms Hs IH Hall]; simpl; [constructor|].
  constructor; [exact IH|].
  rewrite Forall_map. exact Hall.
Qed.

Lemma sorted_level (lvl html : string) :
  In lvl ["h1"; "h2"; "h3"] ->
  filter (has_level lvl)
    (sorted_by_position
       (headings_of "h1" html ++ headings_of "h2" html ++ headings_of "h3" html)%list)
  = headings_of lvl html.
Proof.
  intros Hl. apply sorted_unique.
  - apply filter_sorted, sorted_sorted.
  - apply headings_of_ordered.
  - rewrite (filter_perm _ _ _ (sorted_perm _)).
    rewrite !filter_app, !headings_of_level.
    destruct Hl as [<- | [<- | [<- | []]]]; simpl;
      rewrite ?List.app_nil_r; reflexivity.
Qed.

(** X3: [extract_headings] returns the headings in the order of their
    positions in the document, and for each of the levels h1, h2 and h3
    exactly one entry per match of that level's pattern, in document
    order, with the text of the match stripped of tags and trimmed; no
    entry has another level. *)
Theorem extract_headings_document_order (html : string) :
  exists headings,
    extract_headings html = Ok headings /\
    StronglySorted by_position headings /\
    (forall lvl, In lvl ["h1"; "h2"; "h3"] ->
       filter (has_level lvl) headings = headings_of lvl html) /\
    Forall (fun h => In (level h) ["h1"; "h2"; "h3"]) headings.
Proof.
  eexists. split; [apply extract_headings_eq|].
  split; [apply sorted_sorted|]. split; [intros lvl; apply sorted_level|].
  eapply Permutation_Forall; [symmetry; apply sorted_perm|].
  unfold headings_of. rewrite !Forall_app, !Forall_map.
  repeat split; apply Forall_forall; intros m _; simpl; auto.
Qed.

Lemma extract_headings_document_order_witness :
  filter (has_level "h2")
    (sorted_by_position
       (headings_of "h1" "<h2>a</h2><h1>b</h1><h2>c</h2>"
        ++ headings_of "h2" "<h2>a</h2><h1>b</h1><h2>c</h2>"
        ++ headings_of "h3" "<h2>a</h2><h1>b</h1><h2>c</h2>")%list)
  = [Heading "h2" "a" 0; Heading "h2" "c" 20].
Proof.
  destruct (extract_headings_document_order "<h2>a</h2><h1>b</h1><h2>c</h2>")
    as (hs & Hh & _ & Hl & _).
  rewrite extract_headings_eq in Hh. injection Hh as <-.
  rewrite Hl; [reflexivity | right; now left].
Defined.

End Headings.

(** ** Extracted texts *)

Module Texts.

Import Re StrFacts ReFacts Extraction HTMLConverter Rendering Vocabulary.

(** *** Trimming *)

Lemma rev_onto_spec (s : string) :
  forall acc, Str.rev_onto s acc = Str.rev s ++ acc.
Proof.
  unfold Str.rev. induction s as [|c s IH]; intros acc; simpl; [reflexivity|].
  rewrite IH, (IH (String c "")), app_assoc. reflexivity.
Qed.

Lemma rev_cons (c : ascii) (s : string) :
  Str.rev (String c s) = Str.rev s ++ String c "".
Proof. unfold Str.rev at 1. simpl. apply rev_onto_spec. Qed.

Lemma rev_app (a b : string) : Str.rev (a ++ b) = Str.rev b ++ Str.rev a.
Proof.
  induction a as [|c a IH]; simpl; [now rewrite app_nil_r|].
  now rewrite !rev_cons, IH, app_assoc.
Qed.

Lemma rev_involutive (s : string) : Str.rev (Str.rev s) = s.
Proof.
  induction s as [|c s IH]; [reflexivity|].
  now rewrite rev_cons, rev_app, IH.
Qed.

Lemma lstrip_head (s : string) : Str.head_is Char.is_space (Str.lstrip s) = false.
Proof.
  induction s as [|c s IH]; simpl; [reflexivity|].
  destruct (Char.is_space c) eqn:E; [exact IH | simpl; exact E].
Qed.

Lemma lstrip_suffix (s : string) : exists sp, s = sp ++ Str.lstrip s.
Proof.
  induction s as [|c s [sp IH]]; simpl; [now exists ""|].
  destruct (Char.is_space c); [|now exists ""].
  exists (String c sp). simpl. now rewrite <- IH.
Qed.

Lemma lstrip_keeps (c : ascii) (x y : string) :
  Char.is_space c = false ->
  Str.lstrip (x ++ String c y) = Str.lstrip x ++ String c y.
Proof.
  intros Hc. induction x as [|d x IH]; simpl; [now rewrite Hc|].
  destruct (Char.is_space d); [exact IH | reflexivity].
Qed.

Lemma rstrip_prefix (s : string) : exists sp, s = Str.rstrip s ++ sp.
Proof.
  unfold Str.rstrip. destruct (lstrip_suffix (Str.rev s)) as [sp E].
  exists (Str.rev sp). rewrite <- rev_app, <- E. now rewrite rev_involutive.
Qed.

Lemma strip_trimmed (s : string) : trimmed (Str.strip s).
Proof.
  unfold trimmed, Str.strip, Str.rstrip. split.
  - pose proof (lstrip_head s) as H.
    destruct (Str.lstrip s) as [|c t]; [reflexivity|]. simpl in H.
    rewrite rev_cons, lstrip_keeps, rev_app by exact H. simpl. exact H.
  - rewrite rev_involutive. apply lstrip_head.
Qed.

(** *** Tags *)

Lemma match_tag (s w : string) (cs : captures) :
  match_here no_flags tag_pattern s = Some (w, cs) ->
  exists y rest,
    y <> "" /\ tag_body y = true /\ w = "<" ++ y ++ ">" /\ s = w ++ rest.
Proof.
  intros H; apply match_here_sound in H as ([rest ->] & Hw & _).
  destruct Hw as (w1 & v1 & -> & H1 & y & w3 & -> & [Hy Hl] & H3).
  apply Ratings.lit_exact in H1 as ->; apply Ratings.lit_exact in H3 as ->.
  exists y, rest; repeat split; auto.
  intros ->; simpl in Hl; lia.
Qed.

Lemma tag_matches (s : string) :
  tag_at s -> exists res, match_here no_flags tag_pattern s = Some res.
Proof.
  intros (y & rest & Hne & Hy & ->).
  exists ("<" ++ y ++ ">", []); unfold match_here; simpl.
  apply rep_greedy_max; [exact Hy | reflexivity | now apply length_pos | reflexivity].
Qed.

(** The three ways the removal of tags can go at the head of a text. *)
Lemma tag_cases (s : string) :
  (s = "" /\ Re.sub no_flags tag_pattern "" s = "") \/
  (exists c s', s = String c s' /\ ~ tag_at s /\
                Re.sub no_flags tag_pattern "" s
                = String c (Re.sub no_flags tag_pattern "" s')) \/
  (exists y rest, y <> "" /\ tag_body y = true /\ s = "<" ++ y ++ ">" ++ rest /\
                  Re.sub no_flags tag_pattern "" s
                  = Re.sub no_flags tag_pattern "" rest).
Proof.
  destruct s as [|c s]; [left; split; reflexivity | right].
  unfold Re.sub; simpl.
  destruct (match_here no_flags tag_pattern (String c s)) as [[w cs]|] eqn:E.
  - right; apply match_tag in E as (y & rest & Hne & Hy & -> & E).
    exists y, rest.
    split; [exact Hne|]; split; [exact Hy|]; split;
      [rewrite E; simpl; now rewrite app_assoc|].
    simpl in E; injection E as -> ->.
    change (sub_from no_flags tag_pattern ""
              ((y ++ ">") ++ rest) (length (y ++ ">"))
            = sub_from no_flags tag_pattern "" rest 0).
    now rewrite sub_from_skip, drop_app.
  - left; exists c, s; split; [reflexivity|]; split; [|reflexivity].
    intros Ht. apply tag_matches in Ht as [res Ht]. congruence.
Qed.

Lemma tag_body_cons (c : ascii) (y : string) :
  tag_body (String c y) = negb (Ascii.eqb ">" c) && tag_body y.
Proof. unfold tag_body; simpl. now rewrite orb_false_r. Qed.

Lemma tag_body_app (a b : string) : tag_body (a ++ b) = tag_body a && tag_body b.
Proof.
  induction a as [|c a IH]; [reflexivity|].
  simpl. rewrite !tag_body_cons, IH. now rewrite andb_assoc.
Qed.

(** A run of tag text closed by a bracket in what is left was one in the
    text the tags were removed from. *)
Lemma body_back (n : nat) :
  forall s, length s <= n ->
  forall y post, y <> "" -> tag_body y = true ->
  Re.sub no_flags tag_pattern "" s = y ++ ">" ++ post ->
  exists y' post', y' <> "" /\ tag_body y' = true /\ s = y' ++ ">" ++ post'.
Proof.
  induction n as [|n IH]; intros s Hn y post Hne Hy E.
  - destruct s; [|simpl in Hn; lia]. destruct y; [congruence | discriminate].
  - destruct (tag_cases s) as [[-> E0] | [(c & s' & -> & _ & E0) | (y0 & rest & H0 & Hy0 & -> & _)]].
    + rewrite E0 in E. destruct y; [congruence | discriminate].
    + rewrite E0 in E. destruct y as [|d y2]; [congruence|].
      simpl in E. injection E as <- E.
      rewrite tag_body_cons in Hy. apply andb_true_iff in Hy as [Hc Hy2].
      destruct y2 as [|e y3].
      * simpl in E.
        destruct (tag_cases s') as [[-> E1] | [(c1 & s1 & -> & _ & E1) | (y1 & rest1 & H1 & Hy1 & -> & _)]].
        -- rewrite E1 in E. discriminate.
        -- rewrite E1 in E. injection E as -> _.
           exists (String c ""), s1. repeat split; [discriminate|].
           rewrite tag_body_cons, Hc. reflexivity.
        -- exists (String c ("<" ++ y1)), rest1. split; [discriminate|]. split.
           ++ rewrite tag_body_cons, Hc. simpl. rewrite tag_body_cons. exact Hy1.
           ++ simpl. now rewrite ?app_assoc.
      * destruct (IH s') with (y := String e y3) (post := post)
          as (y' & post' & Hne' & Hy' & ->);
          [simpl in Hn; lia | discriminate | exact Hy2 | exact E |].
        exists (String c y'), post'. split; [discriminate|]. split; [|reflexivity].
        rewrite tag_body_cons, Hc. exact Hy'.
    + exists ("<" ++ y0), rest. split; [discriminate|]. split.
      * simpl. rewrite tag_body_cons. exact Hy0.
      * simpl. now rewrite ?app_assoc.
Qed.

Lemma sub_no_tag (n : nat) :
  forall s, length s <= n -> no_tag (Re.sub no_flags tag_pattern "" s).
Proof.
  induction n as [|n IH]; intros s Hn pre suf E Ht.
  - destruct s; [|simpl in Hn; lia].
    destruct pre; [|discriminate]. simpl in E. subst suf.
    destruct Ht as (y & rest & _ & _ & Ht). discriminate.
  - destruct (tag_cases s) as [[-> E0] | [(c & s' & -> & Hno & E0) | (y0 & rest & H0 & Hy0 & -> & E0)]].
    + rewrite E0 in E. destruct pre; [|discriminate]. simpl in E. subst suf.
      destruct Ht as (y & rest & _ & _ & Ht). discriminate.
    + rewrite E0 in E. destruct pre as [|d pre].
      * simpl in E. subst suf. destruct Ht as (y & rest & Hne & Hy & Ht).
        simpl in Ht. injection Ht as -> Ht.
        destruct (body_back (length s') s' (le_n _) y rest Hne Hy Ht)
          as (y' & post' & Hne' & Hy' & ->).
        apply Hno. now exists y', post'.
      * simpl in E. injection E as <- E.
        apply (IH s' ltac:(simpl in Hn; lia) pre suf E Ht).
    + rewrite E0 in E.
      apply (IH rest) with (pre := pre) (suf := suf); [|exact E | exact Ht].
      simpl in Hn. rewrite !length_app in Hn. simpl in Hn. lia.
Qed.

Lemma no_tag_free (t : string) : no_tag t -> tag_free t.
Proof.
  unfold tag_free, search. generalize 0 as pos.
  induction t as [|c t IH]; intros pos H; [reflexivity|].
  assert (H0 : match_here no_flags tag_pattern (String c t) = None).
  { destruct (match_here no_flags tag_pattern (String c t)) as [[w cs]|] eqn:E;
      [|reflexivity].
    apply match_tag in E as (y & rest & Hne & Hy & -> & E).
    exfalso. apply (H "" (String c t) eq_refl).
    exists y, rest. repeat split; auto. rewrite E. simpl. now rewrite ?app_assoc. }
  change (match match_here no_flags tag_pattern (String c t) with
          | Some res => Some (mk_match pos res)
          | None => search_from no_flags tag_pattern t (S pos)
          end = None).
  rewrite H0; apply IH.
  intros pre suf ->; apply (H (String c pre)); reflexivity.
Qed.

Lemma tag_at_app (s t : string) : tag_at s -> tag_at (s ++ t).
Proof.
  intros (y & rest & Hne & Hy & ->). exists y, (rest ++ t).
  repeat split; auto. simpl. now rewrite !app_assoc.
Qed.

Lemma strip_no_tag (t : string) : no_tag t -> no_tag (Str.strip t).
Proof.
  intros H pre suf E Ht. unfold Str.strip in E.
  destruct (lstrip_suffix t) as [sp1 E1].
  destruct (rstrip_prefix (Str.lstrip t)) as [sp2 E2].
  apply (H (sp1 ++ pre) (suf ++ sp2)); [|now apply tag_at_app].
  rewrite E1 at 1. rewrite E2 at 1. rewrite E. now rewrite !app_assoc.
Qed.

Lemma clean_text (body : string) :
  clean (Str.strip (Re.sub no_flags tag_pattern "" body)).
Proof.
  split; [|apply strip_trimmed].
  apply no_tag_free, strip_no_tag, (sub_no_tag (length body)), le_n.
Qed.

Lemma inner_text_clean (m : mobj) (txt : string) :
  inner_text m = Ok txt -> clean txt.
Proof.
  unfold inner_text, bind. destruct (group_str 1 m); [|discriminate].
  intros [= <-]. apply clean_text.
Qed.

Lemma text_of_clean (m : mobj) : clean (text_of m).
Proof. apply clean_text. Qed.

Lemma extract_paragraphs_eq (html : string) :
  extract_paragraphs html
  = Ok (filter meaningful
          (List.map text_of (finditer IGNORECASE_DOTALL (element_pattern "p") html))).
Proof.
  unfold extract_paragraphs. rewrite <- flat_map_keep.
  refine (for_each_flat (match_of IGNORECASE_DOTALL (element_pattern "p")) _ _ _ _ _ []).
  - apply finditer_from_sound.
  - intros st m Hm.
    rewrite (inner_text_eq _ _ m (group1_element "p") Hm). cbn [bind].
    unfold meaningful. destruct (text_of m) as [|c t]; simpl.
    + now rewrite List.app_nil_r.
    + destruct (Nat.ltb 10 (S (length t))); [reflexivity | now rewrite List.app_nil_r].
Qed.

Lemma extract_list_clean (label html : string) (items : list string) :
  extract_list label html = Ok items -> Forall clean items.
Proof.
  unfold extract_list.
  destruct (search IGNORECASE (list_pattern label) html) as [m|];
    [|intros [= <-]; constructor].
  unfold bind. destruct (group_str 1 m) as [block|]; [|discriminate].
  intros H. apply Lists.collect_spec in H as (new & -> & H). simpl.
  induction H as [|li txt lis txts Hli _ IH]; constructor; [|exact IH].
  now apply inner_text_clean with li.
Qed.

(** X4: every text the extraction returns, the text of a heading, a
    paragraph, a table cell, a pro or a con, has no tag left in it (the tag
    pattern finds no match) and neither begins nor ends with white
    space. *)
Theorem extracted_text_clean (html : string) :
  (forall headings, extract_headings html = Ok headings ->
     Forall (fun h => clean (text h)) headings) /\
  (forall paragraphs, extract_paragraphs html = Ok paragraphs ->
     Forall clean paragraphs) /\
  (forall tables, extract_tables html = Ok tables ->
     Forall (fun t => Forall (Forall clean) (rows t)) tables) /\
  (forall pros cons, extract_pros_cons html = Ok (pros, cons) ->
     Forall clean pros /\ Forall clean cons).
Proof.
  split; [|split; [|split]].
  - intros headings. rewrite Headings.extract_headings_eq. intros [= <-].
    eapply Permutation_Forall; [symmetry; apply Headings.sorted_perm|].
    unfold headings_of. rewrite !Forall_app, !Forall_map.
    repeat split; apply Forall_forall; intros m _; apply text_of_clean.
  - intros paragraphs. rewrite extract_paragraphs_eq. intros [= <-].
    apply Forall_forall. intros p Hp. apply filter_In in Hp as [Hp _].
    apply in_map_iff in Hp as (m & <- & _). apply text_of_clean.
  - intros tables. rewrite extract_tables_eq. intros [= <-].
    apply Forall_forall. intros t Ht.
    apply in_flat_map in Ht as (tm & _ & Ht). unfold table_of in Ht.
    destruct (rows_of tm) as [|row0 others] eqn:E; [contradiction|].
    destruct Ht as [<- | []]. simpl. rewrite <- E.
    apply Forall_forall. intros row Hrow. unfold rows_of in Hrow.
    apply filter_In in Hrow as [Hrow _].
    apply in_map_iff in Hrow as (rm & <- & _). unfold cells_of.
    rewrite Forall_map. apply Forall_forall. intros m _. apply text_of_clean.
  - intros pros cons. unfold extract_pros_cons, bind.
    destruct (extract_list "Pros" html) as [ps|] eqn:Ep; [|discriminate].
    destruct (extract_list "Cons" html) as [cs|] eqn:Ec; [|discriminate].
    intros [= <- <-]. split; eapply extract_list_clean; eassumption.
Qed.

Lemma extracted_text_clean_witness :
  Forall clean ["A bold claim: 1 < 2"; "Second paragraph, with a tag"].
Proof.
  apply (extracted_text_clean
           ("<p> <b>A</b> bold <<i>claim</i>: 1 < 2 </p><P>short</P>"
            ++ "<p>Second <em>paragraph</em>, with a tag</p>")).
  vm_compute. reflexivity.
Defined.

(** X5: [extract_paragraphs] returns, in document order, the texts of the
    <p> elements that have more than ten characters once their tags are
    removed and they are trimmed; so every paragraph it returns has at
    least eleven characters, and a document whose paragraphs are all
    shorter gives none. *)
Theorem extract_paragraphs_meaningful (html : string) :
  let texts :=
    List.map text_of (finditer IGNORECASE_DOTALL (element_pattern "p") html) in
  extract_paragraphs html = Ok (filter meaningful texts) /\
  Forall (fun p => 11 <= length p) (filter meaningful texts) /\
  (Forall (fun t => length t <= 10) texts -> extract_paragraphs html = Ok []).
Proof.
  intros texts. split; [apply extract_paragraphs_eq|]. split.
  - apply Forall_forall. intros p Hp. apply filter_In in Hp as [_ Hp].
    unfold meaningful in Hp. now apply Nat.ltb_lt in Hp.
  - intros H. rewrite extract_paragraphs_eq. fold texts. f_equal.
    induction H as [|t ts Ht _ IH]; [reflexivity|]. simpl.
    unfold meaningful at 1.
    destruct (Nat.ltb_spec 10 (length t)); [lia | exact IH].
Qed.

Lemma extract_paragraphs_meaningful_witness :
  extract_paragraphs "<p>Too short.</p><p> <b>Hi</b> there </p>" = Ok [].
Proof.
  apply (extract_paragraphs_meaningful "<p>Too short.</p><p> <b>Hi</b> there </p>").
  vm_compute. repeat constructor.
Defined.

End Texts.

(** ** The page *)

Module Page.

Import Re StrFacts ReFacts Extraction HTMLConverter Rendering Vocabulary.

(** *** Text without braces *)

Lemma brace_free_app (a b : string) :
  brace_free (a ++ b) <-> brace_free a /\ brace_free b.
Proof.
  unfold brace_free. induction a as [|c a IH]; simpl; [tauto|].
  rewrite !andb_true_iff, IH. tauto.
Qed.

Lemma replace_plain_from (old new a t : string) :
  brace_free a ->
  Str.replace (String "{" old) new (a ++ t)
  = a ++ Str.replace (String "{" old) new t.
Proof.
  unfold brace_free, Str.replace. induction a as [|c a IH]; intros H; [reflexivity|].
  simpl in H. apply andb_true_iff in H as [Hc Ha].
  unfold not_brace in Hc. apply negb_true_iff in Hc.
  cbn [append Str.replace_from]. unfold Str.starts_with.
  cbn [Str.after_prefix]. rewrite Ascii.eqb_sym, Hc.
  now rewrite IH.
Qed.

Lemma replace_plain (key new a t : string) :
  brace_free a ->
  Str.replace ("{{" ++ key ++ "}}") new (a ++ t)
  = a ++ Str.replace ("{{" ++ key ++ "}}") new t.
Proof. apply replace_plain_from. Qed.

Lemma replace_nil (old new : string) : Str.replace old new "" = "".
Proof. reflexivity. Qed.

Lemma fill_plain (data : list (string * value)) (a : string) :
  brace_free a -> forall t, fill data (a ++ t) = a ++ fill data t.
Proof.
  intros Ha. induction data as [|[key v] data IH]; intros t; [reflexivity|].
  simpl. rewrite <- IH. f_equal. now apply replace_plain.
Qed.

Lemma fill_nil (data : list (string * value)) : fill data "" = "".
Proof. induction data as [|[key v] data IH]; [reflexivity | exact IH]. Qed.

Lemma placeholder_not_brace (c : ascii) (x : string) :
  not_brace c = true -> match_here no_flags placeholder_pattern (String c x) = None.
Proof.
  unfold not_brace. intros H. apply negb_true_iff in H.
  unfold match_here, placeholder_pattern. cbn [cat run lit].
  unfold char_eq. cbn [ignorecase no_flags].
  now rewrite Ascii.eqb_sym, H.
Qed.

Lemma strip_plain (a t : string) :
  brace_free a -> strip_tokens (a ++ t) = a ++ strip_tokens t.
Proof.
  unfold brace_free, strip_tokens. induction a as [|c a IH]; intros H; [reflexivity|].
  simpl in H. apply andb_true_iff in H as [Hc Ha].
  cbn [append sub_from]. rewrite (placeholder_not_brace c (a ++ t) Hc).
  now rewrite IH.
Qed.

(** X6: [render_template] leaves the text before the first opening brace
    of the template as it is, whatever the data; a template without an
    opening brace is returned unchanged. *)
Theorem render_template_keeps_plain (a t : string) (data : list (string * value)) :
  brace_free a ->
  render_template (a ++ t) data = a ++ render_template t data /\
  render_template a data = a.
Proof.
  intros Ha. unfold render_template, Re.sub.
  assert (E : forall t', sub_from no_flags placeholder_pattern "" (fill data (a ++ t')) 0
                         = a ++ sub_from no_flags placeholder_pattern "" (fill data t') 0).
  { intros t'. rewrite fill_plain by exact Ha. now apply strip_plain. }
  split; [apply E|].
  rewrite <- (app_nil_r a) at 1. rewrite E, fill_nil. simpl. apply app_nil_r.
Qed.

Lemma render_template_keeps_plain_witness :
  render_template ("<title>Reviews } 2024</title>" ++ "{{title}}") [("title", VStr "X")]
  = "<title>Reviews } 2024</title>" ++ render_template "{{title}}" [("title", VStr "X")].
Proof.
  apply (render_template_keeps_plain "<title>Reviews } 2024</title>" "{{title}}"
           [("title", VStr "X")]).
  reflexivity.
Defined.

(** *** The grid of pros and cons *)

Lemma brace_free_items (items : list string) :
  Forall brace_free items ->
  brace_free (Str.join (nl ++ spaces 12) (List.map (fun x => "<li>" ++ x ++ "</li>") items)).
Proof.
  induction 1 as [|x l Hx Hl IH]; [reflexivity|].
  assert (Hli : brace_free ("<li>" ++ x ++ "</li>")).
  { apply brace_free_app; split; [reflexivity|].
    apply brace_free_app; split; [exact Hx | reflexivity]. }
  destruct l as [|y l]; [exact Hli|].
  change (brace_free (("<li>" ++ x ++ "</li>") ++ (nl ++ spaces 12)
                      ++ Str.join (nl ++ spaces 12)
                           (List.map (fun x => "<li>" ++ x ++ "</li>") (y :: l)))).
  apply brace_free_app; split; [exact Hli|].
  apply brace_free_app; split; [reflexivity | exact IH].
Qed.

Lemma replace_brace_free (old new a : string) :
  brace_free a -> Str.replace (String "{" old) new a = a.
Proof.
  intros Ha. rewrite <- (app_nil_r a) at 1.
  rewrite replace_plain_from by exact Ha. apply app_nil_r.
Qed.

Lemma pros_over_cons (new c : string) :
  Str.replace "{{pros_items}}" new ("{{cons_items}}" ++ c)
  = "{{cons_items}}" ++ Str.replace "{{pros_items}}" new c.
Proof. reflexivity. Qed.

(** X7: with a component that is plain text around the slot of the pros
    followed by the slot of the cons, and pros without an opening brace,
    [build_pros_cons_html] returns the component with each slot holding its
    items, every one inside its own <li> element, in the order given and
    separated by a line break and twelve spaces. *)
Theorem build_pros_cons_html_fills (self : converter) (a b c : string)
    (pros cons : list string) :
  load_component self "pros-cons.html"
  = a ++ "{{pros_items}}" ++ b ++ "{{cons_items}}" ++ c ->
  brace_free a -> brace_free b -> brace_free c ->
  Forall brace_free pros ->
  build_pros_cons_html self pros cons
  = a ++ Str.join (nl ++ spaces 12) (List.map (fun x => "<li>" ++ x ++ "</li>") pros)
      ++ b ++ Str.join (nl ++ spaces 12) (List.map (fun x => "<li>" ++ x ++ "</li>") cons)
      ++ c.
Proof.
  intros E Ha Hb Hc Hpros. unfold build_pros_cons_html. rewrite E.
  set (ps := Str.join _ (List.map _ pros)).
  set (cs := Str.join _ (List.map _ cons)).
  assert (Hps : brace_free ps) by now apply brace_free_items.
  rewrite (replace_plain_from _ ps a) by exact Ha.
  rewrite (replace_hit _ ps) by discriminate.
  rewrite (replace_plain_from _ ps b) by exact Hb.
  rewrite pros_over_cons.
  rewrite (replace_brace_free _ ps c) by exact Hc.
  rewrite (replace_plain_from _ cs a) by exact Ha.
  rewrite (replace_plain_from _ cs ps) by exact Hps.
  rewrite (replace_plain_from _ cs b) by exact Hb.
  rewrite (replace_hit _ cs) by discriminate.
  rewrite (replace_brace_free _ cs c) by exact Hc.
  reflexivity.
Qed.

Lemma build_pros_cons_html_fills_witness :
  build_pros_cons_html foo ["Fast"; "Safe"] ["Slow {{x}}"]
  = "<ul>" ++ "<li>Fast</li>" ++ nl ++ spaces 12 ++ "<li>Safe</li>"
    ++ "</ul><ul>" ++ "<li>Slow {{x}}</li>" ++ "</ul>".
Proof.
  apply (build_pros_cons_html_fills foo "<ul>" "</ul><ul>" "</ul>"
           ["Fast"; "Safe"] ["Slow {{x}}"]);
    try reflexivity.
  repeat constructor.
Defined.

(** *** The placeholder map *)

(** What [convert] has extracted, and the entries it has given the map,
    when it reaches the rendering. *)
Lemma template_data_eq (self : converter) (year : Z) (html tpl : string)
    (data : list (string * value)) :
  template_data self year html = Ok (tpl, data) ->
  exists headings paragraphs tables pros cons key,
    extract_headings html = Ok headings /\
    extract_paragraphs html = Ok paragraphs /\
    extract_tables html = Ok tables /\
    extract_pros_cons html = Ok (pros, cons) /\
    detect_platform self html = Ok key /\
    tpl = load_template self (detect_page_type html headings ++ ".html") /\
    get "title" data
    = Some (VStr match find (has_level "h1") headings with
                 | Some h => text h
                 | None => convert_platform_name self key ++ " Review"
                 end) /\
    get "meta_description" data
    = Some (VStr match paragraphs with p0 :: _ => Str.take 155 p0 | [] => "" end) /\
    get "intro_paragraph_1" data = Some (VStr (nth 0 paragraphs "")) /\
    get "intro_paragraph_2" data = Some (VStr (nth 1 paragraphs "")) /\
    get "pros_cons_grid" data
    = Some (VStr (if is_nil pros && is_nil cons then coming_soon
                  else build_pros_cons_html self pros cons)) /\
    get "cta_button" data
    = Some (VStr match truthy_key key with
                 | Some k => build_cta_button self k
                 | None => ""
                 end).
Proof.
  unfold template_data.
  destruct (extract_headings html) as [headings|]; [simpl|discriminate].
  destruct (extract_paragraphs html) as [paragraphs|]; [simpl|discriminate].
  destruct (extract_tables html) as [tables|]; [simpl|discriminate].
  destruct (extract_pros_cons html) as [[pros cons]|]; [simpl|discriminate].
  destruct (detect_platform self html) as [key|]; [simpl|discriminate].
  destruct (extract_rating html) as [rating|]; [simpl|discriminate].
  intros [= <- <-]; exists headings, paragraphs, tables, pros, cons, key.
  repeat split; reflexivity.
Qed.

Lemma find_filter {A : Type} (p : A -> bool) (l : list A) :
  find p l = hd_error (filter p l).
Proof.
  induction l as [|a l IH]; [reflexivity|]. simpl. now destruct (p a).
Qed.

(** the first match [finditer] gives is the match [search] finds *)
Lemma finditer_first (fl : flags) (r : regex) (s : string) :
  forall pos, hd_error (finditer_from fl r s pos 0) = search_from fl r s pos.
Proof.
  induction s as [|c s IH]; intros pos; simpl.
  - now destruct (match_here fl r "").
  - destruct (match_here fl r (String c s)); [reflexivity | apply IH].
Qed.

(** X8: the title [convert] gives the page is the text, tags removed and
    trimmed, of the first <h1> element of the document, and without such
    an element the platform name followed by Review. *)
Theorem convert_title (self : converter) (year : Z) (html tpl : string)
    (data : list (string * value)) :
  template_data self year html = Ok (tpl, data) ->
  exists key,
    detect_platform self html = Ok key /\
    get "title" data
    = Some (VStr match search IGNORECASE_DOTALL (element_pattern "h1") html with
                 | Some m => text_of m
                 | None => convert_platform_name self key ++ " Review"
                 end).
Proof.
  intros H. apply template_data_eq in H
    as (headings & ps & ts & pros & cons & key & Hh & _ & _ & _ & Hk & _ & Ht & _).
  exists key. split; [exact Hk|]. rewrite Ht. do 2 f_equal.
  rewrite Headings.extract_headings_eq in Hh. injection Hh as <-.
  rewrite find_filter, (Headings.sorted_level "h1") by (now left).
  unfold headings_of, search, finditer.
  rewrite <- finditer_first.
  now destruct (finditer_from IGNORECASE_DOTALL (element_pattern "h1") html 0 0).
Qed.

Lemma convert_title_witness :
  exists tpl data,
    template_data foo 2024 "<h2>Intro</h2><h1> The <b>Foo</b> story </h1><h1>Other</h1>"
    = Ok (tpl, data) /\
    get "title" data = Some (VStr "The Foo story").
Proof.
  assert (H : exists td,
            template_data foo 2024
              "<h2>Intro</h2><h1> The <b>Foo</b> story </h1><h1>Other</h1>" = Ok td)
    by (eexists; vm_compute; reflexivity).
  destruct H as [[tpl data] H]. exists tpl, data. split; [exact H|].
  destruct (convert_title foo 2024 _ tpl data H) as (key & _ & Ht).
  rewrite Ht. vm_compute. reflexivity.
Defined.

Lemma length_take (n : nat) (s : string) : length (Str.take n s) = Nat.min n (length s).
Proof.
  revert s. induction n as [|n IH]; intros [|c s]; simpl; try reflexivity.
  now rewrite IH.
Qed.

Lemma take_all (n : nat) (s : string) : length s <= n -> Str.take n s = s.
Proof.
  revert s. induction n as [|n IH]; intros [|c s] H; simpl in *; try reflexivity.
  - lia.
  - rewrite IH; [reflexivity | lia].
Qed.

(** X9: the meta description [convert] gives the page is the first 155
    characters of the first paragraph it has extracted, which is also the
    first intro paragraph: at most 155 characters, a prefix of that
    paragraph, the whole of it when it is no longer than that, and empty
    when the document has no paragraph. *)
Theorem convert_meta_description (self : converter) (year : Z) (html tpl : string)
    (data : list (string * value)) :
  template_data self year html = Ok (tpl, data) ->
  exists paragraphs description,
    extract_paragraphs html = Ok paragraphs /\
    get "intro_paragraph_1" data = Some (VStr (nth 0 paragraphs "")) /\
    get "intro_paragraph_2" data = Some (VStr (nth 1 paragraphs "")) /\
    get "meta_description" data = Some (VStr description) /\
    length description <= 155 /\
    (exists rest, nth 0 paragraphs "" = description ++ rest) /\
    (length (nth 0 paragraphs "") <= 155 -> description = nth 0 paragraphs "") /\
    (paragraphs = [] -> description = "").
Proof.
  intros H. apply template_data_eq in H
    as (hs & ps & ts & pros & cons & key & _ & Hp & _ & _ & _ & _ & _ & Hm & H1 & H2 & _).
  exists ps, (Str.take 155 (nth 0 ps "")).
  split; [exact Hp|]. split; [exact H1|]. split; [exact H2|]. split.
  { rewrite Hm. now destruct ps. }
  split; [rewrite length_take; lia|].
  split; [exists (Str.drop 155 (nth 0 ps "")); now rewrite take_drop|].
  split; [apply take_all | now intros ->].
Qed.

Lemma convert_meta_description_witness :
  exists tpl data,
    template_data foo 2024 "<p>Foo is a casino with many games.</p>" = Ok (tpl, data) /\
    get "meta_description" data = Some (VStr "Foo is a casino with many games.").
Proof.
  assert (H : exists td,
            template_data foo 2024 "<p>Foo is a casino with many games.</p>" = Ok td)
    by (eexists; vm_compute; reflexivity).
  destruct H as [[tpl data] H]. exists tpl, data. split; [exact H|].
  destruct (convert_meta_description foo 2024 _ tpl data H)
    as (ps & d & Hp & _ & _ & Hm & _ & _ & Hall & _).
  assert (E : ps = ["Foo is a casino with many games."])
    by (vm_compute in Hp; congruence).
  subst ps. rewrite Hm, Hall; [reflexivity|].
  simpl. lia.
Defined.

(** X10: what [convert] puts in the place of a component it cannot
    build: the grid of pros and cons is the coming-soon paragraph when the
    document has neither a Pros nor a Cons list; the quick facts are the
    coming-soon paragraph unless the first table extracted has two columns,
    whatever the later tables are; the button is empty when no platform is
    detected, when the detected key is the empty text, and when the key has
    no affiliate link. *)
Theorem convert_fallbacks (self : converter) (year : Z) (html tpl : string)
    (data : list (string * value)) :
  template_data self year html = Ok (tpl, data) ->
  (search IGNORECASE (list_pattern "Pros") html = None ->
   search IGNORECASE (list_pattern "Cons") html = None ->
   get "pros_cons_grid" data = Some (VStr coming_soon)) /\
  (forall tables,
     extract_tables html = Ok tables ->
     hd_error (List.map columns tables) <> Some 2 ->
     get "quick_facts_table" data = Some (VStr coming_soon)) /\
  (forall key,
     detect_platform self html = Ok key ->
     match key with
     | Some k => k = "" \/ get k (affiliate_links self) = None
     | None => True
     end ->
     get "cta_button" data = Some (VStr "")).
Proof.
  intros H. pose proof (Pipeline.template_data_inv _ _ _ _ _ H)
    as (ts' & key' & Ht' & _ & _ & Hq).
  apply template_data_eq in H
    as (hs & ps & ts & pros & cons & key & _ & _ & _ & Hpc & Hk & _ & _ & _ & _ & _ & Hg & Hc).
  split; [|split].
  - intros Hpros Hcons. rewrite Hg.
    unfold extract_pros_cons, extract_list in Hpc. rewrite Hpros, Hcons in Hpc.
    simpl in Hpc. now injection Hpc as <- <-.
  - intros tables Ht Hcol. rewrite Ht in Ht'. injection Ht' as <-. rewrite Hq.
    destruct tables as [|t0 rest]; [reflexivity|]. simpl in Hcol.
    destruct (Nat.eqb_spec (columns t0) 2) as [E|_]; [|reflexivity].
    now rewrite E in Hcol.
  - intros k Hk' Hcase. rewrite Hk in Hk'. injection Hk' as <-. rewrite Hc.
    destruct key as [k|]; [|reflexivity].
    destruct Hcase as [-> | Hnone]; [reflexivity|].
    destruct k; [reflexivity|]. simpl. unfold build_cta_button. now rewrite Hnone.
Qed.

Lemma convert_fallbacks_witness :
  exists tpl data,
    template_data stake 2024
      ("<table><tr><td>only</td></tr></table>"
       ++ "<table><tr><td>Bonus</td><td>100%</td></tr></table>") = Ok (tpl, data) /\
    get "pros_cons_grid" data = Some (VStr coming_soon) /\
    get "quick_facts_table" data = Some (VStr coming_soon) /\
    get "cta_button" data = Some (VStr "").
Proof.
  assert (H : exists td,
            template_data stake 2024
              ("<table><tr><td>only</td></tr></table>"
               ++ "<table><tr><td>Bonus</td><td>100%</td></tr></table>") = Ok td)
    by (eexists; vm_compute; reflexivity).
  destruct H as [[tpl data] H]. exists tpl, data. split; [exact H|].
  destruct (convert_fallbacks stake 2024 _ tpl data H) as (Hg & Hq & Hc).
  split; [apply Hg; vm_compute; reflexivity|].
  split; [eapply Hq; [vm_compute; reflexivity | vm_compute; discriminate]|].
  eapply Hc; [vm_compute; reflexivity | exact I].
Defined.

(** X11: when the templates hold no file for any of the three page
    types, the output of [convert] is empty whenever it returns; and it
    returns, for a configuration whose platforms all carry a name, on
    every document that has no run of more than 4300 digits. *)
Theorem convert_missing_template (self : converter) (year : Z) (html : string) :
  (forall page_type,
     In page_type ["casino-review"; "sportsbook-review"; "crypto-comparison"] ->
     get (page_type ++ ".html") (template_files self) = None) ->
  (forall out, convert self year html = Ok out -> out = "") /\
  (all_named (platform_metadata self) -> short_digits html ->
   convert self year html = Ok "").
Proof.
  intros Hnone.
  assert (H : forall out, convert self year html = Ok out -> out = "").
  { intros out Hout. unfold convert, bind in Hout.
    destruct (template_data self year html) as [[tpl data]|] eqn:E; [|discriminate].
    injection Hout as <-. simpl.
    apply template_data_eq in E as (hs & _ & _ & _ & _ & _ & _ & _ & _ & _ & _ & -> & _).
    unfold load_template.
    rewrite (Hnone _ (Totality.page_type_known html hs)).
    unfold render_template. now rewrite fill_nil. }
  split; [exact H|]. intros Hcfg Hs.
  destruct (Totality.convert_ok self year html Hcfg Hs) as [out Hout].
  rewrite Hout. f_equal. now apply H.
Qed.

Lemma convert_missing_template_witness :
  convert stake 2024 "<h1>Stake casino review</h1>" = Ok "".
Proof.
  apply (convert_missing_template stake 2024 "<h1>Stake casino review</h1>").
  - intros page_type H. simpl in H.
    destruct H as [<- | [<- | [<- | []]]]; reflexivity.
  - repeat constructor. discriminate.
  - apply Totality.short_text, Nat.leb_le. reflexivity.
Defined.

End Page.

(** ** The highlighted cell *)

Module Highlight.

Import Str StrFacts Extraction HTMLConverter Fragments Vocabulary.









End Highlight.

(** ** Detection of the platform *)

Module Detection.

Import Str StrFacts Extraction HTMLConverter Platforms Vocabulary.

(** X12: [detect_platform] returns the key of the first entry of the
    platform metadata, in the order of the file, whose lower-cased name or
    whose key as written occurs in the lower-cased document; the entries
    before it are not mentioned. *)
Theorem detect_platform_first_match (self : converter) (html key : string) :
  detect_platform self html = Ok (Some key) <->
  exists before md name after,
    platform_metadata self = (before ++ (key, md) :: after)%list /\
    Forall (unmentioned (lower html)) before /\
    md_name md = Some name /\
    (Occurs (lower name) (lower html) \/ Occurs key (lower html)).
Proof. apply detect_platform_in_some. Qed.

Lemma detect_platform_first_match_witness :
  detect_platform
    (Converter [] [("bar", Metadata (Some "Bar Bets")); ("foo", Metadata (Some "Foo Casino"));
                   ("win", Metadata (Some "Win Palace"))] None [] [])
    "WIN PALACE beats FOO CASINO" = Ok (Some "foo").
Proof.
  apply detect_platform_first_match.
  exists [("bar", Metadata (Some "Bar Bets"))], (Metadata (Some "Foo Casino")),
         "Foo Casino", [("win", Metadata (Some "Win Palace"))].
  split; [reflexivity|]. split.
  - constructor; [|constructor]. exists "Bar Bets". split; [reflexivity|].
    split; apply contains_false; reflexivity.
  - split; [reflexivity|]. left. apply contains_spec. reflexivity.
Defined.

(** X13: an entry of the platform metadata without a name makes
    [detect_platform], and with it [convert], raise KeyError on every
    document that mentions none of the entries before it, whether or not
    the document mentions the key of that entry. *)
Theorem detect_platform_missing_name (self : converter) (year : Z)
    (html key : string) (md : metadata) (before after : list (string * metadata)) :
  platform_metadata self = (before ++ (key, md) :: after)%list ->
  md_name md = None ->
  Forall (unmentioned (lower html)) before ->
  detect_platform self html = Raise KeyError /\
  convert self year html = Raise KeyError.
Proof.
  intros E Hmd Hb.
  assert (H : detect_platform self html = Raise KeyError)
    by (unfold detect_platform; rewrite E; now apply detect_platform_in_raises).
  split; [exact H|]. unfold convert, template_data.
  destruct (extract_headings_ok html) as (headings & ->).
  destruct (extract_paragraphs_ok html) as (paragraphs & ->).
  destruct (extract_tables_ok html) as (tables & -> & _).
  destruct (Totality.extract_pros_cons_ok html) as (pros & cons & ->).
  simpl. now rewrite H.
Qed.

Lemma detect_platform_missing_name_witness :
  detect_platform unnamed "a page about nothing" = Raise KeyError /\
  convert unnamed 2024 "a page about nothing" = Raise KeyError.
Proof.
  apply (detect_platform_missing_name unnamed 2024 "a page about nothing"
           "foo" (Metadata None) [] []); [reflexivity | reflexivity | constructor].
Defined.

End Detection.

(** ** Rows of the quick facts *)

Module Rows.

Import Str StrFacts HTMLConverter Fragments Vocabulary.

Lemma emitted_wide (rws : list (list string)) :
  List.length (flat_map emitted rws) = List.length (filter wide rws).
Proof.
  induction rws as [|row rws IH]; [reflexivity|].
  simpl. rewrite List.length_app, IH.
  destruct row as [|c0 [|c1 more]]; reflexivity.
Qed.

(** X14: [build_table_html] emits one row for each row of the table that
    has at least two cells, in the order of the table, built from the
    first two cells alone: rows with fewer cells are dropped, and cells
    after the second do not change the output. *)
Theorem build_table_html_rows (self : converter) (table_data : table) :
  table_rows_html (rows table_data) [] = flat_map emitted (rows table_data) /\
  List.length (table_rows_html (rows table_data) [])
  = List.length (filter wide (rows table_data)) /\
  build_table_html self
    (Table (List.map (firstn 2) (filter wide (rows table_data)))
           (columns table_data) (tposition table_data))
  = build_table_html self table_data.
Proof.
  assert (E : forall rws, table_rows_html rws [] = flat_map emitted rws)
    by (intros rws; now rewrite table_rows_html_spec).
  split; [apply E|]. split; [rewrite E; apply emitted_wide|].
  unfold build_table_html. simpl. rewrite !E. do 2 f_equal.
  induction (rows table_data) as [|row rws IH]; [reflexivity|].
  simpl. destruct row as [|c0 [|c1 more]]; simpl; try exact IH.
  now rewrite IH.
Qed.

End Rows.

(** ** The reply of the model *)

Module Reply.

Import Re StrFacts ReFacts HTMLConverter Handler Vocabulary.

(** *** Greedy repetition *)

Lemma lit_flags (fl1 fl2 : flags) (p : string) :
  ignorecase fl1 = ignorecase fl2 -> forall s, lit fl1 p s = lit fl2 p s.
Proof.
  intros E. induction p as [|a p IH]; intros [|b s]; simpl; try reflexivity.
  unfold char_eq. rewrite E, IH. reflexivity.
Qed.

(** A repetition none of whose ways on succeeds fails. *)
Lemma rep_greedy_fail {A : Type} (fl : flags) (k : cclass) (s : string) :
  forall least (cont : string -> string -> option A),
  (forall w s', s = w ++ s' -> cont w s' = None) ->
  rep_greedy fl k least s cont = None.
Proof.
  induction s as [|c s IH]; intros least cont H; simpl.
  - destruct least; [apply (H "" ""); reflexivity | reflexivity].
  - rewrite IH by (intros w s' ->; apply (H (String c w)); reflexivity).
    assert (match least with 0 => cont "" (String c s) | S _ => None end = None)
      as -> by (destruct least; [apply (H ""); reflexivity | reflexivity]).
    now destruct (class_match fl k c).
Qed.

(** The longest run that lets the rest of the pattern match is the one a
    greedy repetition takes. *)
Lemma rep_greedy_longest {A : Type} (fl : flags) (k : cclass) (w s' : string) (x : A) :
  all_class fl k w = true ->
  forall least (cont : string -> string -> option A),
  least <= length w ->
  cont w s' = Some x ->
  (forall w1 w2, s' = w1 ++ w2 -> w1 <> "" -> cont (w ++ w1) w2 = None) ->
  rep_greedy fl k least (w ++ s') cont = Some x.
Proof.
  induction w as [|c w IH]; intros Hw least cont Hl Hc Hmax.
  - simpl in Hl. assert (least = 0) as -> by lia. simpl.
    destruct s' as [|d r]; simpl; [exact Hc|].
    rewrite rep_greedy_fail
      by (intros w1 w2 ->; apply (Hmax (String d w1)); [reflexivity | discriminate]).
    now destruct (class_match fl k d).
  - simpl in Hw. apply andb_true_iff in Hw as [Hc' Hw]. simpl. rewrite Hc'.
    rewrite (IH Hw (pred least) (fun w0 s0 => cont (String c w0) s0));
      [reflexivity | simpl in Hl; lia | exact Hc |].
    intros w1 w2 E Hne. now apply (Hmax w1 w2).
Qed.

(** What a greedy repetition has taken cannot be made longer. *)
Lemma rep_greedy_none_inv {A : Type} (fl : flags) (k : cclass) (s : string) :
  forall least (cont : string -> string -> option A),
  rep_greedy fl k least s cont = None ->
  forall w s', s = w ++ s' -> all_class fl k w = true -> least <= length w ->
  cont w s' = None.
Proof.
  induction s as [|c s IH]; intros least cont H w s' E Hw Hl.
  - destruct w; [|discriminate]. simpl in E. subst s'.
    simpl in Hl. assert (least = 0) as -> by lia. exact H.
  - simpl in H. destruct w as [|d w].
    + simpl in E. subst s'. simpl in Hl. assert (least = 0) as -> by lia.
      destruct (class_match fl k c); [|exact H].
      now destruct (rep_greedy fl k (pred 0) s (fun w s' => cont (String c w) s')).
    + simpl in E. injection E as <- ->. simpl in Hw.
      apply andb_true_iff in Hw as [Hc Hw]. rewrite Hc in H.
      destruct (rep_greedy fl k (pred least) (w ++ s')
                  (fun w s' => cont (String c w) s')) eqn:R; [discriminate|].
      apply (IH _ _ R w s' eq_refl Hw). simpl in Hl. lia.
Qed.

Lemma rep_greedy_last {A : Type} (fl : flags) (k : cclass) (s : string) :
  forall least (cont : string -> string -> option A) x,
  rep_greedy fl k least s cont = Some x ->
  exists w s', s = w ++ s' /\ all_class fl k w = true /\ cont w s' = Some x /\
    forall w1 w2, s' = w1 ++ w2 -> w1 <> "" -> all_class fl k w1 = true ->
                  cont (w ++ w1) w2 = None.
Proof.
  induction s as [|c s IH]; intros least cont x H.
  - simpl in H. destruct least; [|discriminate].
    exists "", "". repeat split; auto.
    intros [|d w1] w2 E Hne _; [congruence | discriminate].
  - simpl in H.
    assert (Hstop : match least with 0 => cont "" (String c s) | S _ => None end = Some x ->
              (forall w1 w2, String c s = w1 ++ w2 -> w1 <> "" ->
                 all_class fl k w1 = true -> cont w1 w2 = None) ->
              exists w s', String c s = w ++ s' /\ all_class fl k w = true /\
                cont w s' = Some x /\
                forall w1 w2, s' = w1 ++ w2 -> w1 <> "" -> all_class fl k w1 = true ->
                              cont (w ++ w1) w2 = None).
    { intros Hs Hmax. destruct least; [|discriminate].
      exists "", (String c s). repeat split; auto. }
    destruct (class_match fl k c) eqn:Hc.
    + destruct (rep_greedy fl k (pred least) s (fun w s' => cont (String c w) s'))
        as [y|] eqn:R.
      * injection H as ->. apply IH in R as (w & s' & -> & Hw & Hx & Hmax).
        exists (String c w), s'. simpl. rewrite Hc, Hw. repeat split; auto.
      * destruct least; [|discriminate H].
        apply Hstop; [exact H|].
        intros [|d w1] w2 E Hne Hw1; [congruence|].
        simpl in E. injection E as <- ->. simpl in Hw1.
        apply andb_true_iff in Hw1 as [_ Hw1].
        apply (rep_greedy_none_inv _ _ _ _ _ R w1 w2 eq_refl Hw1).
        simpl; lia.
    + apply Hstop; [exact H|].
      intros [|d w1] w2 E Hne Hw1; [congruence|].
      simpl in E. injection E as <- ->. simpl in Hw1. now rewrite Hc in Hw1.
Qed.

(** The match [re.search] returns is the leftmost. *)
Lemma search_from_leftmost (fl : flags) (r : regex) (s : string) :
  forall pos m, search_from fl r s pos = Some m ->
  exists pre suf res,
    s = pre ++ suf /\ match_here fl r suf = Some res /\
    m = mk_match (pos + length pre) res /\
    forall p1 p2, pre = p1 ++ p2 -> p2 <> "" -> match_here fl r (p2 ++ suf) = None.
Proof.
  induction s as [|c s IH]; intros pos m; simpl;
    destruct (match_here fl r _) as [res|] eqn:E; try discriminate.
  - intros [= <-]; exists "", "", res; rewrite Nat.add_0_r. repeat split; auto.
    intros [|? ?] p2 E2 Hne; simpl in E2; [congruence | discriminate].
  - intros [= <-]; exists "", (String c s), res; rewrite Nat.add_0_r.
    repeat split; auto.
    intros [|? ?] p2 E2 Hne; simpl in E2; [congruence | discriminate].
  - intros H; apply IH in H as (pre & suf & res & -> & Hm & -> & Hleft).
    exists (String c pre), suf, res; simpl. rewrite Nat.add_succ_r.
    repeat split; auto.
    intros [|d p1] p2 E2 Hne; simpl in E2.
    + subst p2. exact E.
    + injection E2 as <- ->. apply (Hleft p1 p2 eq_refl Hne).
Qed.

(** *** The document of a reply *)

Lemma lit_doc_sound (p s w r : string) :
  lit IGNORECASE_DOTALL p s = Some (w, r) -> s = w ++ r /\ Str.lower w = Str.lower p.
Proof.
  rewrite (lit_flags IGNORECASE_DOTALL IGNORECASE) by reflexivity.
  apply Lists.lit_ci_sound.
Qed.

Lemma lit_doc_complete (p u r : string) :
  Str.lower u = Str.lower p -> lit IGNORECASE_DOTALL p (u ++ r) = Some (u, r).
Proof.
  rewrite (lit_flags IGNORECASE_DOTALL IGNORECASE) by reflexivity.
  apply Lists.lit_ci_complete.
Qed.

Lemma all_dot (w : string) : all_class IGNORECASE_DOTALL CDot w = true.
Proof. induction w as [|c w IH]; [reflexivity | exact IH]. Qed.

Lemma document_here (s : string) :
  match_here IGNORECASE_DOTALL document_pattern s
  = match lit IGNORECASE_DOTALL "<!DOCTYPE html>" s with
    | Some (d, s1) => rep_greedy IGNORECASE_DOTALL CDot 0 s1 (closing d)
    | None => None
    end.
Proof. reflexivity. Qed.

Lemma nonempty_lower (h p : string) : Str.lower h = p -> p <> "" -> h <> "".
Proof. intros <- H ->. now apply H. Qed.

(** A match of the document pattern at the head of a text. *)
Lemma document_match (s w : string) (cs : captures) :
  match_here IGNORECASE_DOTALL document_pattern s = Some (w, cs) ->
  exists d mid h post,
    s = w ++ post /\ w = d ++ mid ++ h /\
    Str.lower d = "<!doctype html>" /\ Str.lower h = "</html>" /\
    ~ Str.Occurs "</html>" (Str.lower post).
Proof.
  rewrite document_here.
  destruct (lit IGNORECASE_DOTALL "<!DOCTYPE html>" s) as [[d s1]|] eqn:L;
    [|discriminate].
  apply lit_doc_sound in L as [-> Hd]. intros R.
  apply rep_greedy_last in R as (mid & s' & -> & _ & Hc & Hmax).
  unfold closing in Hc.
  destruct (lit IGNORECASE_DOTALL "</html>" s') as [[h post]|] eqn:L'; [|discriminate].
  apply lit_doc_sound in L' as [-> Hh]. injection Hc as <- <-.
  exists d, mid, h, post. split; [now rewrite !app_assoc|].
  split; [reflexivity|]. split; [exact Hd|]. split; [exact Hh|].
  intros Ho. apply Fragments.Occurs_lower_iff in Ho as (u & Hu & p1 & p2 & ->).
  specialize (Hmax (h ++ p1) (u ++ p2)). unfold closing in Hmax.
  rewrite lit_doc_complete in Hmax by exact Hu.
  enough (Some (d ++ (mid ++ h ++ p1) ++ u, @nil (nat * string)) = None) by discriminate.
  apply Hmax; [now rewrite app_assoc | | apply all_dot].
  intros E. apply (nonempty_lower h "</html>" Hh); [discriminate|].
  destruct h; [reflexivity | discriminate].
Qed.

(** A text from a declaration to a closing tag is matched whole. *)
Lemma document_whole (d mid h : string) :
  Str.lower d = "<!doctype html>" -> Str.lower h = "</html>" ->
  match_here IGNORECASE_DOTALL document_pattern (d ++ mid ++ h)
  = Some (d ++ mid ++ h, []).
Proof.
  intros Hd Hh. rewrite document_here, lit_doc_complete by exact Hd.
  assert (Hlen : length h = 7)
    by (rewrite <- (Platforms.length_lower h), Hh; reflexivity).
  apply rep_greedy_longest; [apply all_dot | simpl; lia | |].
  - unfold closing. rewrite <- (app_nil_r h) at 1.
    now rewrite lit_doc_complete by exact Hh.
  - intros w1 w2 -> Hne. unfold closing.
    destruct (lit IGNORECASE_DOTALL "</html>" w2) as [[w3 r]|] eqn:L; [|reflexivity].
    apply lit_sound in L as (-> & _ & Hl).
    rewrite !length_app, Hl in Hlen. simpl in Hlen.
    destruct w1; [congruence | simpl in Hlen; lia].
Qed.

(** X15: what [convert_with_ai] returns from a reply: the reply itself
    when it holds no text from <!DOCTYPE html> to </html>, in any letter
    case; otherwise the part of the reply that runs from the first such
    declaration to the last such closing tag, so that no declaration comes
    before it, no closing tag comes after it, and extracting again from the
    result changes nothing. *)
Theorem html_of_response_document (response_text : string) :
  (search IGNORECASE_DOTALL document_pattern response_text = None ->
   html_of_response response_text = response_text) /\
  (forall m,
     search IGNORECASE_DOTALL document_pattern response_text = Some m ->
     exists pre d mid h post,
       response_text = pre ++ (d ++ mid ++ h) ++ post /\
       html_of_response response_text = d ++ mid ++ h /\
       Str.lower d = "<!doctype html>" /\ Str.lower h = "</html>" /\
       ~ Str.Occurs "<!doctype html>" (Str.lower pre) /\
       ~ Str.Occurs "</html>" (Str.lower post)) /\
  html_of_response (html_of_response response_text)
  = html_of_response response_text.
Proof.
  assert (Hsome : forall m,
     search IGNORECASE_DOTALL document_pattern response_text = Some m ->
     exists pre d mid h post,
       response_text = pre ++ (d ++ mid ++ h) ++ post /\
       html_of_response response_text = d ++ mid ++ h /\
       Str.lower d = "<!doctype html>" /\ Str.lower h = "</html>" /\
       ~ Str.Occurs "<!doctype html>" (Str.lower pre) /\
       ~ Str.Occurs "</html>" (Str.lower post)).
  { intros m H. unfold html_of_response. rewrite H.
    apply search_from_leftmost in H as (pre & suf & [w cs] & -> & Hm & -> & Hleft).
    apply document_match in Hm as (d & mid & h & post & -> & -> & Hd & Hh & Hpost).
    exists pre, d, mid, h, post. repeat split; auto.
    intros Ho. apply Fragments.Occurs_lower_iff in Ho as (u & Hu & p1 & p2 & ->).
    specialize (Hleft p1 (u ++ p2) eq_refl).
    rewrite document_here, !app_assoc, lit_doc_complete in Hleft by exact Hu.
    assert (Hnone : rep_greedy IGNORECASE_DOTALL CDot 0
                      (p2 ++ d ++ mid ++ h ++ post) (closing u) = None).
    { apply Hleft. intros E. apply (nonempty_lower u _ Hu); [discriminate|].
      destruct u; [reflexivity | discriminate]. }
    pose proof (rep_greedy_none_inv _ _ _ _ _ Hnone (p2 ++ d ++ mid) (h ++ post)) as Hc.
    unfold closing in Hc. rewrite lit_doc_complete in Hc by exact Hh.
    enough (Some (u ++ (p2 ++ d ++ mid) ++ h, @nil (nat * string)) = None) by discriminate.
    apply Hc; [now rewrite !app_assoc | apply all_dot | lia]. }
  split; [|split; [exact Hsome|]].
  - intros H. unfold html_of_response. now rewrite H.
  - destruct (search IGNORECASE_DOTALL document_pattern response_text) as [m|] eqn:E.
    + destruct (Hsome m eq_refl) as (pre & d & mid & h & post & _ & -> & Hd & Hh & _).
      unfold html_of_response at 1. unfold search.
      rewrite (Ratings.search_from_hit _ _ _ 0 _ (document_whole d mid h Hd Hh)).
      reflexivity.
    + unfold html_of_response at 2 3. rewrite E. unfold html_of_response. now rewrite E.
Qed.

Lemma html_of_response_document_witness :
  html_of_response "Sorry, no page." = "Sorry, no page." /\
  exists pre d mid h post,
    "Here you go: <!doctype html><HTML><p>x</p></html> and </HTML> Bye</html!"
    = pre ++ (d ++ mid ++ h) ++ post /\
    html_of_response
      "Here you go: <!doctype html><HTML><p>x</p></html> and </HTML> Bye</html!"
    = d ++ mid ++ h /\
    Str.lower d = "<!doctype html>" /\ Str.lower h = "</html>" /\
    ~ Str.Occurs "<!doctype html>" (Str.lower pre) /\
    ~ Str.Occurs "</html>" (Str.lower post).
Proof.
  split.
  - apply (proj1 (html_of_response_document "Sorry, no page.")). reflexivity.
  - apply (proj1 (proj2 (html_of_response_document
             "Here you go: <!doctype html><HTML><p>x</p></html> and </HTML> Bye</html!"))
             (mk_match 13 ("<!doctype html><HTML><p>x</p></html> and </HTML>", []))).
    reflexivity.
Defined.

End Reply.

(** ** Positions *)

Module Offsets.

Import Re StrFacts ReFacts Extraction HTMLConverter Vocabulary.

Lemma finditer_from_offsets (fl : flags) (r : regex) (s : string) :
  forall pos skip,
  Forall (fun m => exists pre suf res,
            s = pre ++ suf /\ match_here fl r suf = Some res /\
            m = mk_match (pos + length pre) res)
         (finditer_from fl r s pos skip).
Proof.
  induction s as [|c s IH]; intros pos skip.
  - destruct skip; simpl; [|constructor].
    destruct (match_here fl r "") as [res|] eqn:E; constructor; [|constructor].
    exists "", "", res. now rewrite Nat.add_0_r.
  - assert (Hrest : forall n,
              Forall (fun m => exists pre suf res,
                        String c s = pre ++ suf /\ match_here fl r suf = Some res /\
                        m = mk_match (pos + length pre) res)
                     (finditer_from fl r s (S pos) n)).
    { intros n. eapply Forall_impl; [|apply (IH (S pos) n)].
      intros m (pre & suf & res & -> & Hm & ->).
      exists (String c pre), suf, res. simpl. now rewrite Nat.add_succ_r. }
    destruct skip as [|n]; simpl; [|apply Hrest].
    destruct (match_here fl r (String c s)) as [res|] eqn:E; [|apply Hrest].
    constructor; [|apply Hrest].
    exists "", (String c s), res. now rewrite Nat.add_0_r.
Qed.

Lemma element_opening (name suf : string) (res : string * captures) :
  match_here IGNORECASE_DOTALL (element_pattern name) suf = Some res ->
  exists tag rest, suf = tag ++ rest /\ Str.lower tag = Str.lower ("<" ++ name).
Proof.
  unfold match_here, element_pattern. cbn [cat run].
  destruct (lit IGNORECASE_DOTALL ("<" ++ name) suf) as [[tag rest]|] eqn:L;
    [|discriminate].
  intros _. exists tag, rest. now apply Reply.lit_doc_sound.
Qed.

Lemma matches_open (name html : string) :
  Forall (fun m => opens_at (Str.lower ("<" ++ name)) html (m_start m))
         (finditer IGNORECASE_DOTALL (element_pattern name) html).
Proof.
  eapply Forall_impl; [|apply finditer_from_offsets].
  intros m (pre & suf & res & -> & Hm & ->).
  apply element_opening in Hm as (tag & rest & -> & Ht).
  now exists pre, tag, rest.
Qed.

(** X16: the position recorded for a heading or a table is the offset in
    the document at which its opening tag begins: the document holds
    there, in any letter case, <h1, <h2 or <h3 according to the level of the
    heading, and <table for a table. *)
Theorem positions_are_offsets (html : string) :
  (forall headings, extract_headings html = Ok headings ->
     Forall (fun h => opens_at ("<" ++ level h) html (position h)) headings) /\
  (forall tables, extract_tables html = Ok tables ->
     Forall (fun t => opens_at "<table" html (tposition t)) tables).
Proof.
  split.
  - intros headings. rewrite Headings.extract_headings_eq. intros [= <-].
    eapply Permutation_Forall; [symmetry; apply Headings.sorted_perm|].
    unfold headings_of. rewrite !Forall_app, !Forall_map.
    repeat split.
    + apply (matches_open "h1").
    + apply (matches_open "h2").
    + apply (matches_open "h3").
  - intros tables. rewrite extract_tables_eq. intros [= <-].
    apply Forall_forall. intros t Ht.
    apply in_flat_map in Ht as (tm & Hin & Ht). unfold table_of in Ht.
    destruct (rows_of tm) as [|row0 others]; [contradiction|].
    destruct Ht as [<- | []]. simpl.
    pose proof (matches_open "table" html) as H.
    rewrite Forall_forall in H. now apply H.
Qed.

Lemma positions_are_offsets_witness :
  Forall (fun h => opens_at ("<" ++ level h) "ab<H2>x</h2> <h1 id=t>y</H1>"
                            (position h))
         [Heading "h2" "x" 2; Heading "h1" "y" 13].
Proof.
  apply (positions_are_offsets "ab<H2>x</h2> <h1 id=t>y</H1>").
  vm_compute. reflexivity.
Defined.

End Offsets.

(** ** The form of a request *)

Module Form.

Import Re StrFacts ReFacts Extraction HTMLConverter Handler Vocabulary.

(** *** Splitting *)

Lemma split_from_skip (sep x rest : string) :
  split_from sep (x ++ rest) (length x) = split_from sep rest 0.
Proof.
  induction x as [|c x IH]; simpl; [|exact IH].
  destruct rest; reflexivity.
Qed.

Lemma take_length_app (a b : string) (n : nat) :
  n <= length a -> Str.take n (a ++ b) = Str.take n a.
Proof.
  revert a. induction n as [|n IH]; intros [|c a] H; simpl in *; try reflexivity.
  - lia.
  - rewrite IH; [reflexivity | lia].
Qed.

Lemma but_last_length (sep : string) : sep <> "" -> S (length (but_last sep)) = length sep.
Proof.
  intros H. unfold but_last. rewrite Page.length_take.
  destruct sep; [congruence | simpl; lia].
Qed.

(** An occurrence of [sep] at the head of [p ++ sep ++ rest], for a
    non-empty [p], lies within [p ++ but_last sep]. *)
Lemma head_within (sep p rest : string) :
  sep <> "" -> p <> "" ->
  Str.starts_with sep (p ++ sep ++ rest) = true ->
  exists post, p ++ but_last sep = sep ++ post.
Proof.
  intros Hsep Hp H. apply starts_with_spec in H as [r E].
  pose proof (but_last_length sep Hsep) as Hl.
  assert (Hlen : length sep <= length (p ++ but_last sep)).
  { rewrite length_app. destruct p; [congruence | simpl; lia]. }
  exists (Str.drop (length sep) (p ++ but_last sep)).
  rewrite <- (take_drop (length sep) (p ++ but_last sep)) at 1. f_equal.
  assert (E2 : p ++ sep ++ rest = (p ++ but_last sep) ++ Str.drop (pred (length sep)) sep ++ rest).
  { rewrite app_assoc. f_equal. rewrite <- app_assoc. f_equal.
    unfold but_last. now rewrite take_drop. }
  rewrite <- (take_length_app _ (Str.drop (pred (length sep)) sep ++ rest)) by exact Hlen.
  rewrite <- E2, E. apply take_app.
Qed.

Lemma apart_tail (sep : string) (c : ascii) (p : string) :
  apart sep (String c p) -> apart sep p.
Proof. intros H Ho. apply H. simpl. now apply Occurs_cons. Qed.

Lemma apart_head (sep p rest : string) :
  sep <> "" -> p <> "" -> apart sep p ->
  Str.starts_with sep (p ++ sep ++ rest) = false.
Proof.
  intros Hsep Hp Ha.
  destruct (Str.starts_with sep (p ++ sep ++ rest)) eqn:E; [|reflexivity].
  exfalso. apply Ha. apply head_within in E as [post E]; auto.
  rewrite E. apply Occurs_here.
Qed.

Lemma split_piece (sep p rest : string) :
  sep <> "" -> apart sep p ->
  split sep (p ++ sep ++ rest) = p :: split sep rest.
Proof.
  intros Hsep. unfold split. induction p as [|c p IH]; intros Ha.
  - cbn [append]. destruct sep as [|a sep]; [congruence|].
    cbn [append split_from]. 
    change (String a (sep ++ rest)) with (String a sep ++ rest).
    rewrite starts_with_app. cbn [length pred].
    now rewrite split_from_skip.
  - cbn [append split_from].
    change (String c (p ++ sep ++ rest)) with (String c p ++ sep ++ rest).
    rewrite apart_head by (auto; discriminate).
    rewrite IH by (now apply apart_tail with c). reflexivity.
Qed.

Lemma split_once_first (sep p rest : string) :
  sep <> "" -> apart sep p ->
  split_once sep (p ++ sep ++ rest) = [p; rest].
Proof.
  intros Hsep. induction p as [|c p IH]; intros Ha.
  - cbn [append]. destruct sep as [|a sep]; [congruence|].
    cbn [append split_once].
    change (String a (sep ++ rest)) with (String a sep ++ rest).
    now rewrite starts_with_app, drop_app.
  - cbn [append split_once].
    change (String c (p ++ sep ++ rest)) with (String c p ++ sep ++ rest).
    rewrite apart_head by (auto; discriminate).
    rewrite IH by (now apply apart_tail with c). reflexivity.
Qed.

Lemma split_none (sep s : string) :
  sep <> "" -> ~ Str.Occurs sep s -> split sep s = [s].
Proof.
  intros Hsep. unfold split. induction s as [|c s IH]; intros H; [reflexivity|].
  cbn [split_from].
  destruct (Str.starts_with sep (String c s)) eqn:E.
  - exfalso. apply H. apply starts_with_spec in E as [r ->]. apply Occurs_here.
  - rewrite IH; [reflexivity|]. intros Ho. apply H. now apply Occurs_cons.
Qed.

(** *** One part *)

Lemma lstrip_chars_app (cs x y : string) :
  Str.all (fun c => has_char c cs) x = true ->
  lstrip_chars cs (x ++ y) = lstrip_chars cs y.
Proof.
  induction x as [|c x IH]; simpl; [reflexivity|].
  intros H. apply andb_true_iff in H as [Hc Hx]. now rewrite Hc, IH.
Qed.

(** the end of line that closes a part goes with the content's own *)
Lemma rstrip_crlf (content : string) :
  rstrip_chars crlf (content ++ crlf) = rstrip_chars crlf content.
Proof.
  unfold rstrip_chars. rewrite Texts.rev_app.
  now rewrite lstrip_chars_app by reflexivity.
Qed.

Lemma name_here (name more : string) :
  name <> "" -> all_class no_flags (CNoneOf dquote) name = true ->
  match_here no_flags name_pattern ("name=" ++ dquote ++ name ++ dquote ++ more)
  = Some ("name=" ++ dquote ++ name ++ dquote, [(1, name)]).
Proof.
  intros Hne Hn. unfold match_here. simpl.
  apply Rendering.rep_greedy_max;
    [exact Hn | reflexivity | now apply Rendering.length_pos |].
  reflexivity.
Qed.

Lemma name_found (f : field) :
  f_name f <> "" -> all_class no_flags (CNoneOf dquote) (f_name f) = true ->
  search no_flags name_pattern (crlf ++ header_of f)
  = Some (mk_match 34 ("name=" ++ dquote ++ f_name f ++ dquote, [(1, f_name f)])).
Proof.
  intros Hne Hn. unfold search, header_of.
  cbn [append crlf].
  do 34 (rewrite Lists.search_from_miss by reflexivity).
  apply Ratings.search_from_hit.
  apply (name_here (f_name f) (f_more f) Hne Hn).
Qed.

Lemma split_sep (sep rest : string) :
  sep <> "" -> split sep (sep ++ rest) = "" :: split sep rest.
Proof.
  intros Hsep. unfold split. destruct sep as [|a sep]; [congruence|].
  cbn [append split_from].
  change (String a (sep ++ rest)) with (String a sep ++ rest).
  rewrite starts_with_app. cbn [length pred].
  now rewrite split_from_skip.
Qed.

Lemma split_body (boundary : string) (parts : list string) :
  ~ Str.Occurs ("--" ++ boundary) ("--" ++ crlf) ->
  Forall (apart ("--" ++ boundary)) parts ->
  split ("--" ++ boundary) (body_of boundary parts)
  = "" :: List.app parts [String.append "--" crlf].
Proof.
  intros Hend. set (sep := "--" ++ boundary).
  assert (Hsep : sep <> "") by discriminate.
  induction 1 as [|p parts Hp _ IH].
  - change (body_of boundary []) with (sep ++ "--" ++ crlf).
    rewrite split_sep by exact Hsep. now rewrite split_none.
  - change (body_of boundary (p :: parts)) with (sep ++ p ++ body_of boundary parts).
    rewrite split_sep by exact Hsep. f_equal.
    assert (E : exists Y, body_of boundary parts = sep ++ Y).
    { destruct parts as [|q parts]; simpl.
      - now exists ("--" ++ crlf).
      - now exists (q ++ body_of boundary parts). }
    destruct E as [Y E]. rewrite E in IH |- *.
    rewrite split_sep in IH by exact Hsep. injection IH as IH.
    rewrite split_piece by auto. now rewrite IH.
Qed.

(** The pieces of a split are parts of the text, the first one its
    beginning. *)
Lemma split_from_pieces (sep s : string) :
  forall skip, exists p ps,
    split_from sep s skip = p :: ps /\
    Str.Occurs p s /\
    (skip = 0 -> exists rest, s = p ++ rest) /\
    Forall (fun q => Str.Occurs q s) ps.
Proof.
  induction s as [|c s IH]; intros skip.
  - exists "", []. repeat split; auto; [now exists "", "" | now exists ""].
  - destruct skip as [|n]; cbn [split_from].
    + destruct (IH 0) as (p & ps & E & Hp & Hpre & Hps).
      destruct (Str.starts_with sep (String c s)).
      * destruct (IH (pred (length sep))) as (p' & ps' & E' & Hp' & _ & Hps').
        exists "", (p' :: ps'). rewrite E'. repeat split; auto.
        -- now exists "", (String c s).
        -- now exists (String c s).
        -- constructor; [now apply Occurs_cons|].
           eapply Forall_impl; [|exact Hps']. intros q. apply Occurs_cons.
      * destruct (Hpre eq_refl) as [rest ->].
        exists (String c p), ps. rewrite E. repeat split; auto.
        -- now exists "", rest.
        -- now exists rest.
        -- eapply Forall_impl; [|exact Hps]. intros q. apply Occurs_cons.
    + destruct (IH n) as (p & ps & E & Hp & _ & Hps).
      exists p, ps. repeat split; auto; [now apply Occurs_cons | discriminate |].
      eapply Forall_impl; [|exact Hps]. intros q. apply Occurs_cons.
Qed.

Lemma split_pieces (sep s : string) :
  Forall (fun q => Str.Occurs q s) (split sep s).
Proof.
  destruct (split_from_pieces sep s 0) as (p & ps & E & Hp & _ & Hps).
  unfold split. rewrite E. now constructor.
Qed.

(** A text that holds [sep] splits in two at its first occurrence. *)
Lemma split_once_two (sep s : string) :
  sep <> "" ->
  Str.contains sep s = true -> exists h c, split_once sep s = [h; c].
Proof.
  intros Hsep. induction s as [|c s IH]; cbn [Str.contains split_once].
  - destruct sep; [congruence | discriminate].
  - destruct (Str.starts_with sep (String c s)); [eauto|].
    cbn [orb]. intros H. destruct (IH H) as (h & c' & ->). simpl. eauto.
Qed.

Lemma for_each_raise {A S : Type} (body : S -> A -> result S) (xs : list A) (e : exn) :
  forall st, for_each xs st body = Raise e ->
  exists st' x, In x xs /\ body st' x = Raise e.
Proof.
  induction xs as [|x xs IH]; intros st; cbn [for_each]; [discriminate|].
  destruct (body st x) as [st1|e1] eqn:E; cbn [bind].
  - intros H. destruct (IH _ H) as (st' & y & Hy & Hb). exists st', y. split; [now right | exact Hb].
  - intros [= ->]. exists st, x. split; [now left | exact E].
Qed.

Lemma for_each_keep {A S : Type} (body : S -> A -> result S) (xs : list A) (st : S) :
  Forall (fun x => body st x = Ok st) xs -> for_each xs st body = Ok st.
Proof.
  induction 1 as [|x xs Hx _ IH]; cbn [for_each]; [reflexivity|].
  now rewrite Hx.
Qed.

Section Decoded.

Variable text : Type.
Variable text_eqb : text -> text -> bool.
Variable decode : string -> result text.
Variable decode_ignore : string -> text.

Lemma part_step (f : field) (k v : text) (form_data : list (text * text)) :
  f_name f <> "" ->
  all_class no_flags (CNoneOf dquote) (f_name f) = true ->
  apart (crlf ++ crlf) (crlf ++ header_of f) ->
  decode (f_name f) = Ok k ->
  decode (rstrip_chars crlf (f_content f)) = Ok v ->
  parse_part text text_eqb decode decode_ignore form_data (part_of f)
  = Ok (set_item text text_eqb k v form_data).
Proof.
  intros Hne Hn Hblank Hk Hv. unfold parse_part.
  replace (String.eqb (part_of f) "" || String.eqb (part_of f) ("--" ++ crlf)
           || String.eqb (part_of f) "--") with false by reflexivity.
  assert (E : part_of f
              = (crlf ++ header_of f) ++ (crlf ++ crlf) ++ (f_content f ++ crlf))
    by (unfold part_of; now rewrite !app_assoc).
  assert (Hc : Str.contains (crlf ++ crlf) (part_of f) = true).
  { apply contains_spec. rewrite E. now exists (crlf ++ header_of f), (f_content f ++ crlf). }
  rewrite Hc, E, split_once_first by (auto; discriminate).
  rewrite (name_found f Hne Hn). cbn [group_str group mk_match m_groups snd group_of Nat.eqb bind].
  rewrite Hk. cbn [bind]. rewrite rstrip_crlf, Hv. cbn [bind].
  now destruct (Str.contains "filename=" (crlf ++ header_of f)).
Qed.

Lemma parts_loop (tail : list string) (fields : list field) :
  forall kvs form_data,
  Forall (fun f => f_name f <> "" /\
                   all_class no_flags (CNoneOf dquote) (f_name f) = true /\
                   apart (crlf ++ crlf) (crlf ++ header_of f)) fields ->
  Forall2 (fun f kv => decode (f_name f) = Ok (fst kv) /\
                       decode (rstrip_chars crlf (f_content f)) = Ok (snd kv))
          fields kvs ->
  for_each (List.map part_of fields ++ tail)%list form_data
    (parse_part text text_eqb decode decode_ignore)
  = for_each tail (assigned text_eqb kvs form_data)
      (parse_part text text_eqb decode decode_ignore).
Proof.
  induction fields as [|f fields IH]; intros kvs form_data Hw Hd.
  - inversion Hd; subst. reflexivity.
  - inversion Hd as [|? [k v] ? kvs' [Hk Hv] Hd']; subst.
    inversion Hw as [|? ? (Hne & Hn & Hb) Hw']; subst.
    cbn [List.map app for_each].
    rewrite (part_step f k v form_data Hne Hn Hb Hk Hv). cbn [bind].
    now rewrite (IH kvs' _ Hw' Hd').
Qed.

(** X17: [parse_multipart] gives back the fields of a form sent in the
    usual layout, a boundary line, the header line with the quoted name,
    an empty line, the content and an end of line for each field, then the
    closing boundary: where the boundary begins nowhere inside a part, the
    names are not empty and hold no double quote, and the header lines hold
    no empty line, the result is the dict of the assignments, in the order
    of the body and a later field replacing an earlier one of the same
    name, of the decoded name to the decoded content without the carriage
    returns and line feeds it ends with. *)
Theorem parse_multipart_round_trip (boundary : string) (fields : list field)
    (kvs : list (text * text)) :
  ~ Str.Occurs ("--" ++ boundary) ("--" ++ crlf) ->
  Forall (well_formed ("--" ++ boundary)) fields ->
  Forall2 (fun f kv => decode (f_name f) = Ok (fst kv) /\
                       decode (rstrip_chars crlf (f_content f)) = Ok (snd kv))
          fields kvs ->
  parse_multipart text text_eqb decode decode_ignore
    (body_of boundary (List.map part_of fields)) boundary
  = Ok (assigned text_eqb kvs []).
Proof.
  intros Hend Hw Hd. unfold parse_multipart.
  rewrite split_body; [|exact Hend|].
  - cbn [for_each]. change (parse_part text text_eqb decode decode_ignore [] "")
      with (@Ok (list (text * text)) []). cbn [bind].
    rewrite (parts_loop _ fields kvs []); [reflexivity | | exact Hd].
    eapply Forall_impl; [|exact Hw]. intros f (H1 & H2 & H3 & _). auto.
  - rewrite Forall_map. eapply Forall_impl; [|exact Hw].
    intros f (_ & _ & _ & H). exact H.
Qed.

Lemma part_skipped (form_data : list (text * text)) (part : string) :
  Str.contains (crlf ++ crlf) part = false ->
  parse_part text text_eqb decode decode_ignore form_data part = Ok form_data.
Proof.
  intros H. unfold parse_part. rewrite H.
  now destruct (String.eqb part "" || String.eqb part ("--" ++ crlf)
                || String.eqb part "--").
Qed.

(** X18: a body that holds no empty line gives no field, whatever the
    boundary: [parse_multipart] returns the empty dict and does not
    raise. *)
Theorem parse_multipart_no_blank_line (body boundary : string) :
  ~ Str.Occurs (crlf ++ crlf) body ->
  parse_multipart text text_eqb decode decode_ignore body boundary = Ok [].
Proof.
  intros H. unfold parse_multipart. apply for_each_keep.
  eapply Forall_impl; [|apply split_pieces].
  intros part Hp. apply part_skipped. apply contains_false.
  intros Ho. apply H. now apply Occurs_trans with part.
Qed.

Lemma part_raises (form_data : list (text * text)) (part : string) (e : exn) :
  parse_part text text_eqb decode decode_ignore form_data part = Raise e ->
  exists b, decode b = Raise e.
Proof.
  unfold parse_part.
  destruct (String.eqb part "" || String.eqb part ("--" ++ crlf)
            || String.eqb part "--"); [discriminate|].
  destruct (Str.contains (crlf ++ crlf) part) eqn:Hc; [|discriminate].
  destruct (split_once_two (crlf ++ crlf) part) as (headers & content & ->);
    [discriminate | exact Hc |].
  destruct (search no_flags name_pattern headers) as [m|] eqn:Hs; [|discriminate].
  apply search_from_sound in Hs.
  destruct (match_of_group no_flags name_pattern m 0 Hs eq_refl) as (g & _ & Hg & _).
  unfold group_str. rewrite Hg. cbn [bind].
  destruct (decode g) as [field_name|e1] eqn:Hn; cbn [bind];
    [|intros [= ->]; now exists g].
  destruct (Str.contains "filename=" headers).
  - now destruct (decode (rstrip_chars crlf content)).
  - destruct (decode (rstrip_chars crlf content)) as [v|e2] eqn:Hv; cbn [bind];
      [discriminate|].
    intros [= ->]. now exists (rstrip_chars crlf content).
Qed.

(** X19: [parse_multipart] raises only what the decoder raises: an
    exception it ends with was raised by the strict decoding of some
    bytes, a field name or the content of a field that is not a file; so
    it returns a dict whenever the strict decoder accepts every text. *)
Theorem parse_multipart_raises_decoding (body boundary : string) :
  (forall e,
     parse_multipart text text_eqb decode decode_ignore body boundary = Raise e ->
     exists b, decode b = Raise e) /\
  ((forall b, exists t, decode b = Ok t) ->
   exists form_data,
     parse_multipart text text_eqb decode decode_ignore body boundary
     = Ok form_data).
Proof.
  assert (H : forall e,
     parse_multipart text text_eqb decode decode_ignore body boundary = Raise e ->
     exists b, decode b = Raise e).
  { intros e He. unfold parse_multipart in He.
    apply for_each_raise in He as (st & part & _ & He).
    now apply part_raises in He. }
  split; [exact H|]. intros Hd.
  destruct (parse_multipart text text_eqb decode decode_ignore body boundary)
    as [d|e] eqn:E; [now exists d|].
  destruct (H e eq_refl) as [b Hb]. destruct (Hd b) as [t Ht]. congruence.
Qed.

End Decoded.

Lemma parse_multipart_round_trip_witness :
  parse_multipart string String.eqb (fun b => Ok b) (fun b => b)
    (body_of "B7"
       (List.map part_of
          [Field "platform" "" "stake";
           Field "file"
             ("; filename=" ++ dquote ++ "a.html" ++ dquote ++ crlf
              ++ "Content-Type: text/html")
             ("<h1>Hi</h1>" ++ crlf ++ crlf);
           Field "platform" "" "bc-game"]))
    "B7"
  = Ok [("platform", "bc-game"); ("file", "<h1>Hi</h1>")].
Proof.
  apply (parse_multipart_round_trip string String.eqb (fun b => Ok b) (fun b => b)
           "B7" _ [("platform", "stake"); ("file", "<h1>Hi</h1>");
                   ("platform", "bc-game")]).
  - apply contains_false. reflexivity.
  - repeat constructor; try discriminate; apply contains_false; reflexivity.
  - repeat constructor.
Defined.

Lemma parse_multipart_no_blank_line_witness :
  parse_multipart string String.eqb (fun b => Ok b) (fun b => b)
    ("--B7" ++ crlf ++ "name=" ++ dquote ++ "file" ++ dquote ++ crlf
     ++ "<h1>Hi</h1>" ++ crlf ++ "--B7--") "B7"
  = Ok [].
Proof.
  apply (parse_multipart_no_blank_line string String.eqb (fun b => Ok b) (fun b => b)).
  apply contains_false. reflexivity.
Defined.

Lemma parse_multipart_raises_decoding_witness :
  (exists b, ascii_only b = Raise ValueError) /\
  (exists form_data,
     parse_multipart string String.eqb (fun b => Ok b) (fun b => b)
       ("--B7" ++ crlf ++ crlf ++ crlf ++ "--B7--") "B7" = Ok form_data).
Proof.
  split.
  - apply (parse_multipart_raises_decoding string String.eqb ascii_only (fun b => b)
             (body_of "B7"
                [part_of (Field "title" ""
                            (String (ascii_of_N 233) "t" ++ String (ascii_of_N 233) ""))])
             "B7").
    vm_compute. reflexivity.
  - apply (parse_multipart_raises_decoding string String.eqb (fun b => Ok b)
             (fun b => b)).
    intros b. now exists b.
Defined.

End Form.

(** ** The boundary of a request *)

Module Boundary.

Import Re StrFacts ReFacts HTMLConverter Handler Vocabulary Form.

Lemma split_from_drop (sep : string) (n : nat) :
  forall s, n <= length s -> split_from sep s n = split_from sep (Str.drop n s) 0.
Proof.
  induction n as [|n IH]; intros s H; [now destruct s|].
  destruct s as [|c s]; simpl in *; [lia|]. apply IH. lia.
Qed.

Lemma last_push (c : ascii) (l : list string) :
  last (push c l) "" = "" -> last l "" = "" /\ 2 <= List.length l.
Proof.
  destruct l as [|p [|q l]]; simpl; try discriminate.
  intros H. split; [exact H | lia].
Qed.

(** A split whose last piece is empty is that of the empty text or of a
    text that ends with the separator. *)
Lemma last_piece_empty (sep : string) (n : nat) :
  sep <> "" ->
  forall s, length s <= n ->
  last (split_from sep s 0) "" = "" ->
  s = "" \/ exists pre, s = pre ++ sep.
Proof.
  intros Hsep. induction n as [|n IH]; intros s Hn H.
  - destruct s; [now left | simpl in Hn; lia].
  - destruct s as [|c s]; [now left|]. right. cbn [split_from] in H.
    destruct (Str.starts_with sep (String c s)) eqn:E.
    + apply starts_with_spec in E as [rest E].
      assert (Hl : pred (length sep) <= length s).
      { apply (f_equal length) in E. rewrite length_app in E. simpl in E. lia. }
      rewrite split_from_drop in H by exact Hl.
      assert (Hd : Str.drop (pred (length sep)) s = rest).
      { destruct sep as [|a sep]; [congruence|]. simpl in E. injection E as _ ->.
        simpl. apply drop_app. }
      rewrite Hd in H.
      assert (H' : last (split_from sep rest 0) "" = "").
      { destruct (split_from_pieces sep rest 0) as (p & ps & Ep & _).
        rewrite Ep in H |- *. exact H. }
      destruct (IH rest) as [-> | [pre ->]]; [|exact H'| |].
      * apply (f_equal length) in E. rewrite length_app in E.
        pose proof (Rendering.length_pos sep Hsep). simpl in *. lia.
      * exists "". rewrite E. now rewrite app_nil_r.
      * exists (sep ++ pre). rewrite E. now rewrite app_assoc.
    + apply last_push in H as [H Hlen].
      destruct (IH s) as [-> | [pre ->]]; [simpl in Hn; lia | exact H | |].
      * simpl in Hlen. lia.
      * now exists (String c pre).
Qed.

(** X20: [do_POST] refuses a request for the lack of a boundary only when
    its Content-Type header is absent, empty, or ends with boundary=; a
    header that is not empty and does not hold boundary= at all is not
    refused: the whole header is taken as the boundary. *)
Theorem request_boundary_lenient :
  request_boundary None = None /\
  (forall header,
     header <> "" -> ~ Str.Occurs "boundary=" header ->
     request_boundary (Some header) = Some header) /\
  (forall header,
     request_boundary (Some header) = None ->
     header = "" \/ exists pre, header = pre ++ "boundary=").
Proof.
  split; [reflexivity|]. split.
  - intros header Hne Hno. unfold request_boundary.
    rewrite split_none by (auto; discriminate). simpl.
    destruct header; [congruence | reflexivity].
  - intros header. unfold request_boundary.
    destruct (String.eqb_spec (last (split "boundary=" header) "") "") as [E|];
      [|discriminate].
    intros _. apply (last_piece_empty "boundary=" (length header));
      [discriminate | lia | exact E].
Qed.

Lemma request_boundary_lenient_witness :
  request_boundary (Some "application/json") = Some "application/json" /\
  ("multipart/form-data; boundary=" = ""
   \/ exists pre, "multipart/form-data; boundary=" = pre ++ "boundary=").
Proof.
  split.
  - apply request_boundary_lenient; [discriminate|].
    apply contains_false. reflexivity.
  - apply request_boundary_lenient. reflexivity.
Defined.

End Boundary.
